(** * NotesCLI: a shallow embedding of [cli.js]

    The development follows the source file top-down:

    - JavaScript strings (sequences of UTF-16 code units) and the values
      that [JSON.parse] can build;
    - [JSON.stringify (v, null, 4)] and [JSON.parse];
    - the [Date] and [crypto.randomUUID] built-ins the program calls;
    - the process state (notes directory, notes file, clock, entropy,
      console) and a small state/exception/exit monad;
    - the functions of [cli.js]: [getNotesDir], [getNotesFilePath],
      [loadNotes], [saveNotes], [createNote], [listNotes], [deleteNote],
      [main];
    - the properties of the note store. *)

From Stdlib Require Import Ascii String.
From Stdlib Require Import List ZArith NArith Bool Lia Arith.
From Stdlib Require Import Sorted Permutation.
Import ListNotations.

Set Implicit Arguments.

(* ===================================================================== *)
(** ** JavaScript strings *)
(* ===================================================================== *)

(** A JavaScript string is a sequence of 16-bit code units.  A code unit is
    an [N] below [65536]; the parser only ever builds such units. *)
Definition jsstring := list N.

(** String literals of the source, one code unit per character. *)
Definition str (s : string) : jsstring :=
  map N_of_ascii (list_ascii_of_string s).

Fixpoint jsstring_eqb (a b : jsstring) : bool :=
  match a, b with
  | [], [] => true
  | x :: a', y :: b' => N.eqb x y && jsstring_eqb a' b'
  | _, _ => false
  end.

(** Code units that the JSON grammar names. *)
Definition DQUOTE : N := 34.
Definition BACKSLASH : N := 92.
Definition SLASH : N := 47.
Definition SPACE : N := 32.
Definition NEWLINE : N := 10.
Definition COMMA : N := 44.
Definition COLON : N := 58.
Definition LBRACKET : N := 91.
Definition RBRACKET : N := 93.
Definition LBRACE : N := 123.
Definition RBRACE : N := 125.
Definition MINUS : N := 45.
Definition PLUS : N := 43.
Definition DOT : N := 46.
Definition ZERO : N := 48.

Definition is_digit (c : N) : bool := (48 <=? c)%N && (c <=? 57)%N.

Definition is_lead_surrogate (c : N) : bool := (55296 <=? c)%N && (c <=? 56319)%N.
Definition is_trail_surrogate (c : N) : bool := (56320 <=? c)%N && (c <=? 57343)%N.

(** [String.prototype.slice (0, n)] for a non-negative [n]. *)
Definition slice0 (n : nat) (s : jsstring) : jsstring := firstn n s.

(** [Array.prototype.join] on already converted pieces. *)
Fixpoint join (sep : jsstring) (parts : list jsstring) : jsstring :=
  match parts with
  | [] => []
  | [p] => p
  | p :: rest => p ++ sep ++ join sep rest
  end.

(** [String.prototype.repeat]. *)
Fixpoint repeat_str (s : jsstring) (n : nat) : jsstring :=
  match n with
  | O => []
  | S k => s ++ repeat_str s k
  end.

(** Decimal digits of a natural number, most significant first. *)
Fixpoint digits_fuel (fuel : nat) (n : N) (acc : jsstring) : jsstring :=
  match fuel with
  | O => acc
  | S f =>
      let acc' := (48 + n mod 10)%N :: acc in
      if (n <? 10)%N then acc' else digits_fuel f (n / 10)%N acc'
  end.

Definition decimal (n : N) : jsstring :=
  digits_fuel (S (N.to_nat (N.log2 n))) n [].

(** Decimal value of a run of digits. *)
Definition digits_value (ds : jsstring) : N :=
  fold_left (fun acc d => (10 * acc + (d - 48))%N) ds 0%N.

(** Zero-padded decimal of fixed width, as [toISOString] prints fields. *)
Fixpoint pad_digits (width : nat) (n : N) : jsstring :=
  match width with
  | O => []
  | S w => pad_digits w (n / 10)%N ++ [(48 + n mod 10)%N]
  end.

(* ===================================================================== *)
(** ** The engine layer *)
(* ===================================================================== *)

(** The [TypeError]s the program can provoke. *)
Inductive type_error : Type :=
| NotAFunction (callee : jsstring)
| ReadOfNull (prop : jsstring)
| NotPrimitive.

(** What a [throw] carries: the [SyntaxError] of [JSON.parse], a
    [TypeError], or the error of a failed file-system call. *)
Inductive js_error : Type :=
| SyntaxError (message : jsstring)
| TypeError (e : type_error)
| SystemError (message : jsstring).

(** How a computation ends: with a value, with a thrown error, or with
    [process.exit]. *)
Inductive outcome (A : Type) : Type :=
| Return (a : A)
| Throw (e : js_error)
| Exit (code : Z).
Arguments Return {A} a.
Arguments Throw {A} e.
Arguments Exit {A} code.

(** A comparator as [Array.prototype.sort] calls it, on two elements and in
    a state of the world: it ends with the number it returns ([None] is
    NaN) or abruptly, and leaves a state. *)
Definition comparator_of (A St : Type) : Type :=
  A -> A -> St -> outcome (option Z) * St.

(** [SortCompare] on the number the comparator returned: NaN counts as
    [+0]; a positive number sends the first argument behind the second. *)
Definition sorts_after (v : option Z) : bool :=
  match v with
  | Some n => (0 <? n)%Z
  | None => false
  end.

(** A sequence of calls of the comparator on elements of the array, each
    returning normally, that leads from one state to another. *)
Inductive calls {A St : Type} (cmp : comparator_of A St) (items : list A)
  : St -> St -> Prop :=
| calls_none s : calls cmp items s s
| calls_more a b s v s1 s2 :
    In a items -> In b items -> cmp a b s = (Return v, s1) ->
    calls cmp items s1 s2 -> calls cmp items s s2.

(** What the standard lets [Array.prototype.sort] do with any comparator:
    it makes an implementation-defined sequence of calls of the comparator
    on elements of the array and does nothing else to the world; it ends
    abruptly as soon as a call does; otherwise the elements come back in
    some order. *)
Definition sort_allowed {A St : Type} (cmp : comparator_of A St)
  (items : list A) (s : St) (r : outcome (list A) * St) : Prop :=
  match r with
  | (Return sorted, s') => Permutation items sorted /\ calls cmp items s s'
  | (Throw e, s') =>
      exists a b s0, In a items /\ In b items /\ calls cmp items s s0
                     /\ cmp a b s0 = (Throw e, s')
  | (Exit c, s') =>
      exists a b s0, In a items /\ In b items /\ calls cmp items s s0
                     /\ cmp a b s0 = (Exit c, s')
  end.

(** The order the standard fixes when the comparator compares by a key:
    ascending keys, elements of equal key in the order they had (the sort
    is stable). *)
Fixpoint insert_by_key {A : Type} (key : A -> Z) (x : A) (sorted : list A)
  : list A :=
  match sorted with
  | [] => [x]
  | y :: ys => if (key y <? key x)%Z then y :: insert_by_key key x ys
               else x :: y :: ys
  end.

Fixpoint sort_by_key {A : Type} (key : A -> Z) (l : list A) : list A :=
  match l with
  | [] => []
  | x :: rest => insert_by_key key x (sort_by_key key rest)
  end.

(** What the JavaScript engine and Node decide and the program only uses:
    IEEE-754 numbers and their conversions, the implementation-defined part
    of [Date.parse], the locale rendering of dates, the wording of engine
    error messages, [path.join], and the algorithm of
    [Array.prototype.sort], of which the standard fixes only what the last
    two fields say: what a sort may do whatever the comparator, and the
    result when the comparator is consistent (here: compares by a key and
    has no effect). *)
Class Runtime : Type := {
  number : Type;
  (** the Number denoted by a JSON number token *)
  Number_parse : jsstring -> number;
  (** [n === 0] (a parsed Number is never NaN) *)
  Number_isZero : number -> bool;
  Number_isFinite : number -> bool;
  (** [Number::toString] *)
  Number_toString : number -> jsstring;
  (** [TimeClip]: the time value of [new Date (n)], [None] for NaN *)
  Number_timeClip : number -> option Z;
  (** [Date.parse] on strings outside the format of [toISOString] *)
  Date_parse_other : jsstring -> option Z;
  (** [Date.prototype.toLocaleString] of a valid date *)
  Date_toLocaleString : Z -> jsstring;
  TypeError_message : type_error -> jsstring;
  (** the message of the [SyntaxError] that [JSON.parse] throws on a text *)
  SyntaxError_message : jsstring -> jsstring;
  path_join : jsstring -> jsstring -> jsstring;
  (** [Array.prototype.sort (comparator)] *)
  sort_engine :
    forall A St : Type,
      comparator_of A St -> list A -> St -> outcome (list A) * St;
  sort_engine_allowed :
    forall (A St : Type) (cmp : comparator_of A St) items s,
      sort_allowed cmp items s (sort_engine cmp items s);
  sort_engine_consistent :
    forall (A St : Type) (cmp : comparator_of A St) (key : A -> Z) items s,
      (forall a b s0, In a items -> In b items ->
                      cmp a b s0 = (Return (Some (key a - key b)%Z), s0)) ->
      sort_engine cmp items s = (Return (sort_by_key key items), s)
}.
Arguments sort_engine {Runtime} {A St} cmp items s.

(** [error instanceof SyntaxError]. *)
Definition is_SyntaxError (e : js_error) : bool :=
  match e with
  | SyntaxError _ => true
  | _ => false
  end.

(** A pure computation that may throw. *)
Inductive result (A : Type) : Type :=
| Ok (a : A)
| Raise (e : js_error).
Arguments Ok {A} a.
Arguments Raise {A} e.

Fixpoint join_results (sep : jsstring) (parts : list (result jsstring))
  : result jsstring :=
  match parts with
  | [] => Ok []
  | p :: rest =>
      match p with
      | Raise e => Raise e
      | Ok a =>
          match rest with
          | [] => Ok a
          | _ :: _ =>
              match join_results sep rest with
              | Ok b => Ok (a ++ sep ++ b)
              | Raise e => Raise e
              end
          end
      end
  end.

(* ===================================================================== *)
(** ** Values *)
(* ===================================================================== *)

Section Values.
Context {R : Runtime}.

(** The values reachable from [JSON.parse].  Property lists are kept in
    enumeration order.  An array carries, beside its elements, the named
    properties assigned to it ([note.id = ...] on an array element). *)
#[warnings="-register-all"]
Inductive value : Type :=
| VNull
| VBool (b : bool)
| VNum (n : number)
| VStr (s : jsstring)
| VArr (elems : list value) (named : list (jsstring * value))
| VObj (props : list (jsstring * value)).

(** [undefined] is the absence of a value. *)
Definition jsval := option value.

Fixpoint lookup (k : jsstring) (props : list (jsstring * value)) : option value :=
  match props with
  | [] => None
  | (k', v) :: rest => if jsstring_eqb k k' then Some v else lookup k rest
  end.

Definition has_key (k : jsstring) (props : list (jsstring * value)) : bool :=
  match lookup k props with Some _ => true | None => false end.

Fixpoint replace_value (k : jsstring) (v : value) (props : list (jsstring * value))
  : list (jsstring * value) :=
  match props with
  | [] => []
  | (k', v') :: rest =>
      if jsstring_eqb k k' then (k', v) :: rest
      else (k', v') :: replace_value k v rest
  end.

(** An array index is a canonical numeric string below [2^32 - 1]; such keys
    are enumerated first, in ascending order. *)
Definition array_index_of (k : jsstring) : option N :=
  match k with
  | [] => None
  | c :: rest =>
      if forallb is_digit k
         && (negb (N.eqb c ZERO) || match rest with [] => true | _ => false end)
         && (length k <=? 10)
      then let n := digits_value k in
           if (n <? 4294967295)%N then Some n else None
      else None
  end.

Fixpoint insert_index (i : N) (k : jsstring) (v : value)
  (props : list (jsstring * value)) : list (jsstring * value) :=
  match props with
  | [] => [(k, v)]
  | (k', v') :: rest =>
      match array_index_of k' with
      | Some j => if (j <? i)%N then (k', v') :: insert_index i k v rest
                  else (k, v) :: props
      | None => (k, v) :: props
      end
  end.

(** [CreateDataProperty] / [Set] on an ordinary object. *)
Definition obj_set (k : jsstring) (v : value) (props : list (jsstring * value))
  : list (jsstring * value) :=
  if has_key k props then replace_value k v props
  else match array_index_of k with
       | Some i => insert_index i k v props
       | None => props ++ [(k, v)]
       end.

(** [ToBoolean]. *)
Definition truthy (v : jsval) : bool :=
  match v with
  | None => false
  | Some VNull => false
  | Some (VBool b) => b
  | Some (VNum n) => negb (Number_isZero n)
  | Some (VStr s) => match s with [] => false | _ => true end
  | Some (VArr _ _) => true
  | Some (VObj _) => true
  end.

(** [error.message]. *)
Definition error_message (e : js_error) : jsstring :=
  match e with
  | SyntaxError m => m
  | TypeError t => TypeError_message t
  | SystemError m => m
  end.

(** [ToString], that is [ToPrimitive] with the inherited [toString]:
    [Array.prototype.toString] joins the elements, printing [null] as the
    empty string; [Object.prototype.toString] gives [[object Object]].  A
    parsed object with an own property [toString] (never callable) has no
    primitive value: the conversion throws. *)
Fixpoint ToString (v : value) : result jsstring :=
  match v with
  | VNull => Ok (str "null")
  | VBool true => Ok (str "true")
  | VBool false => Ok (str "false")
  | VNum n => Ok (Number_toString n)
  | VStr s => Ok s
  | VArr elems _ =>
      join_results [COMMA]
        (map (fun e => match e with VNull => Ok [] | _ => ToString e end) elems)
  | VObj props =>
      if has_key (str "toString") props then Raise (TypeError NotPrimitive)
      else Ok (str "[object Object]")
  end.

(** [v.k] for one of the names the program reads ([created_at], [id],
    [title], [description]): none of them is an index, [length] or a
    property of a built-in prototype, so a primitive and a fresh array have
    none; reading a property of [null] throws. *)
Definition get_prop (v : value) (k : jsstring) : result jsval :=
  match v with
  | VNull => Raise (TypeError (ReadOfNull k))
  | VBool _ | VNum _ | VStr _ => Ok None
  | VArr _ named => Ok (lookup k named)
  | VObj props => Ok (lookup k props)
  end.

(** [v.k = x] in sloppy mode, for the names [created_at] and [id]: an
    assignment to a property of a primitive is silently dropped. *)
Definition set_prop (v : value) (k : jsstring) (x : value) : value :=
  match v with
  | VNull | VBool _ | VNum _ | VStr _ => v
  | VArr elems named => VArr elems (obj_set k x named)
  | VObj props => VObj (obj_set k x props)
  end.

(** [a === s] for a string [s]. *)
Definition strict_equal_string (a : jsval) (s : jsstring) : bool :=
  match a with
  | Some (VStr t) => jsstring_eqb t s
  | _ => false
  end.

End Values.

(* ===================================================================== *)
(** ** [JSON.stringify] *)
(* ===================================================================== *)

Section Json.
Context {R : Runtime}.

Definition hex_digit (n : N) : N :=
  if (n <? 10)%N then (48 + n)%N else (87 + n)%N.

(** [UnicodeEscape]: a backslash, [u] and four lower-case hex digits. *)
Definition unicode_escape (c : N) : jsstring :=
  [BACKSLASH; 117%N;
   hex_digit ((c / 4096) mod 16); hex_digit ((c / 256) mod 16);
   hex_digit ((c / 16) mod 16); hex_digit (c mod 16)].

(** One code unit that is not a surrogate. *)
Definition quote_unit (c : N) : jsstring :=
  if (c =? 8)%N then [BACKSLASH; 98%N]
  else if (c =? 9)%N then [BACKSLASH; 116%N]
  else if (c =? 10)%N then [BACKSLASH; 110%N]
  else if (c =? 12)%N then [BACKSLASH; 102%N]
  else if (c =? 13)%N then [BACKSLASH; 114%N]
  else if (c =? DQUOTE)%N then [BACKSLASH; DQUOTE]
  else if (c =? BACKSLASH)%N then [BACKSLASH; BACKSLASH]
  else if (c <? 32)%N then unicode_escape c
  else [c].

(** The body of [QuoteJSONString]: a surrogate pair is copied, a lone
    surrogate is escaped. *)
Fixpoint quote_body (s : jsstring) : jsstring :=
  match s with
  | [] => []
  | c :: rest =>
      if is_lead_surrogate c then
        match rest with
        | d :: rest' =>
            if is_trail_surrogate d then c :: d :: quote_body rest'
            else unicode_escape c ++ quote_body rest
        | [] => unicode_escape c
        end
      else if is_trail_surrogate c then unicode_escape c ++ quote_body rest
      else quote_unit c ++ quote_body rest
  end.

Definition QuoteJSONString (s : jsstring) : jsstring :=
  DQUOTE :: quote_body s ++ [DQUOTE].

(** [SerializeJSONProperty] with its [gap] and current [indent].  No value
    built by [JSON.parse] is [undefined], callable or has [toJSON]; the
    named properties of an array are not serialized. *)
Fixpoint serialize (gap indent : jsstring) (v : value) : jsstring :=
  match v with
  | VNull => str "null"
  | VBool true => str "true"
  | VBool false => str "false"
  | VNum n => if Number_isFinite n then Number_toString n else str "null"
  | VStr s => QuoteJSONString s
  | VArr elems _ =>
      let stepback := indent in
      let indent := indent ++ gap in
      let partial := map (serialize gap indent) elems in
      match partial with
      | [] => str "[]"
      | _ =>
          match gap with
          | [] => [LBRACKET] ++ join [COMMA] partial ++ [RBRACKET]
          | _ =>
              [LBRACKET] ++ (NEWLINE :: indent)
              ++ join (COMMA :: NEWLINE :: indent) partial
              ++ (NEWLINE :: stepback) ++ [RBRACKET]
          end
      end
  | VObj props =>
      let stepback := indent in
      let indent := indent ++ gap in
      let partial :=
        map (fun kv =>
               QuoteJSONString (fst kv) ++ [COLON]
               ++ match gap with [] => [] | _ => [SPACE] end
               ++ serialize gap indent (snd kv)) props in
      match partial with
      | [] => str "{}"
      | _ =>
          match gap with
          | [] => [LBRACE] ++ join [COMMA] partial ++ [RBRACE]
          | _ =>
              [LBRACE] ++ (NEWLINE :: indent)
              ++ join (COMMA :: NEWLINE :: indent) partial
              ++ (NEWLINE :: stepback) ++ [RBRACE]
          end
      end
  end.

(** [JSON.stringify (v, null, space)] for a numeric [space]. *)
Definition JSON_stringify (v : value) (space : nat) : jsstring :=
  serialize (repeat_str [SPACE] (Nat.min 10 space)) [] v.

(* ===================================================================== *)
(** ** [JSON.parse] *)
(* ===================================================================== *)

Definition is_ws (c : N) : bool :=
  (c =? 32)%N || (c =? 9)%N || (c =? 10)%N || (c =? 13)%N.

Fixpoint skip_ws (s : jsstring) : jsstring :=
  match s with
  | c :: rest => if is_ws c then skip_ws rest else s
  | [] => []
  end.

Definition hex_value (c : N) : option N :=
  if is_digit c then Some (c - 48)%N
  else if (97 <=? c)%N && (c <=? 102)%N then Some (c - 87)%N
  else if (65 <=? c)%N && (c <=? 70)%N then Some (c - 55)%N
  else None.

Definition simple_escape (e : N) : option N :=
  if (e =? DQUOTE)%N then Some DQUOTE
  else if (e =? BACKSLASH)%N then Some BACKSLASH
  else if (e =? SLASH)%N then Some SLASH
  else if (e =? 98)%N then Some 8%N
  else if (e =? 102)%N then Some 12%N
  else if (e =? 110)%N then Some 10%N
  else if (e =? 114)%N then Some 13%N
  else if (e =? 116)%N then Some 9%N
  else None.

(** The characters of a string literal after its opening quote, up to and
    including the closing quote. *)
Fixpoint parse_chars (s : jsstring) : option (jsstring * jsstring) :=
  match s with
  | [] => None
  | c :: rest =>
      if (c =? DQUOTE)%N then Some ([], rest)
      else if (c =? BACKSLASH)%N then
        match rest with
        | [] => None
        | e :: rest1 =>
            if (e =? 117)%N then
              match rest1 with
              | h1 :: h2 :: h3 :: h4 :: rest2 =>
                  match hex_value h1, hex_value h2, hex_value h3, hex_value h4 with
                  | Some a, Some b, Some c', Some d =>
                      match parse_chars rest2 with
                      | Some (t, r) =>
                          Some ((4096 * a + 256 * b + 16 * c' + d)%N :: t, r)
                      | None => None
                      end
                  | _, _, _, _ => None
                  end
              | _ => None
              end
            else
              match simple_escape e with
              | Some x =>
                  match parse_chars rest1 with
                  | Some (t, r) => Some (x :: t, r)
                  | None => None
                  end
              | None => None
              end
        end
      else if (c <? 32)%N then None
      else
        match parse_chars rest with
        | Some (t, r) => Some (c :: t, r)
        | None => None
        end
  end.

(** Longest prefix of digits. *)
Fixpoint span_digits (s : jsstring) : jsstring * jsstring :=
  match s with
  | c :: rest =>
      if is_digit c then let (ds, r) := span_digits rest in (c :: ds, r)
      else ([], s)
  | [] => ([], [])
  end.

(** The JSON number token at the head of [s]: an optional minus sign; an
    integer part that is a single zero or starts with a non-zero digit; an
    optional fraction (a dot and one or more digits); an optional exponent
    (e or E, an optional sign, one or more digits). *)
Definition scan_int (s : jsstring) : option (jsstring * jsstring) :=
  match s with
  | c :: rest =>
      if (c =? ZERO)%N then Some ([c], rest)
      else if is_digit c then let (ds, r) := span_digits rest in Some (c :: ds, r)
      else None
  | [] => None
  end.

Definition scan_frac (s : jsstring) : option (jsstring * jsstring) :=
  match s with
  | c :: rest =>
      if (c =? DOT)%N then
        match span_digits rest with
        | ([], _) => None
        | (ds, r) => Some (c :: ds, r)
        end
      else Some ([], s)
  | [] => Some ([], [])
  end.

Definition scan_exp (s : jsstring) : option (jsstring * jsstring) :=
  match s with
  | c :: rest =>
      if (c =? 101)%N || (c =? 69)%N then
        let (sign, rest1) :=
          match rest with
          | d :: rest' =>
              if (d =? PLUS)%N || (d =? MINUS)%N then ([d], rest') else ([], rest)
          | [] => ([], rest)
          end in
        match span_digits rest1 with
        | ([], _) => None
        | (ds, r) => Some (c :: sign ++ ds, r)
        end
      else Some ([], s)
  | [] => Some ([], [])
  end.

Definition scan_number (s : jsstring) : option (jsstring * jsstring) :=
  let (sign, s1) :=
    match s with
    | c :: rest => if (c =? MINUS)%N then ([c], rest) else ([], s)
    | [] => ([], s)
    end in
  match scan_int s1 with
  | Some (i, s2) =>
      match scan_frac s2 with
      | Some (f, s3) =>
          match scan_exp s3 with
          | Some (e, s4) => Some (sign ++ i ++ f ++ e, s4)
          | None => None
          end
      | None => None
      end
  | None => None
  end.

(** [s] starts with [lit]: the rest after it. *)
Fixpoint strip_prefix (lit s : jsstring) : option jsstring :=
  match lit, s with
  | [], _ => Some s
  | a :: lit', b :: s' => if (a =? b)%N then strip_prefix lit' s' else None
  | _ :: _, [] => None
  end.

(** An object literal defines its members in source order: a repeated key
    keeps its first position and takes the last value. *)
Definition build_object (members : list (jsstring * value)) : value :=
  VObj (fold_left (fun acc kv => obj_set (fst kv) (snd kv) acc) members []).

(** Recursive descent over the JSON grammar.  [fuel] bounds the number of
    nested calls; [JSON_parse] supplies more than any text can use. *)
Fixpoint parse_value (fuel : nat) (s : jsstring) : option (value * jsstring) :=
  match fuel with
  | O => None
  | S f =>
      match skip_ws s with
      | [] => None
      | c :: rest =>
          if (c =? DQUOTE)%N then
            match parse_chars rest with
            | Some (t, r) => Some (VStr t, r)
            | None => None
            end
          else if (c =? LBRACKET)%N then
            match skip_ws rest with
            | [] => None
            | c' :: rest' =>
                if (c' =? RBRACKET)%N then Some (VArr [] [], rest')
                else
                  match parse_elements f rest with
                  | Some (vs, r) => Some (VArr vs [], r)
                  | None => None
                  end
            end
          else if (c =? LBRACE)%N then
            match skip_ws rest with
            | [] => None
            | c' :: rest' =>
                if (c' =? RBRACE)%N then Some (VObj [], rest')
                else
                  match parse_members f rest with
                  | Some (ms, r) => Some (build_object ms, r)
                  | None => None
                  end
            end
          else if (c =? 110)%N then
            match strip_prefix (str "null") (c :: rest) with
            | Some r => Some (VNull, r)
            | None => None
            end
          else if (c =? 116)%N then
            match strip_prefix (str "true") (c :: rest) with
            | Some r => Some (VBool true, r)
            | None => None
            end
          else if (c =? 102)%N then
            match strip_prefix (str "false") (c :: rest) with
            | Some r => Some (VBool false, r)
            | None => None
            end
          else
            match scan_number (c :: rest) with
            | Some (tok, r) => Some (VNum (Number_parse tok), r)
            | None => None
            end
      end
  end

with parse_elements (fuel : nat) (s : jsstring)
  : option (list value * jsstring) :=
  match fuel with
  | O => None
  | S f =>
      match parse_value f s with
      | Some (v, r) =>
          match skip_ws r with
          | [] => None
          | c :: r' =>
              if (c =? COMMA)%N then
                match parse_elements f r' with
                | Some (vs, r'') => Some (v :: vs, r'')
                | None => None
                end
              else if (c =? RBRACKET)%N then Some ([v], r')
              else None
          end
      | None => None
      end
  end

with parse_members (fuel : nat) (s : jsstring)
  : option (list (jsstring * value) * jsstring) :=
  match fuel with
  | O => None
  | S f =>
      match skip_ws s with
      | [] => None
      | q :: r0 =>
          if (q =? DQUOTE)%N then
            match parse_chars r0 with
            | Some (k, r1) =>
                match skip_ws r1 with
                | [] => None
                | c1 :: r2 =>
                    if (c1 =? COLON)%N then
                      match parse_value f r2 with
                      | Some (v, r3) =>
                          match skip_ws r3 with
                          | [] => None
                          | c3 :: r4 =>
                              if (c3 =? COMMA)%N then
                                match parse_members f r4 with
                                | Some (ms, r5) => Some ((k, v) :: ms, r5)
                                | None => None
                                end
                              else if (c3 =? RBRACE)%N then Some ([(k, v)], r4)
                              else None
                          end
                      | None => None
                      end
                    else None
                end
            | None => None
            end
          else None
      end
  end.

(** [JSON.parse text]: [None] stands for the [SyntaxError] it throws. *)
Definition JSON_parse (text : jsstring) : option value :=
  match parse_value (2 * length text + 1) text with
  | Some (v, r) => match skip_ws r with [] => Some v | _ :: _ => None end
  | None => None
  end.

End Json.

(* ===================================================================== *)
(** ** [Date] *)
(* ===================================================================== *)

Section Dates.
Context {R : Runtime}.

Local Open Scope Z_scope.

Definition msPerDay : Z := 86400000.

(** The largest time value: 100,000,000 days either side of the epoch. *)
Definition maxTime : Z := 8640000000000000.

Definition valid_time (t : Z) : Prop := - maxTime <= t <= maxTime.

(** The calendar repeats every 400 years, that is every 146097 days.
    Within such an era that starts on a first of March: the year of the
    era (0-399, years running from March to February), the month (1-12)
    and the day of the month of the day [doe] (0-146096) of the era. *)
Definition civil_of_era_day (doe : Z) : Z * Z * Z :=
  let yoe := (doe - doe / 1460 + doe / 36524 - doe / 146096) / 365 in
  let doy := doe - (365 * yoe + yoe / 4 - yoe / 100) in
  let mp := (5 * doy + 2) / 153 in
  let d := doy - (153 * mp + 2) / 5 + 1 in
  let m := if mp <? 10 then mp + 3 else mp - 9 in
  (yoe, m, d).

(** The day of the era of a date given by year of the era, month and day. *)
Definition era_day_of_civil (yoe m d : Z) : Z :=
  let doy := (153 * (if 2 <? m then m - 3 else m + 9) + 2) / 5 + d - 1 in
  yoe * 365 + yoe / 4 - yoe / 100 + doy.

(** Year, month (1-12) and day of month of a day number counted from
    1970-01-01, in the proleptic Gregorian calendar. *)
Definition civil_from_days (z : Z) : Z * Z * Z :=
  let z := z + 719468 in
  let era := z / 146097 in
  let doe := z - era * 146097 in
  let '(yoe, m, d) := civil_of_era_day doe in
  let y := yoe + era * 400 in
  (if m <=? 2 then y + 1 else y, m, d).

Definition days_from_civil (y m d : Z) : Z :=
  let y := if m <=? 2 then y - 1 else y in
  let era := y / 400 in
  let yoe := y - era * 400 in
  era * 146097 + era_day_of_civil yoe m d - 719468.

Definition is_leap (y : Z) : bool :=
  (y mod 4 =? 0) && (negb (y mod 100 =? 0) || (y mod 400 =? 0)).

Definition days_in_month (y m : Z) : Z :=
  if m =? 2 then (if is_leap y then 29 else 28)
  else if (m =? 4) || (m =? 6) || (m =? 9) || (m =? 11) then 30
  else 31.

Definition pad (width : nat) (n : Z) : jsstring := pad_digits width (Z.to_N n).

(** The year of [toISOString]: four digits from 0 to 9999, otherwise a sign
    and six digits. *)
Definition iso_year (y : Z) : jsstring :=
  if (0 <=? y) && (y <=? 9999) then pad 4 y
  else if y <? 0 then MINUS :: pad 6 (- y)
  else PLUS :: pad 6 y.

(** [Date.prototype.toISOString] of a valid time value. *)
Definition Date_toISOString (t : Z) : jsstring :=
  let day := t / msPerDay in
  let ms := t mod msPerDay in
  let '(y, m, d) := civil_from_days day in
  iso_year y ++ [MINUS] ++ pad 2 m ++ [MINUS] ++ pad 2 d ++ [84%N]
  ++ pad 2 (ms / 3600000) ++ [COLON] ++ pad 2 (ms / 60000 mod 60) ++ [COLON]
  ++ pad 2 (ms / 1000 mod 60) ++ [DOT] ++ pad 3 (ms mod 1000) ++ [90%N].

(** Exactly [n] digits at the head of [s]. *)
Fixpoint read_digits (n : nat) (s : jsstring) (acc : Z) : option (Z * jsstring) :=
  match n with
  | O => Some (acc, s)
  | S k =>
      match s with
      | c :: rest =>
          if is_digit c then read_digits k rest (10 * acc + (Z.of_N c - 48))
          else None
      | [] => None
      end
  end.

Definition expect (c : N) (s : jsstring) : option jsstring :=
  match s with
  | x :: rest => if (x =? c)%N then Some rest else None
  | [] => None
  end.

Definition read_year (s : jsstring) : option (Z * jsstring) :=
  match s with
  | c :: rest =>
      if (c =? PLUS)%N then read_digits 6 rest 0
      else if (c =? MINUS)%N then
        match read_digits 6 rest 0 with
        | Some (y, r) => if y =? 0 then None else Some (- y, r)
        | None => None
        end
      else read_digits 4 s 0
  | [] => None
  end.

(** The UTC date-time form [YYYY-MM-DDTHH:mm:ss.sssZ] of the Date Time
    String Format, with every field in range: its time value. *)
Definition parse_iso (s : jsstring) : option Z :=
  match read_year s with
  | None => None
  | Some (y, s) =>
  match expect MINUS s with None => None | Some s =>
  match read_digits 2 s 0 with None => None | Some (m, s) =>
  match expect MINUS s with None => None | Some s =>
  match read_digits 2 s 0 with None => None | Some (d, s) =>
  match expect 84%N s with None => None | Some s =>
  match read_digits 2 s 0 with None => None | Some (h, s) =>
  match expect COLON s with None => None | Some s =>
  match read_digits 2 s 0 with None => None | Some (mi, s) =>
  match expect COLON s with None => None | Some s =>
  match read_digits 2 s 0 with None => None | Some (sec, s) =>
  match expect DOT s with None => None | Some s =>
  match read_digits 3 s 0 with None => None | Some (ms, s) =>
  match s with
  | [90%N] =>
      if (1 <=? m) && (m <=? 12) && (1 <=? d) && (d <=? days_in_month y m)
         && (h <=? 23) && (mi <=? 59) && (sec <=? 59)
      then
        let t := days_from_civil y m d * msPerDay
                 + h * 3600000 + mi * 60000 + sec * 1000 + ms in
        if (- maxTime <=? t) && (t <=? maxTime) then Some t else None
      else None
  | _ => None
  end end end end end end end end end end end end end
  end.

(** [Date.parse]: [None] is NaN. *)
Definition Date_parse (s : jsstring) : option Z :=
  match parse_iso s with
  | Some t => Some t
  | None => Date_parse_other s
  end.

(** The time value of [new Date (v)]: a string is parsed, any other
    primitive is converted to a number, an object is first converted to a
    primitive (a string, if the conversion does not throw). *)
Definition Date_new (v : jsval) : result (option Z) :=
  match v with
  | None => Ok None
  | Some VNull => Ok (Some 0)
  | Some (VBool b) => Ok (Some (if b then 1 else 0))
  | Some (VNum n) => Ok (Number_timeClip n)
  | Some (VStr s) => Ok (Date_parse s)
  | Some o =>
      match ToString o with
      | Ok s => Ok (Date_parse s)
      | Raise e => Raise e
      end
  end.

(** [Date.prototype.toLocaleString]. *)
Definition toLocaleString (t : option Z) : jsstring :=
  match t with
  | Some tv => Date_toLocaleString tv
  | None => str "Invalid Date"
  end.

End Dates.

(* ===================================================================== *)
(** ** [crypto.randomUUID] *)
(* ===================================================================== *)

Definition hex2 (b : N) : jsstring :=
  [hex_digit ((b / 16) mod 16); hex_digit (b mod 16)].

(** Byte [i] (0 is the first) of 128 random bits. *)
Definition random_byte (bits : N) (i : nat) : N :=
  (bits / 256 ^ N.of_nat (15 - i)) mod 256.

(** A version-4 UUID printed from 128 random bits: the version nibble and
    the variant bits are fixed, the other 122 bits are the random ones. *)
Definition uuid_of_bits (bits : N) : jsstring :=
  let b := random_byte bits in
  hex2 (b 0%nat) ++ hex2 (b 1%nat) ++ hex2 (b 2%nat) ++ hex2 (b 3%nat) ++ [MINUS]
  ++ hex2 (b 4%nat) ++ hex2 (b 5%nat) ++ [MINUS]
  ++ hex2 (64 + b 6%nat mod 16) ++ hex2 (b 7%nat) ++ [MINUS]
  ++ hex2 (128 + b 8%nat mod 64) ++ hex2 (b 9%nat) ++ [MINUS]
  ++ hex2 (b 10%nat) ++ hex2 (b 11%nat) ++ hex2 (b 12%nat)
  ++ hex2 (b 13%nat) ++ hex2 (b 14%nat) ++ hex2 (b 15%nat).

(* ===================================================================== *)
(** ** The process and its environment *)
(* ===================================================================== *)

(** The notes file as Node sees it.  A regular file is represented by the
    text a [utf8] read returns; the other kind exists, has a size, and
    fails to be read (a directory, a file without read permission). *)
Inductive file_node : Type :=
| Regular (content : jsstring)
| Unreadable (size : N) (error : jsstring).

Inductive channel : Type := Log | Warn | Error.

(** The two paths the program builds. *)
Inductive path : Type := NotesDirPath | NotesFilePath.

(** [notesDir] is [None] while [~/.my_notes] does not exist; otherwise it
    holds the state of [notes.json], [None] while that does not exist.
    [mkdirFailure] and [writeFailure] are the errors [mkdirSync] and
    [writeFileSync] would throw.  [clock] and [entropy] are the successive
    readings of the system clock (milliseconds since the epoch) and of the
    random source; [console] is what has been printed, oldest first. *)
Record World : Type := mkWorld {
  homedir : jsstring;
  notesDir : option (option file_node);
  mkdirFailure : option jsstring;
  writeFailure : option jsstring;
  clock : nat -> Z;
  clockReads : nat;
  entropy : nat -> N;
  entropyDraws : nat;
  console : list (channel * jsstring)
}.

Definition with_notesDir (d : option (option file_node)) (w : World) : World :=
  mkWorld (homedir w) d (mkdirFailure w) (writeFailure w)
          (clock w) (clockReads w) (entropy w) (entropyDraws w) (console w).

Definition with_console (c : list (channel * jsstring)) (w : World) : World :=
  mkWorld (homedir w) (notesDir w) (mkdirFailure w) (writeFailure w)
          (clock w) (clockReads w) (entropy w) (entropyDraws w) c.

Definition tick_clock (w : World) : World :=
  mkWorld (homedir w) (notesDir w) (mkdirFailure w) (writeFailure w)
          (clock w) (S (clockReads w)) (entropy w) (entropyDraws w) (console w).

Definition tick_entropy (w : World) : World :=
  mkWorld (homedir w) (notesDir w) (mkdirFailure w) (writeFailure w)
          (clock w) (clockReads w) (entropy w) (S (entropyDraws w)) (console w).

(** The notes file of a world. *)
Definition notesFile (w : World) : option file_node :=
  match notesDir w with
  | Some f => f
  | None => None
  end.

(** A computation of the program: from a world to how it ends and the
    world it leaves. *)
Definition M (A : Type) : Type := World -> outcome A * World.

Definition ret {A} (a : A) : M A := fun w => (Return a, w).

Definition bind {A B} (m : M A) (k : A -> M B) : M B :=
  fun w =>
    match m w with
    | (Return a, w') => k a w'
    | (Throw e, w') => (Throw e, w')
    | (Exit c, w') => (Exit c, w')
    end.

Definition throw {A} (e : js_error) : M A := fun w => (Throw e, w).

(** [process.exit (code)]. *)
Definition process_exit {A} (code : Z) : M A := fun w => (Exit code, w).

(** [try { m } catch (error) { handler error }]. *)
Definition try_catch {A} (m : M A) (handler : js_error -> M A) : M A :=
  fun w =>
    match m w with
    | (Throw e, w') => handler e w'
    | other => other
    end.

Definition lift {A} (r : result A) : M A :=
  match r with
  | Ok a => ret a
  | Raise e => throw e
  end.

Declare Scope js_scope.
Delimit Scope js_scope with js.
Notation "x <- m ;; k" := (bind m (fun x => k))
  (at level 61, m at next level, right associativity) : js_scope.
Notation "m ;;; k" := (bind m (fun _ => k))
  (at level 61, right associativity) : js_scope.

Fixpoint mapM {A B} (f : A -> M B) (l : list A) : M (list B) :=
  match l with
  | [] => ret []
  | x :: rest =>
      bind (f x) (fun y => bind (mapM f rest) (fun ys => ret (y :: ys)))
  end.

Fixpoint filterM {A} (f : A -> M bool) (l : list A) : M (list A) :=
  match l with
  | [] => ret []
  | x :: rest =>
      bind (f x) (fun keep =>
      bind (filterM f rest) (fun ys => ret (if keep then x :: ys else ys)))
  end.

Fixpoint forEachM {A} (f : A -> M unit) (l : list A) : M unit :=
  match l with
  | [] => ret tt
  | x :: rest => bind (f x) (fun _ => forEachM f rest)
  end.

(** [console.log], [console.warn], [console.error]. *)
Definition console_print (c : channel) (line : jsstring) : M unit :=
  fun w => (Return tt, with_console (console w ++ [(c, line)]) w).
Definition console_log := console_print Log.
Definition console_warn := console_print Warn.
Definition console_error := console_print Error.

(** What a [utf8] write followed by a [utf8] read does to a string: a lone
    surrogate comes back as U+FFFD. *)
Fixpoint toWellFormed (s : jsstring) : jsstring :=
  match s with
  | [] => []
  | c :: rest =>
      if is_lead_surrogate c then
        match rest with
        | d :: rest' =>
            if is_trail_surrogate d then c :: d :: toWellFormed rest'
            else 65533%N :: toWellFormed rest
        | [] => [65533%N]
        end
      else if is_trail_surrogate c then 65533%N :: toWellFormed rest
      else c :: toWellFormed rest
  end.

(** Length in bytes of the [utf8] encoding: four bytes for a surrogate
    pair, three for a lone surrogate (written as U+FFFD). *)
Fixpoint utf8_length (s : jsstring) : N :=
  match s with
  | [] => 0
  | c :: rest =>
      if is_lead_surrogate c then
        match rest with
        | d :: rest' =>
            if is_trail_surrogate d then (4 + utf8_length rest')%N
            else (3 + utf8_length rest)%N
        | [] => 3
        end
      else
        ((if (c <? 128)%N then 1 else if (c <? 2048)%N then 2 else 3)
         + utf8_length rest)%N
  end.

Section Program.
Context {R : Runtime}.
Local Open Scope js_scope.

(** [os.homedir ()]. *)
Definition os_homedir : M jsstring := fun w => (Return (homedir w), w).

Definition NOTES_DIR_NAME : jsstring := str ".my_notes".
Definition NOTES_FILE_NAME : jsstring := str "notes.json".

(** The text of a path. *)
Definition path_text (home : jsstring) (p : path) : jsstring :=
  match p with
  | NotesDirPath => path_join home NOTES_DIR_NAME
  | NotesFilePath => path_join (path_join home NOTES_DIR_NAME) NOTES_FILE_NAME
  end.

(** [fs.existsSync]. *)
Definition fs_existsSync (p : path) : M bool :=
  fun w =>
    (Return match p, notesDir w with
            | NotesDirPath, Some _ => true
            | NotesFilePath, Some (Some _) => true
            | _, _ => false
            end, w).

(** [fs.mkdirSync]. *)
Definition fs_mkdirSync (p : path) : M unit :=
  fun w =>
    match p, notesDir w, mkdirFailure w with
    | NotesDirPath, None, None => (Return tt, with_notesDir (Some None) w)
    | NotesDirPath, None, Some e => (Throw (SystemError e), w)
    | _, _, _ =>
        (Throw (SystemError
                  (str "EEXIST: file already exists, mkdir '"
                   ++ path_text (homedir w) p ++ str "'")), w)
    end.

(** [fs.statSync (p).size]. *)
Definition fs_statSync_size (p : path) : M N :=
  fun w =>
    match p, notesDir w with
    | NotesFilePath, Some (Some (Regular c)) => (Return (utf8_length c), w)
    | NotesFilePath, Some (Some (Unreadable n _)) => (Return n, w)
    | NotesDirPath, Some _ => (Return 4096%N, w)
    | _, _ =>
        (Throw (SystemError
                  (str "ENOENT: no such file or directory, stat '"
                   ++ path_text (homedir w) p ++ str "'")), w)
    end.

(** [fs.readFileSync (p, 'utf8')]. *)
Definition fs_readFileSync (p : path) : M jsstring :=
  fun w =>
    match p, notesDir w with
    | NotesFilePath, Some (Some (Regular c)) => (Return c, w)
    | NotesFilePath, Some (Some (Unreadable _ e)) => (Throw (SystemError e), w)
    | NotesDirPath, Some _ =>
        (Throw (SystemError
                  (str "EISDIR: illegal operation on a directory, read")), w)
    | _, _ =>
        (Throw (SystemError
                  (str "ENOENT: no such file or directory, open '"
                   ++ path_text (homedir w) p ++ str "'")), w)
    end.

(** [fs.writeFileSync (p, data, 'utf8')]: the file is replaced as a whole,
    or the call throws and leaves it as it was. *)
Definition fs_writeFileSync (p : path) (data : jsstring) : M unit :=
  fun w =>
    match p, notesDir w, writeFailure w with
    | NotesFilePath, Some _, None =>
        (Return tt, with_notesDir (Some (Some (Regular (toWellFormed data)))) w)
    | NotesFilePath, Some _, Some e => (Throw (SystemError e), w)
    | NotesFilePath, None, _ =>
        (Throw (SystemError
                  (str "ENOENT: no such file or directory, open '"
                   ++ path_text (homedir w) p ++ str "'")), w)
    | NotesDirPath, _, _ =>
        (Throw (SystemError
                  (str "EISDIR: illegal operation on a directory, open '"
                   ++ path_text (homedir w) p ++ str "'")), w)
    end.

(** [new Date ().toISOString ()]. *)
Definition Date_now_toISOString : M jsstring :=
  fun w => (Return (Date_toISOString (clock w (clockReads w))), tick_clock w).

(** [crypto.randomUUID ()]. *)
Definition crypto_randomUUID : M jsstring :=
  fun w => (Return (uuid_of_bits (entropy w (entropyDraws w))), tick_entropy w).

(** [JSON.parse] as a call that may throw. *)
Definition JSON_parse_M (text : jsstring) : M value :=
  match JSON_parse text with
  | Some v => ret v
  | None => throw (SyntaxError (SyntaxError_message text))
  end.

(** [notes.map (f)]: only an array has a callable [map]. *)
Definition call_map (notes : value) (f : value -> M value) : M (list value) :=
  match notes with
  | VArr elems _ => mapM f elems
  | VNull => throw (TypeError (ReadOfNull (str "map")))
  | _ => throw (TypeError (NotAFunction (str "notes.map")))
  end.

(* --------------------------------------------------------------------- *)
(** *** [cli.js] *)
(* --------------------------------------------------------------------- *)

Definition getNotesDir : M path :=
  homeDir <- os_homedir ;;
  let notesDir := NotesDirPath in
  present <- fs_existsSync notesDir ;;
  (if negb present then
     try_catch
       (fs_mkdirSync notesDir ;;;
        console_log (str "Created notes directory: " ++ path_text homeDir notesDir))
       (fun error =>
          console_error (str "Error creating notes directory: " ++ error_message error) ;;;
          process_exit 1)
   else ret tt) ;;;
  ret notesDir.

Definition getNotesFilePath : M path :=
  notesDir <- getNotesDir ;;
  ret (match notesDir with NotesDirPath => NotesFilePath | p => p end).

(** The callback of [notes.map] in [loadNotes]. *)
Definition ensure_fields (note : value) : M value :=
  created_at <- lift (get_prop note (str "created_at")) ;;
  note <- (if negb (truthy created_at) then
             now <- Date_now_toISOString ;;
             ret (set_prop note (str "created_at") (VStr now))
           else ret note) ;;
  id <- lift (get_prop note (str "id")) ;;
  note <- (if negb (truthy id) then
             uuid <- crypto_randomUUID ;;
             ret (set_prop note (str "id") (VStr (slice0 8 uuid)))
           else ret note) ;;
  ret note.

(** The [try] block of [loadNotes]. *)
Definition read_notes (notesFilePath : path) : M (list value) :=
  fileContent <- fs_readFileSync notesFilePath ;;
  notes <- JSON_parse_M fileContent ;;
  call_map notes ensure_fields.

(** The [catch] block of [loadNotes]. *)
Definition load_failed (error : js_error) : M (list value) :=
  (if is_SyntaxError error then
     console_warn (str "Warning: Notes file '" ++ NOTES_FILE_NAME
                   ++ str "' is corrupted. Starting with an empty list.")
   else
     console_error (str "An error occurred while loading notes: "
                    ++ error_message error)) ;;;
  ret [].

Definition loadNotes : M (list value) :=
  notesFilePath <- getNotesFilePath ;;
  present <- fs_existsSync notesFilePath ;;
  empty <- (if negb present then ret true
            else size <- fs_statSync_size notesFilePath ;; ret (size =? 0)%N) ;;
  if (empty : bool) then ret []
  else try_catch (read_notes notesFilePath) load_failed.

Definition saveNotes (notes : list value) : M unit :=
  notesFilePath <- getNotesFilePath ;;
  try_catch
    (fs_writeFileSync notesFilePath (JSON_stringify (VArr notes []) 4))
    (fun error =>
       console_error (str "An error occurred while saving notes: "
                      ++ error_message error)).

Definition createNote (title description : jsstring) : M unit :=
  notes <- loadNotes ;;
  uuid <- crypto_randomUUID ;;
  now <- Date_now_toISOString ;;
  let newNote :=
    VObj [ (str "id", VStr (slice0 8 uuid));
           (str "title", VStr title);
           (str "description", VStr description);
           (str "created_at", VStr now) ] in
  let notes := notes ++ [newNote] in
  saveNotes notes ;;;
  newId <- lift (get_prop newNote (str "id")) ;;
  idText <- lift (match newId with Some v => ToString v | None => Ok (str "undefined") end) ;;
  console_log (str "Note '" ++ title ++ str "' (ID: " ++ idText
               ++ str ") created successfully.").

(** [Array.prototype.sort (comparator)]: the sort of the engine. *)
Definition Array_sort (comparator : value -> value -> M (option Z))
  (l : list value) : M (list value) :=
  sort_engine comparator l.

(** [dateB.getTime () - dateA.getTime ()]: NaN when either date is
    invalid.  Time values are integers, so the sign of the difference of
    two of them is exact. *)
Definition time_difference (dateB dateA : option Z) : option Z :=
  match dateB, dateA with
  | Some tb, Some ta => Some (tb - ta)%Z
  | _, _ => None
  end.

(** The comparator of [listNotes]. *)
Definition compare_created_at (a b : value) : M (option Z) :=
  try_catch
    (a_created <- lift (get_prop a (str "created_at")) ;;
     dateA <- lift (Date_new a_created) ;;
     b_created <- lift (get_prop b (str "created_at")) ;;
     dateB <- lift (Date_new b_created) ;;
     ret (time_difference dateB dateA))
    (fun e =>
       console_warn (str "Warning: Some notes might have invalid 'created_at' dates. Sorting might be inconsistent.") ;;;
       ret (Some 0%Z)).

(** [x || 'default']. *)
Definition or_default (x : jsval) (default : jsstring) : value :=
  match x with
  | Some v => if truthy x then v else VStr default
  | None => VStr default
  end.

(** The callback of [notes.forEach] in [listNotes]. *)
Definition print_note (note : value) : M unit :=
  id <- lift (get_prop note (str "id")) ;;
  let noteId := or_default id (str "N/A") in
  t <- lift (get_prop note (str "title")) ;;
  let title := or_default t (str "No Title") in
  d <- lift (get_prop note (str "description")) ;;
  let description := or_default d (str "No Description") in
  c <- lift (get_prop note (str "created_at")) ;;
  let createdAtStr := or_default c (str "N/A") in
  formattedDate <-
    try_catch
      (createdDt <- lift (Date_new (Some createdAtStr)) ;;
       ret (VStr (toLocaleString createdDt)))
      (fun e => ret createdAtStr) ;;
  idText <- lift (ToString noteId) ;;
  console_log (str "ID: " ++ idText) ;;;
  titleText <- lift (ToString title) ;;
  console_log (str "Title: " ++ titleText) ;;;
  descriptionText <- lift (ToString description) ;;
  console_log (str "Description: " ++ descriptionText) ;;;
  dateText <- lift (ToString formattedDate) ;;
  console_log (str "Created: " ++ dateText) ;;;
  console_log (repeat_str (str "-") 20).

Definition listNotes : M unit :=
  notes <- loadNotes ;;
  if (length notes =? 0)%nat then console_log (str "No notes found.")
  else
    notes <- Array_sort compare_created_at notes ;;
    console_log (NEWLINE :: str "--- Your Notes ---") ;;;
    forEachM print_note notes ;;;
    console_log (str "------------------" ++ [NEWLINE]).

Definition deleteNote (noteId : jsstring) : M unit :=
  notes <- loadNotes ;;
  let initialNoteCount := length notes in
  notes <- filterM (fun note =>
                      id <- lift (get_prop note (str "id")) ;;
                      ret (negb (strict_equal_string id noteId))) notes ;;
  if (length notes <? initialNoteCount)%nat then
    saveNotes notes ;;;
    console_log (str "Note with ID '" ++ noteId ++ str "' deleted successfully.")
  else
    console_log (str "No note found with ID '" ++ noteId ++ str "'.").

(** [args.indexOf (x)]. *)
Fixpoint indexOf (x : jsstring) (args : list jsstring) : option nat :=
  match args with
  | [] => None
  | a :: rest =>
      if jsstring_eqb a x then Some O
      else match indexOf x rest with Some i => Some (S i) | None => None end
  end.

Definition usage_create : jsstring :=
  str "Error: 'create' command requires a title. Usage: notes create "
  ++ [DQUOTE] ++ str "Your Title" ++ [DQUOTE] ++ str " [--desc "
  ++ [DQUOTE] ++ str "Your description" ++ [DQUOTE] ++ str "]".

Definition help_create : jsstring :=
  str "  create " ++ [DQUOTE] ++ str "Your Title" ++ [DQUOTE] ++ str " [--desc "
  ++ [DQUOTE] ++ str "Your description" ++ [DQUOTE]
  ++ str "] - Create a new note.".

Definition print_help : M unit :=
  console_log (str "Welcome to the Node.js Note-Taking Tool!") ;;;
  console_log (NEWLINE :: str "Available commands:") ;;;
  console_log help_create ;;;
  console_log (str "  list                                                     - List all notes.") ;;;
  console_log (str "  delete <note_id>                                       - Delete a note by its ID.").

(** [main], on [args = process.argv.slice (2)]. *)
Definition main (args : list jsstring) : M unit :=
  let command := nth_error args 0 in
  match command with
  | None => print_help
  | Some command =>
      if jsstring_eqb command (str "create") then
        let title := nth_error args 1 in
        let descIndex := indexOf (str "--desc") args in
        let description :=
          match descIndex with
          | Some i =>
              match nth_error args (i + 1) with
              | Some (c :: d) => c :: d
              | _ => []
              end
          | None => []
          end in
        match title with
        | Some (c :: t) => createNote (c :: t) description
        | _ => console_error usage_create ;;; process_exit 1
        end
      else if jsstring_eqb command (str "list") then listNotes
      else if jsstring_eqb command (str "delete") then
        let idToDelete := nth_error args 1 in
        match idToDelete with
        | Some (c :: t) => deleteNote (c :: t)
        | _ =>
            console_error (str "Error: 'delete' command requires a note ID. Usage: notes delete <note_id>") ;;;
            process_exit 1
        end
      else print_help
  end.

(** The exit status of the process that ran [m]: 0 when the program ran to
    its end, 1 for an uncaught error, the argument of [process.exit]
    otherwise. *)
Definition exit_status {A} (o : outcome A) : Z :=
  match o with
  | Return _ => 0%Z
  | Throw _ => 1%Z
  | Exit c => c
  end.

End Program.

(* ===================================================================== *)
(** ** Notions used to state the properties *)
(* ===================================================================== *)

Section Notions.
Context {R : Runtime}.

(** The notes directory exists or can be created. *)
Definition ready (w : World) : Prop :=
  notesDir w = None -> mkdirFailure w = None.

(** The world once [getNotesDir] has returned: the directory is there, and
    its creation has been announced if it was not. *)
Definition opened (w : World) : World :=
  match notesDir w with
  | Some _ => w
  | None =>
      with_console
        (console w ++ [(Log, str "Created notes directory: "
                             ++ path_text (homedir w) NotesDirPath)])
        (with_notesDir (Some None) w)
  end.

(** One more line on the console. *)
Definition printed (c : channel) (line : jsstring) (w : World) : World :=
  with_console (console w ++ [(c, line)]) w.

(** [note.id === noteId], [false] where the read of [id] would throw. *)
Definition has_id (noteId : jsstring) (note : value) : bool :=
  match get_prop note (str "id") with
  | Ok id => strict_equal_string id noteId
  | Raise _ => false
  end.

(** The time value of [new Date (note.created_at)], [None] when it is NaN
    or when building the date throws. *)
Definition created_time (note : value) : option Z :=
  match get_prop note (str "created_at") with
  | Ok c => match Date_new c with Ok t => t | Raise _ => None end
  | Raise _ => None
  end.

(** Building the date of a note does not throw: the note is not [null] and
    its [created_at] converts to a primitive. *)
Definition datable (note : value) : Prop :=
  exists c d, get_prop note (str "created_at") = Ok c /\ Date_new c = Ok d.

(** The number the comparator of [listNotes] returns when nothing throws. *)
Definition compare_times (a b : value) : option Z :=
  time_difference (created_time b) (created_time a).

(** The key by which [listNotes] sorts when every date is valid: the later
    the date, the smaller the key. *)
Definition recency (note : value) : Z :=
  match created_time note with
  | Some t => (- t)%Z
  | None => 0%Z
  end.

(** What [listNotes] prints for a non-empty sequence already in display
    order. *)
Definition display (notes : list value) : M unit :=
  bind (console_log (NEWLINE :: str "--- Your Notes ---")) (fun _ =>
  bind (forEachM print_note notes) (fun _ =>
  console_log (str "------------------" ++ [NEWLINE]))).

(** Values for which the text written by [saveNotes] reads back as the
    same value whatever the engine: no number (its printing is the
    engine's), arrays without named properties, objects whose keys are
    distinct and none of them an array index (so that they are enumerated
    in the order of the text). *)
#[warnings="-register-all"]
Inductive plain : value -> Prop :=
| plain_null : plain VNull
| plain_bool b : plain (VBool b)
| plain_str s : plain (VStr s)
| plain_arr elems : Forall plain elems -> plain (VArr elems [])
| plain_obj props :
    Forall (fun kv => plain (snd kv)) props ->
    NoDup (map fst props) ->
    Forall (fun kv => array_index_of (fst kv) = None) props ->
    plain (VObj props).

(** Strings without a lone surrogate: the ones a [utf8] file holds
    exactly. *)
Inductive well_formed : jsstring -> Prop :=
| wf_nil : well_formed []
| wf_unit c s :
    is_lead_surrogate c = false -> is_trail_surrogate c = false ->
    well_formed s -> well_formed (c :: s)
| wf_pair c d s :
    is_lead_surrogate c = true -> is_trail_surrogate d = true ->
    well_formed s -> well_formed (c :: d :: s).

(** Values whose text does not depend on how the engine prints numbers. *)
#[warnings="-register-all"]
Inductive number_free : value -> Prop :=
| nf_null : number_free VNull
| nf_bool b : number_free (VBool b)
| nf_str s : number_free (VStr s)
| nf_arr elems named : Forall number_free elems -> number_free (VArr elems named)
| nf_obj props :
    Forall (fun kv => number_free (snd kv)) props -> number_free (VObj props).

(** An object whose values are the given strings, key by key. *)
Definition record_of (fields : list (jsstring * jsstring)) : value :=
  VObj (map (fun kv => (fst kv, VStr (snd kv))) fields).

(** The layout of the notes file in the words of the specification: a JSON
    array, one object per note, pretty-printed with an indentation of four
    spaces per level, the keys of a note in the order of its fields. *)
Definition pretty_field (kv : jsstring * jsstring) : jsstring :=
  repeat_str [SPACE] 8 ++ QuoteJSONString (fst kv) ++ [COLON; SPACE]
  ++ QuoteJSONString (snd kv).

Definition pretty_note (fields : list (jsstring * jsstring)) : jsstring :=
  repeat_str [SPACE] 4 ++ [LBRACE; NEWLINE]
  ++ join [COMMA; NEWLINE] (map pretty_field fields)
  ++ [NEWLINE] ++ repeat_str [SPACE] 4 ++ [RBRACE].

Definition pretty_store (notes : list (list (jsstring * jsstring))) : jsstring :=
  match notes with
  | [] => [LBRACKET; RBRACKET]
  | _ =>
      [LBRACKET; NEWLINE] ++ join [COMMA; NEWLINE] (map pretty_note notes)
      ++ [NEWLINE; RBRACKET]
  end.

(** A note with the four fields of the data model, all of them strings. *)
Definition well_formed_note (v : value) : Prop :=
  plain v
  /\ exists id title description created_at,
       get_prop v (str "id") = Ok (Some (VStr id))
       /\ get_prop v (str "title") = Ok (Some (VStr title))
       /\ get_prop v (str "description") = Ok (Some (VStr description))
       /\ get_prop v (str "created_at") = Ok (Some (VStr created_at)).

(** Its [id] and [created_at] are not the empty string. *)
Definition identified (v : value) : Prop :=
  get_prop v (str "id") <> Ok (Some (VStr []))
  /\ get_prop v (str "created_at") <> Ok (Some (VStr [])).

(** The [gap] of [JSON.stringify (v, null, 4)]. *)
Definition four_spaces : jsstring := [SPACE; SPACE; SPACE; SPACE].

(** A run of JSON white space. *)
Definition blank (s : jsstring) : Prop := Forall (fun c => is_ws c = true) s.

(** One member of an object, as written. *)
Definition member_text (indent : jsstring) (kv : jsstring * value) : jsstring :=
  QuoteJSONString (fst kv) ++ [COLON] ++ [SPACE]
  ++ serialize four_spaces indent (snd kv).

(** What reading back one value means: the parser, given at least the
    fuel [JSON_parse] gives for the text, returns the value and the text
    that follows it. *)
Definition reads_back (v : value) : Prop :=
  forall indent rest g,
    blank indent ->
    2 * length (serialize four_spaces indent v ++ rest) + 1 <= g ->
    parse_value g (serialize four_spaces indent v ++ rest) = Some (v, rest).

(** Worlds that differ at most in how far the clock and the random source
    have been read. *)
Definition same_but_counters (w w' : World) : Prop :=
  homedir w' = homedir w /\ notesDir w' = notesDir w
  /\ mkdirFailure w' = mkdirFailure w /\ writeFailure w' = writeFailure w
  /\ clock w' = clock w /\ entropy w' = entropy w /\ console w' = console w
  /\ clockReads w <= clockReads w' /\ entropyDraws w <= entropyDraws w'.

(** What [ensure_fields] returns for a note that is not [null], and the
    world it leaves. *)
Definition with_created_at (note : value) (w : World) : value :=
  match get_prop note (str "created_at") with
  | Ok c =>
      if truthy c then note
      else set_prop note (str "created_at")
             (VStr (Date_toISOString (clock w (clockReads w))))
  | Raise _ => note
  end.

Definition with_id (note : value) (w : World) : value :=
  match get_prop note (str "id") with
  | Ok i =>
      if truthy i then note
      else set_prop note (str "id")
             (VStr (slice0 8 (uuid_of_bits (entropy w (entropyDraws w)))))
  | Raise _ => note
  end.

Definition ensured (note : value) (w : World) : value :=
  with_id (with_created_at note w) w.

Definition after_ensure (note : value) (w : World) : World :=
  let w1 :=
    match get_prop note (str "created_at") with
    | Ok c => if truthy c then w else tick_clock w
    | Raise _ => w
    end in
  match get_prop (with_created_at note w) (str "id") with
  | Ok i => if truthy i then w1 else tick_entropy w1
  | Raise _ => w1
  end.

(** Objects and arrays: the values that can hold a property. *)
Definition is_record (v : value) : bool :=
  match v with
  | VObj _ | VArr _ _ => true
  | _ => false
  end.

(** The test at the head of [loadNotes]: no file, or a file of size 0. *)
Definition file_is_empty (f : option file_node) : bool :=
  match f with
  | None => true
  | Some (Regular c) => match c with [] => true | _ => false end
  | Some (Unreadable n _) => (n =? 0)%N
  end.

(** [v.k] where reading it does not throw, [undefined] otherwise. *)
Definition field (v : value) (k : jsstring) : jsval :=
  match get_prop v k with
  | Ok x => x
  | Raise _ => None
  end.

(** The identifier made from the [k]-th reading of the random source. *)
Definition generated_id (w : World) (k : nat) : jsstring :=
  slice0 8 (uuid_of_bits (entropy w k)).

(** What the normalization pass does to an element [e] that is an object or
    an array, [n] being what it returns: a truthy [created_at] or [id] is
    kept; otherwise [created_at] is the ISO string of a reading of the
    clock taken during the pass, the [k]-th with [first <= k < last], and
    [id] is made from a reading of the random source taken during the
    pass, the [k]-th with [lo <= k < hi].  Any other element is returned as
    it is. *)
Definition backfilled (w : World) (first last lo hi : nat) (e n : value) : Prop :=
  if is_record e then
    is_record n = true
    /\ (if truthy (field e (str "created_at"))
        then field n (str "created_at") = field e (str "created_at")
        else exists k,
               first <= k < last
               /\ field n (str "created_at")
                  = Some (VStr (Date_toISOString (clock w k))))
    /\ (if truthy (field e (str "id"))
        then field n (str "id") = field e (str "id")
        else exists k,
               lo <= k < hi
               /\ field n (str "id") = Some (VStr (generated_id w k)))
  else n = e.

(** Both fields are there and truthy. *)
Definition has_id_and_date (n : value) : Prop :=
  truthy (field n (str "id")) = true
  /\ truthy (field n (str "created_at")) = true.

(** The warning of [loadNotes] for a file that is not JSON. *)
Definition corrupted_warning : jsstring :=
  str "Warning: Notes file '" ++ NOTES_FILE_NAME
  ++ str "' is corrupted. Starting with an empty list.".

(** The line [loadNotes] prints for any other error. *)
Definition load_error_line (e : js_error) : jsstring :=
  str "An error occurred while loading notes: " ++ error_message e.

(** The [TypeError] of [notes.map (...)] on a value that is not an array. *)
Definition map_type_error (v : value) : js_error :=
  match v with
  | VNull => TypeError (ReadOfNull (str "map"))
  | _ => TypeError (NotAFunction (str "notes.map"))
  end.

(** The lines of [deleteNote]. *)
Definition deleted_line (noteId : jsstring) : jsstring :=
  str "Note with ID '" ++ noteId ++ str "' deleted successfully.".

Definition not_found_line (noteId : jsstring) : jsstring :=
  str "No note found with ID '" ++ noteId ++ str "'.".

(** The world after a successful [writeFileSync] of [text] to the notes
    file. *)
Definition written (text : jsstring) (w : World) : World :=
  with_notesDir (Some (Some (Regular (toWellFormed text)))) w.

Definition is_array (v : value) : bool :=
  match v with
  | VArr _ _ => true
  | _ => false
  end.

(** The line [getNotesDir] prints before it ends the process. *)
Definition mkdir_error_line (message : jsstring) : jsstring :=
  str "Error creating notes directory: " ++ message.

(** The line [saveNotes] prints when the write fails. *)
Definition save_error_line (message : jsstring) : jsstring :=
  str "An error occurred while saving notes: " ++ message.

(** The line [createNote] ends with. *)
Definition created_line (title id : jsstring) : jsstring :=
  str "Note '" ++ title ++ str "' (ID: " ++ id ++ str ") created successfully.".

(** The fields of the note that [createNote] builds in the world [w] that
    [loadNotes] left: the next reading of the random source, then the next
    reading of the clock. *)
Definition new_fields (title description : jsstring) (w : World)
  : list (jsstring * jsstring) :=
  [ (str "id", generated_id w (entropyDraws w));
    (str "title", title);
    (str "description", description);
    (str "created_at", Date_toISOString (clock w (clockReads w))) ].

(** A digit of lowercase hexadecimal. *)
Definition lower_hex (c : N) : bool :=
  is_digit c || ((97 <=? c)%N && (c <=? 102)%N).

(** The first string stored under a name. *)
Fixpoint assoc (k : jsstring) (fields : list (jsstring * jsstring))
  : option jsstring :=
  match fields with
  | [] => None
  | (k', s) :: rest => if jsstring_eqb k k' then Some s else assoc k rest
  end.

(** A string that is there and not empty, or else the default. *)
Definition text_or (x : option jsstring) (default : jsstring) : jsstring :=
  match x with
  | Some (c :: s) => c :: s
  | _ => default
  end.

(** The five lines [listNotes] shows for a note whose fields are strings. *)
Definition note_lines (fields : list (jsstring * jsstring))
  : list (channel * jsstring) :=
  [ (Log, str "ID: " ++ text_or (assoc (str "id") fields) (str "N/A"));
    (Log, str "Title: " ++ text_or (assoc (str "title") fields) (str "No Title"));
    (Log, str "Description: "
          ++ text_or (assoc (str "description") fields) (str "No Description"));
    (Log, str "Created: "
          ++ toLocaleString
               (Date_parse (text_or (assoc (str "created_at") fields) (str "N/A"))));
    (Log, str "--------------------") ].

(** Everything [listNotes] shows for notes already in display order. *)
Definition listing (rows : list (list (jsstring * jsstring)))
  : list (channel * jsstring) :=
  [(Log, NEWLINE :: str "--- Your Notes ---")]
  ++ flat_map note_lines rows
  ++ [(Log, str "------------------" ++ [NEWLINE])].

(** The time by which [listNotes] sorts a note whose fields are strings. *)
Definition row_time (fields : list (jsstring * jsstring)) : option Z :=
  match assoc (str "created_at") fields with
  | Some s => Date_parse s
  | None => None
  end.

(** The same key, for a note whose fields are strings. *)
Definition row_recency (fields : list (jsstring * jsstring)) : Z :=
  match row_time fields with
  | Some t => (- t)%Z
  | None => 0%Z
  end.

(** Note [a] was created no earlier than note [b], both dates being
    valid. *)
Definition row_not_older (a b : list (jsstring * jsstring)) : Prop :=
  exists ta tb, row_time a = Some ta /\ row_time b = Some tb /\ (tb <= ta)%Z.

(** The note was created at time [t]. *)
Definition row_at_time (t : Z) (fields : list (jsstring * jsstring)) : bool :=
  match row_time fields with
  | Some t' => (t' =? t)%Z
  | None => false
  end.

(** Setting a field of a note: in place when the name is there, at the end
    otherwise. *)
Fixpoint put (k s : jsstring) (fields : list (jsstring * jsstring))
  : list (jsstring * jsstring) :=
  match fields with
  | [] => [(k, s)]
  | (k', s') :: rest =>
      if jsstring_eqb k k' then (k', s) :: rest else (k', s') :: put k s rest
  end.

(** What the normalization pass does about the field [k] of a note whose
    fields are strings: a non-empty string is kept and the note is as it
    was; otherwise a non-empty string has been put. *)
Definition filled (k : jsstring) (fields fields' : list (jsstring * jsstring))
  : Prop :=
  match text_or (assoc k fields) [] with
  | [] => exists s, s <> [] /\ fields' = put k s fields
  | _ :: _ => fields' = fields
  end.

(** A note as it is carried over from the file by a load: first
    [created_at] is seen to, then [id]. *)
Definition carried_over (fields fields'' : list (jsstring * jsstring)) : Prop :=
  exists fields',
    filled (str "created_at") fields fields' /\ filled (str "id") fields' fields''.

(** A note with at least one field, whose names are distinct and none of
    them an array index: the notes that [JSON.parse] reads with their keys
    in the order of the text. *)
Definition plain_row (fields : list (jsstring * jsstring)) : Prop :=
  fields <> [] /\ NoDup (map fst fields)
  /\ Forall (fun kv => array_index_of (fst kv) = None) fields.

(** The first argument is one of the three commands. *)
Definition known_command (args : list jsstring) : bool :=
  match args with
  | command :: _ =>
      jsstring_eqb command (str "create") || jsstring_eqb command (str "list")
      || jsstring_eqb command (str "delete")
  | [] => false
  end.

(** There is no second argument, or it is the empty string. *)
Definition missing_argument (args : list jsstring) : bool :=
  match args with
  | _ :: (_ :: _) :: _ => false
  | _ => true
  end.

(** The command line asks for the store: [list], or [create] or [delete]
    with their argument. *)
Definition uses_store (args : list jsstring) : bool :=
  match args with
  | command :: _ =>
      jsstring_eqb command (str "list")
      || (jsstring_eqb command (str "create") || jsstring_eqb command (str "delete"))
         && negb (missing_argument args)
  | [] => false
  end.

(** What the tool prints when it is given no command it knows. *)
Definition help_lines : list (channel * jsstring) :=
  [ (Log, str "Welcome to the Node.js Note-Taking Tool!");
    (Log, NEWLINE :: str "Available commands:");
    (Log, help_create);
    (Log, str "  list                                                     - List all notes.");
    (Log, str "  delete <note_id>                                       - Delete a note by its ID.") ].

Definition usage_delete : jsstring :=
  str "Error: 'delete' command requires a note ID. Usage: notes delete <note_id>".

(** A note to which the normalization pass has nothing to add. *)
Definition settled (n : value) : Prop := n <> VNull /\ has_id_and_date n.

(** [m] leaves the notes file as it found it, however it ends. *)
Definition keeps_notes_file {A} (m : M A) : Prop :=
  forall w, notesFile (snd (m w)) = notesFile w.

(** Whatever [m] prints, it prints on the standard output. *)
Definition only_logs {A} (m : M A) : Prop :=
  forall w, exists lines,
    console (snd (m w)) = console w ++ lines
    /\ Forall (fun entry => fst entry = Log) lines.

(** [m] ends the process, if it does, with status 1. *)
Definition exits_with_1 {A} (m : M A) : Prop :=
  forall w c w', m w = (Exit c, w') -> c = 1%Z.

End Notions.

(** The sort of the reference engine: insertion from the right, [x]
    standing before [sorted] in the array. *)
Fixpoint sort_insert {A St : Type} (cmp : comparator_of A St) (x : A)
  (sorted : list A) (s : St) : outcome (list A) * St :=
  match sorted with
  | [] => (Return [x], s)
  | y :: ys =>
      match cmp x y s with
      | (Return v, s1) =>
          if sorts_after v then
            match sort_insert cmp x ys s1 with
            | (Return rest, s2) => (Return (y :: rest), s2)
            | other => other
            end
          else (Return (x :: y :: ys), s1)
      | (Throw e, s1) => (Throw e, s1)
      | (Exit c, s1) => (Exit c, s1)
      end
  end.

Fixpoint insertion_sort {A St : Type} (cmp : comparator_of A St)
  (l : list A) (s : St) : outcome (list A) * St :=
  match l with
  | [] => (Return [], s)
  | x :: rest =>
      match insertion_sort cmp rest s with
      | (Return sorted, s1) => sort_insert cmp x sorted s1
      | other => other
      end
  end.

(** A reference engine for running the model on concrete stores: a number
    is kept as the token it was read from, [Date.parse] accepts nothing
    beyond the format of [toISOString], a date is rendered as its time
    value in decimal, error messages are worded as V8 words them, paths are
    POSIX paths, and the sort is the insertion sort above, which does what
    the standard lets a sort do and sorts by a key as the standard
    requires. *)
Definition reference_runtime : Runtime.
Proof.
  refine {|
    number := jsstring;
    Number_parse := fun token => token;
    Number_isZero :=
      fun token => forallb (fun c => negb (is_digit c) || (c =? ZERO)%N) token;
    Number_isFinite := fun _ => true;
    Number_toString := fun token => token;
    Number_timeClip := fun _ => None;
    Date_parse_other := fun _ => None;
    Date_toLocaleString :=
      fun t => (if (t <? 0)%Z then [MINUS] else []) ++ decimal (Z.abs_N t);
    TypeError_message :=
      fun e =>
        match e with
        | NotAFunction callee => callee ++ str " is not a function"
        | ReadOfNull prop =>
            str "Cannot read properties of null (reading '" ++ prop ++ str "')"
        | NotPrimitive => str "Cannot convert object to primitive value"
        end;
    SyntaxError_message := fun _ => str "Unexpected token";
    path_join := fun a b => a ++ SLASH :: b;
    sort_engine := @insertion_sort
  |}.
  - (* the calls of the insertion sort *)
    intros A St cmp items s.
    assert (trans : forall s1 s2 s3,
               calls cmp items s1 s2 -> calls cmp items s2 s3 ->
               calls cmp items s1 s3).
    { intros s1 s2 s3 H. revert s3.
      induction H as [|a b s0 v s1' s2' Ha Hb E Hc IH]; intros s3 H3; [exact H3|].
      eapply calls_more; [exact Ha|exact Hb|exact E|now apply IH]. }
    assert (ins : forall x, In x items -> forall sorted, incl sorted items ->
               forall s0,
               match sort_insert cmp x sorted s0 with
               | (Return l', s') =>
                   Permutation (x :: sorted) l' /\ calls cmp items s0 s'
               | (Throw e, s') =>
                   exists a b s1, In a items /\ In b items
                                  /\ calls cmp items s0 s1
                                  /\ cmp a b s1 = (Throw e, s')
               | (Exit c, s') =>
                   exists a b s1, In a items /\ In b items
                                  /\ calls cmp items s0 s1
                                  /\ cmp a b s1 = (Exit c, s')
               end).
    { intros x Hx sorted. induction sorted as [|y ys IH]; intros Hincl s0.
      - cbn. split; [reflexivity|constructor].
      - assert (Hy : In y items) by (apply Hincl; now left).
        assert (Hys : incl ys items) by (intros z Hz; apply Hincl; now right).
        cbn [sort_insert]. destruct (cmp x y s0) as [[v|e|c] s1] eqn:E.
        + destruct (sorts_after v).
          * specialize (IH Hys s1).
            destruct (sort_insert cmp x ys s1) as [[rest|e|c] s2].
            -- destruct IH as [Hp Hc]. split.
               ++ rewrite perm_swap. now apply perm_skip.
               ++ eapply calls_more; [exact Hx|exact Hy|exact E|exact Hc].
            -- destruct IH as (a & b & s3 & Ha & Hb & Hc & Ec).
               exists a, b, s3. split; [exact Ha|]. split; [exact Hb|].
               split; [|exact Ec].
               eapply calls_more; [exact Hx|exact Hy|exact E|exact Hc].
            -- destruct IH as (a & b & s3 & Ha & Hb & Hc & Ec).
               exists a, b, s3. split; [exact Ha|]. split; [exact Hb|].
               split; [|exact Ec].
               eapply calls_more; [exact Hx|exact Hy|exact E|exact Hc].
          * split; [reflexivity|].
            eapply calls_more; [exact Hx|exact Hy|exact E|constructor].
        + exists x, y, s0. split; [exact Hx|]. split; [exact Hy|].
          split; [constructor|exact E].
        + exists x, y, s0. split; [exact Hx|]. split; [exact Hy|].
          split; [constructor|exact E]. }
    assert (main : forall l, incl l items -> forall s0,
               match insertion_sort cmp l s0 with
               | (Return l', s') => Permutation l l' /\ calls cmp items s0 s'
               | (Throw e, s') =>
                   exists a b s1, In a items /\ In b items
                                  /\ calls cmp items s0 s1
                                  /\ cmp a b s1 = (Throw e, s')
               | (Exit c, s') =>
                   exists a b s1, In a items /\ In b items
                                  /\ calls cmp items s0 s1
                                  /\ cmp a b s1 = (Exit c, s')
               end).
    { induction l as [|x l IH]; intros Hincl s0.
      - cbn. split; [reflexivity|constructor].
      - assert (Hx : In x items) by (apply Hincl; now left).
        assert (Hl : incl l items) by (intros z Hz; apply Hincl; now right).
        cbn [insertion_sort]. specialize (IH Hl s0).
        destruct (insertion_sort cmp l s0) as [[sorted|e|c] s1];
          [|exact IH|exact IH].
        destruct IH as [Hp Hc].
        assert (Hs : incl sorted items).
        { intros z Hz. apply Hl.
          eapply Permutation_in; [symmetry; exact Hp|exact Hz]. }
        specialize (ins x Hx sorted Hs s1).
        destruct (sort_insert cmp x sorted s1) as [[l'|e|c] s2].
        + destruct ins as [Hp' Hc']. split; [|exact (trans _ _ _ Hc Hc')].
          rewrite <- Hp'. now apply perm_skip.
        + destruct ins as (a & b & s3 & Ha & Hb & Hc' & Ec).
          exists a, b, s3. split; [exact Ha|]. split; [exact Hb|].
          split; [exact (trans _ _ _ Hc Hc')|exact Ec].
        + destruct ins as (a & b & s3 & Ha & Hb & Hc' & Ec).
          exists a, b, s3. split; [exact Ha|]. split; [exact Hb|].
          split; [exact (trans _ _ _ Hc Hc')|exact Ec]. }
    exact (main items (incl_refl items) s).
  - (* the order of the insertion sort for a comparator by key *)
    intros A St cmp key items s Hcmp.
    assert (mem : forall x l z, In z (insert_by_key key x l) -> z = x \/ In z l).
    { intros x l. induction l as [|y ys IH]; intros z Hz; cbn in Hz.
      - destruct Hz as [<-|[]]. now left.
      - destruct (key y <? key x)%Z.
        + destruct Hz as [<-|Hz]; [right; now left|].
          destruct (IH z Hz) as [->|H]; [now left|right; now right].
        + destruct Hz as [<-|Hz]; [now left|now right]. }
    assert (ins : forall x, In x items -> forall sorted, incl sorted items ->
               forall s0, sort_insert cmp x sorted s0
                          = (Return (insert_by_key key x sorted), s0)).
    { intros x Hx sorted.
      induction sorted as [|y ys IH]; intros Hincl s0; [reflexivity|].
      assert (Hy : In y items) by (apply Hincl; now left).
      assert (Hys : incl ys items) by (intros z Hz; apply Hincl; now right).
      cbn [sort_insert insert_by_key]. rewrite (Hcmp x y s0 Hx Hy).
      cbn [sorts_after].
      replace (0 <? key x - key y)%Z with (key y <? key x)%Z
        by (destruct (Z.ltb_spec (key y) (key x)),
                     (Z.ltb_spec 0 (key x - key y)); lia).
      destruct (key y <? key x)%Z; [|reflexivity]. now rewrite (IH Hys s0). }
    assert (main : forall l, incl l items -> forall s0,
               insertion_sort cmp l s0 = (Return (sort_by_key key l), s0)
               /\ incl (sort_by_key key l) items).
    { induction l as [|x l IH]; intros Hincl s0.
      - split; [reflexivity|intros z []].
      - assert (Hx : In x items) by (apply Hincl; now left).
        assert (Hl : incl l items) by (intros z Hz; apply Hincl; now right).
        destruct (IH Hl s0) as [E Hs]. cbn [insertion_sort sort_by_key].
        rewrite E. split; [now apply ins|].
        intros z Hz. destruct (mem _ _ _ Hz) as [->|H]; [exact Hx|now apply Hs]. }
    exact (proj1 (main items (incl_refl items) s)).
Defined.

(** A home directory without [.my_notes], a clock started on 2023-11-14
    that advances by a second per reading, and a random source. *)
Definition fresh_world : World :=
  mkWorld (str "/home/user") None None None
          (fun n => 1700000000000 + 1000 * Z.of_nat n)%Z 0
          (fun n => (N.of_nat (S n) * 1234567890123456789012345678901234567)%N) 0
          [].

(** A home directory in which [.my_notes] cannot be created. *)
Definition locked_home : World :=
  mkWorld (str "/home/user") None
          (Some (str "EACCES: permission denied, mkdir '/home/user/.my_notes'"))
          None (clock fresh_world) 0 (entropy fresh_world) 0 [].

(** The text of a JSON array holding the one string [a]. *)
Definition text_string_array : jsstring :=
  [LBRACKET; DQUOTE; 97%N; DQUOTE; RBRACKET].

(** The same home with [.my_notes] holding [notes.json] as given. *)
Definition world_with (f : option file_node) : World :=
  with_notesDir (Some f) fresh_world.

(** A note as [createNote] builds it. *)
Definition note_of {R : Runtime} (id title description created_at : jsstring)
  : value :=
  VObj [ (str "id", VStr id);
         (str "title", VStr title);
         (str "description", VStr description);
         (str "created_at", VStr created_at) ].

Definition milk_note : value (R := reference_runtime) :=
  note_of (str "aaa111bb") (str "Buy milk") [] (str "2023-11-14T22:13:20.000Z").

Definition call_note : value (R := reference_runtime) :=
  note_of (str "ccc222dd") (str "Call home") (str "before 6 pm")
          (str "2023-11-15T08:00:00.000Z").

Definition new_year_note : value (R := reference_runtime) :=
  note_of (str "eee333ff") (str "Resolutions") []
          (str "2024-01-01T00:00:00.000Z").

(** A note whose [created_at] is not a date. *)
Definition garbled_note : value (R := reference_runtime) :=
  note_of (str "0a1b2c3d") (str "Imported") [] (str "not-a-date").

(** A store holding these two notes, as [saveNotes] writes it. *)
Definition two_notes_world : World :=
  world_with
    (Some (Regular (JSON_stringify (R := reference_runtime)
                      (VArr [milk_note; call_note] []) 4))).

(** A store written before notes had an [id] and a date. *)
Definition legacy_world : World :=
  world_with
    (Some (Regular (JSON_stringify (R := reference_runtime)
                      (VArr [VObj [(str "title", VStr (str "old"))]] []) 4))).



(** A store whose notes are not in the order of their dates. *)
Definition three_notes_world : World :=
  world_with
    (Some (Regular (JSON_stringify (R := reference_runtime)
                      (VArr [call_note; new_year_note; milk_note] []) 4))).

(** A store with a note whose date does not parse. *)
Definition garbled_world : World :=
  world_with
    (Some (Regular (JSON_stringify (R := reference_runtime)
                      (VArr [milk_note; garbled_note; call_note] []) 4))).

(** The store of two notes in a home where [notes.json] cannot be written. *)
Definition read_only_world : World :=
  mkWorld (str "/home/user") (notesDir two_notes_world) None
          (Some (str "EACCES: permission denied, open '/home/user/.my_notes/notes.json'"))
          (clock fresh_world) 0 (entropy fresh_world) 0 [].

(** The store of two notes, the clock started a day later. *)
Definition next_day_world : World :=
  mkWorld (str "/home/user") (notesDir two_notes_world) None None
          (fun n => 1700086400000 + 1000 * Z.of_nat n)%Z 0
          (entropy fresh_world) 0 [].

(** A notes file cut short in the middle of a write. *)
Definition truncated_world : World := world_with (Some (Regular (str "[1,"))).

(** A note made in the same millisecond as [milk_note]. *)
Definition bread_note : value (R := reference_runtime) :=
  note_of (str "bbb000aa") (str "Buy bread") [] (str "2023-11-14T22:13:20.000Z").

(** A store in which two notes have the same date. *)
Definition tied_world : World :=
  world_with
    (Some (Regular (JSON_stringify (R := reference_runtime)
                      (VArr [milk_note; call_note; bread_note] []) 4))).

(** The fields of the notes above. *)
Definition milk_fields : list (jsstring * jsstring) :=
  [ (str "id", str "aaa111bb"); (str "title", str "Buy milk");
    (str "description", []); (str "created_at", str "2023-11-14T22:13:20.000Z") ].

Definition call_fields : list (jsstring * jsstring) :=
  [ (str "id", str "ccc222dd"); (str "title", str "Call home");
    (str "description", str "before 6 pm");
    (str "created_at", str "2023-11-15T08:00:00.000Z") ].

Definition bread_fields : list (jsstring * jsstring) :=
  [ (str "id", str "bbb000aa"); (str "title", str "Buy bread");
    (str "description", []); (str "created_at", str "2023-11-14T22:13:20.000Z") ].

Definition new_year_fields : list (jsstring * jsstring) :=
  [ (str "id", str "eee333ff"); (str "title", str "Resolutions");
    (str "description", []); (str "created_at", str "2024-01-01T00:00:00.000Z") ].

(* ===================================================================== *)
(** ** The monad and the file system *)
(* ===================================================================== *)

Arguments str : simpl never.
Unset Implicit Arguments.

(** Case analysis on every comparison of code units in sight. *)
Ltac split_comparisons :=
  repeat match goal with
         | |- context [(?a <=? ?b)%N] => destruct (N.leb_spec a b)
         | |- context [(?a <? ?b)%N] => destruct (N.ltb_spec a b)
         | |- context [(?a =? ?b)%N] => destruct (N.eqb_spec a b)
         | H : context [(?a <=? ?b)%N] |- _ => destruct (N.leb_spec a b)
         | H : context [(?a <? ?b)%N] |- _ => destruct (N.ltb_spec a b)
         | H : context [(?a =? ?b)%N] |- _ => destruct (N.eqb_spec a b)
         end.


Local Open Scope js_scope.

Section Loading.
Context {R : Runtime}.

Lemma bind_eq {A B} (m : M A) (k : A -> M B) w :
  bind m k w =
    match m w with
    | (Return a, w') => k a w'
    | (Throw e, w') => (Throw e, w')
    | (Exit c, w') => (Exit c, w')
    end.
Proof. reflexivity. Qed.

Lemma getNotesDir_ready w :
  ready w -> getNotesDir w = (Return NotesDirPath, opened w).
Proof.
  intros Hr. unfold getNotesDir, opened, bind, os_homedir, fs_existsSync,
    try_catch, fs_mkdirSync, console_log, console_print, ret.
  destruct (notesDir w) as [f|] eqn:Hd; cbn.
  - reflexivity.
  - rewrite Hd. rewrite (Hr Hd). cbn. reflexivity.
Qed.

Lemma getNotesFilePath_ready w :
  ready w -> getNotesFilePath w = (Return NotesFilePath, opened w).
Proof.
  intros Hr. unfold getNotesFilePath, bind. now rewrite getNotesDir_ready.
Qed.

Lemma notesDir_opened w : notesDir (opened w) = Some (notesFile w).
Proof.
  unfold opened, notesFile. destruct (notesDir w) eqn:E; cbn; now rewrite ?E.
Qed.

Lemma notesFile_opened w : notesFile (opened w) = notesFile w.
Proof. unfold notesFile at 1. now rewrite notesDir_opened. Qed.

Lemma utf8_length_zero c : utf8_length c = 0%N <-> c = [].
Proof.
  split; [|intros ->; reflexivity].
  destruct c as [|x r]; [reflexivity|]. cbn [utf8_length].
  destruct (is_lead_surrogate x).
  - destruct r as [|d r']; [discriminate|].
    cbn [utf8_length]. destruct (is_trail_surrogate d); lia.
  - destruct (x <? 128)%N; [lia|]. destruct (x <? 2048)%N; lia.
Qed.

Lemma loadNotes_ready w :
  ready w ->
  loadNotes w =
    if file_is_empty (notesFile w) then (Return [], opened w)
    else try_catch (read_notes NotesFilePath) load_failed (opened w).
Proof.
  intros Hr. unfold loadNotes. rewrite bind_eq, getNotesFilePath_ready by assumption.
  pose proof (notesDir_opened w) as Hd. revert Hd. generalize (opened w). intros w1 Hd.
  unfold bind, fs_existsSync, fs_statSync_size, ret. rewrite Hd.
  destruct (notesFile w) as [[c|n e]|]; cbn [negb file_is_empty]; rewrite ?Hd.
  - destruct (utf8_length c =? 0)%N eqn:E.
    + apply N.eqb_eq, utf8_length_zero in E. now subst.
    + destruct c; [discriminate|reflexivity].
  - destruct (n =? 0)%N; reflexivity.
  - reflexivity.
Qed.

Lemma loadNotes_not_ready w :
  ~ ready w -> exists w', loadNotes w = (Exit 1%Z, w').
Proof.
  intros Hn. unfold ready in Hn.
  destruct (notesDir w) eqn:Hd; [exfalso; apply Hn; discriminate|].
  destruct (mkdirFailure w) as [e|] eqn:Hm; [|exfalso; apply Hn; reflexivity].
  unfold loadNotes, getNotesFilePath, getNotesDir, bind, os_homedir, fs_existsSync,
    try_catch, fs_mkdirSync, ret. rewrite Hd. cbn. rewrite Hd, Hm. cbn.
  eexists. reflexivity.
Qed.

(** *** The normalization pass never ends the process *)

Lemma ensure_fields_no_exit note w c w' : ensure_fields note w <> (Exit c, w').
Proof.
  unfold ensure_fields, bind, lift, ret, throw, Date_now_toISOString, crypto_randomUUID.
  destruct (get_prop note (str "created_at")) as [ca|e]; [|discriminate].
  destruct (negb (truthy ca)).
  - destruct (get_prop _ (str "id")) as [i|e]; [|discriminate].
    destruct (negb (truthy i)); discriminate.
  - destruct (get_prop _ (str "id")) as [i|e]; [|discriminate].
    destruct (negb (truthy i)); discriminate.
Qed.

Lemma mapM_no_exit {A B} (f : A -> M B) :
  (forall a w c w', f a w <> (Exit c, w')) ->
  forall l w c w', mapM f l w <> (Exit c, w').
Proof.
  intros Hf l. induction l as [|x l IH]; intros w c w'; cbn.
  - discriminate.
  - unfold bind. destruct (f x w) as [[y|e|c0] w1] eqn:E.
    + destruct (mapM f l w1) as [[ys|e|c1] w2] eqn:E2.
      * discriminate.
      * discriminate.
      * exfalso. eapply IH; eauto.
    + discriminate.
    + exfalso. eapply Hf; eauto.
Qed.

Lemma read_notes_no_exit w c w' : read_notes NotesFilePath w <> (Exit c, w').
Proof.
  unfold read_notes, bind, fs_readFileSync, JSON_parse_M.
  destruct (notesDir w) as [[[t|n e]|]|]; try discriminate.
  destruct (JSON_parse t) as [v|]; [|discriminate]. unfold ret.
  destruct v; try discriminate. cbn. apply mapM_no_exit, ensure_fields_no_exit.
Qed.

Lemma load_failed_eq e w :
  load_failed e w
  = (Return [],
     if is_SyntaxError e then printed Warn corrupted_warning w
     else printed Error (load_error_line e) w).
Proof.
  unfold load_failed, bind, console_warn, console_error, console_print, ret.
  destruct (is_SyntaxError e); reflexivity.
Qed.

Lemma load_failed_returns e w :
  exists line ch, load_failed e w = (Return [], printed ch line w).
Proof.
  rewrite load_failed_eq. destruct (is_SyntaxError e); eexists; eexists; reflexivity.
Qed.

(** *** The normalization pass, element by element *)

Lemma ensure_fields_null w :
  ensure_fields VNull w = (Throw (TypeError (ReadOfNull (str "created_at"))), w).
Proof. reflexivity. Qed.

Lemma get_prop_not_null note k :
  note <> VNull -> exists x, get_prop note k = Ok x.
Proof. destruct note; cbn; eauto. congruence. Qed.

Lemma set_prop_not_null note k x : note <> VNull -> set_prop note k x <> VNull.
Proof. destruct note; cbn; congruence. Qed.

Lemma with_created_at_not_null note w :
  note <> VNull -> with_created_at note w <> VNull.
Proof.
  intros H. unfold with_created_at.
  destruct (get_prop note _); [|assumption].
  destruct (truthy a); [assumption|now apply set_prop_not_null].
Qed.

Lemma ensure_fields_not_null note w :
  note <> VNull ->
  ensure_fields note w = (Return (ensured note w), after_ensure note w).
Proof.
  intros Hn. unfold ensure_fields, ensured, after_ensure, with_id.
  pose proof (with_created_at_not_null note w Hn) as Hn1. revert Hn1.
  unfold with_created_at.
  destruct (get_prop_not_null note (str "created_at") Hn) as [c Hc]. rewrite Hc.
  rewrite bind_eq. cbn [lift ret].
  destruct (truthy c); cbn [negb]; intros Hn1.
  - rewrite bind_eq. cbn [ret]. rewrite bind_eq.
    destruct (get_prop_not_null _ (str "id") Hn1) as [i Hi]. rewrite Hi.
    cbn [lift ret]. destruct (truthy i); reflexivity.
  - rewrite bind_eq, bind_eq. cbn [Date_now_toISOString ret]. rewrite bind_eq.
    destruct (get_prop_not_null _ (str "id") Hn1) as [i Hi].
    destruct w; cbn [clock clockReads tick_clock entropy entropyDraws] in *.
    rewrite Hi. cbn [lift ret]. destruct (truthy i); reflexivity.
Qed.

Lemma same_but_counters_refl w : same_but_counters w w.
Proof. unfold same_but_counters. repeat split; auto. Qed.

Lemma same_but_counters_trans w1 w2 w3 :
  same_but_counters w1 w2 -> same_but_counters w2 w3 -> same_but_counters w1 w3.
Proof.
  unfold same_but_counters. intuition (try congruence); lia.
Qed.

Lemma after_ensure_counters note w : same_but_counters w (after_ensure note w).
Proof.
  unfold same_but_counters, after_ensure.
  destruct (get_prop note _) as [c|]; [destruct (truthy c)|];
    (destruct (get_prop (with_created_at note w) _) as [i|];
     [destruct (truthy i)|]); destruct w; cbn; repeat split; auto.
Qed.

Lemma ensure_fields_counters note w o w' :
  ensure_fields note w = (o, w') -> same_but_counters w w'.
Proof.
  destruct note; try (rewrite ensure_fields_not_null by discriminate;
    intros [= <- <-]; apply after_ensure_counters).
  rewrite ensure_fields_null. intros [= <- <-]. apply same_but_counters_refl.
Qed.

Lemma mapM_counters l : forall w o w',
  mapM ensure_fields l w = (o, w') -> same_but_counters w w'.
Proof.
  induction l as [|x l IH]; intros w o w'; cbn [mapM].
  - intros [= <- <-]. apply same_but_counters_refl.
  - rewrite bind_eq. destruct (ensure_fields x w) as [[y|e|c] w1] eqn:E;
      apply ensure_fields_counters in E.
    + rewrite bind_eq. destruct (mapM ensure_fields l w1) as [[ys|e|c] w2] eqn:E2;
        apply IH in E2; intros [= <- <-]; eapply same_but_counters_trans; eauto.
    + intros [= <- <-]. assumption.
    + intros [= <- <-]. assumption.
Qed.

(** A [null] among the elements makes the pass throw. *)
Lemma mapM_ensure_null l : forall w,
  In VNull l ->
  exists w', mapM ensure_fields l w
             = (Throw (TypeError (ReadOfNull (str "created_at"))), w').
Proof.
  induction l as [|x l IH]; intros w Hin; [contradiction|].
  cbn [mapM]. rewrite bind_eq.
  assert (Hx : x = VNull \/ x <> VNull)
    by (destruct x; auto; right; discriminate).
  destruct Hx as [->|Hx].
  - rewrite ensure_fields_null. eauto.
  - rewrite ensure_fields_not_null by assumption.
    cbv beta iota. rewrite bind_eq.
    destruct Hin as [Hin|Hin]; [congruence|].
    destruct (IH (after_ensure x w) Hin) as [w' ->]. eauto.
Qed.

(** Without a [null], every element comes back, a primitive as it was. *)
Lemma mapM_ensure_returns l : forall w,
  ~ In VNull l ->
  exists notes w', mapM ensure_fields l w = (Return notes, w')
    /\ Forall2 (fun e n => n <> VNull /\ (is_record e = false -> n = e)) l notes.
Proof.
  induction l as [|x l IH]; intros w Hnin.
  - exists [], w. split; [reflexivity|constructor].
  - cbn [mapM]. rewrite bind_eq.
    assert (Hx : x <> VNull) by (intros ->; apply Hnin; now left).
    rewrite ensure_fields_not_null by assumption. cbv beta iota. rewrite bind_eq.
    destruct (IH (after_ensure x w)) as (notes & w' & -> & HF).
    { intros H. apply Hnin. now right. }
    eexists; eexists; split; [reflexivity|]. constructor; [|assumption].
    split.
    + unfold ensured, with_id.
      pose proof (with_created_at_not_null x w Hx) as H1.
      destruct (get_prop _ (str "id")); [|assumption].
      destruct (truthy a); [assumption|now apply set_prop_not_null].
    + intros Hrec. destruct x; try discriminate; reflexivity.
Qed.

(** With the directory in place, [loadNotes] returns. *)
Lemma loadNotes_returns w :
  ready w -> exists notes w', loadNotes w = (Return notes, w').
Proof.
  intros Hr. rewrite loadNotes_ready by assumption.
  destruct (file_is_empty (notesFile w)); [eauto|].
  unfold try_catch.
  destruct (read_notes NotesFilePath (opened w)) as [[notes|e|c] w1] eqn:E.
  - eauto.
  - destruct (load_failed_returns e w1) as (line & ch & ->). eauto.
  - exfalso. eapply read_notes_no_exit; eauto.
Qed.

Lemma read_notes_parsed w text v :
  notesDir w = Some (Some (Regular text)) -> JSON_parse text = Some v ->
  read_notes NotesFilePath w = call_map v ensure_fields w.
Proof.
  intros Hd Hp. unfold read_notes. rewrite bind_eq.
  unfold fs_readFileSync. rewrite Hd. rewrite bind_eq.
  unfold JSON_parse_M. rewrite Hp. reflexivity.
Qed.

Lemma nonempty_file_not_empty text :
  text <> [] -> file_is_empty (Some (Regular text)) = false.
Proof. destruct text; [congruence|reflexivity]. Qed.

(** What [loadNotes] does with a file that holds JSON. *)
Lemma loadNotes_parsed w text v :
  ready w -> notesFile w = Some (Regular text) -> text <> [] ->
  JSON_parse text = Some v ->
  loadNotes w = try_catch (call_map v ensure_fields) load_failed (opened w).
Proof.
  intros Hr Hf Hne Hp. rewrite loadNotes_ready by assumption.
  rewrite Hf, nonempty_file_not_empty by assumption.
  unfold try_catch. erewrite read_notes_parsed; eauto.
  now rewrite notesDir_opened, Hf.
Qed.

(* ===================================================================== *)
(** ** Loading never brings the tool down, once the directory is there *)
(* ===================================================================== *)

(** C4, as stated, fails: where [~/.my_notes] is missing and cannot be
    created, [loadNotes] ends the process with status 1 (after reporting the
    error) instead of returning the empty sequence. *)
Lemma loadNotes_fatal_without_directory :
  loadNotes (R := reference_runtime) locked_home
  = (Exit 1%Z,
     printed Error
       (str "Error creating notes directory: EACCES: permission denied, mkdir '/home/user/.my_notes'")
       locked_home).
Proof. reflexivity. Qed.

(** C4, amended: provided the notes directory exists or can be created,
    [loadNotes] always returns; it returns the empty sequence, silently when
    the file is missing or of size zero, after a warning when the content is
    not JSON, and after an error line when the file cannot be read. *)
Theorem loadNotes_degrades_to_empty w :
  ready w ->
  (exists notes w', loadNotes w = (Return notes, w'))
  /\ (file_is_empty (notesFile w) = true ->
      loadNotes w = (Return [], opened w))
  /\ (forall text,
        notesFile w = Some (Regular text) -> text <> [] ->
        JSON_parse text = None ->
        loadNotes w = (Return [], printed Warn corrupted_warning (opened w)))
  /\ (forall size e,
        notesFile w = Some (Unreadable size e) -> size <> 0%N ->
        loadNotes w
        = (Return [], printed Error (load_error_line (SystemError e)) (opened w))).
Proof.
  intros Hr. split; [now apply loadNotes_returns|]. split; [|split].
  - intros He. rewrite loadNotes_ready by assumption. now rewrite He.
  - intros text Hf Hne Hp. rewrite loadNotes_ready by assumption.
    rewrite Hf, nonempty_file_not_empty by assumption.
    unfold try_catch, read_notes. rewrite bind_eq.
    unfold fs_readFileSync. rewrite notesDir_opened, Hf. rewrite bind_eq.
    unfold JSON_parse_M. rewrite Hp. reflexivity.
  - intros size e Hf Hne. rewrite loadNotes_ready by assumption. rewrite Hf.
    cbn [file_is_empty]. destruct (N.eqb_spec size 0); [contradiction|].
    unfold try_catch, read_notes. rewrite bind_eq.
    unfold fs_readFileSync. rewrite notesDir_opened, Hf. reflexivity.
Qed.

End Loading.

Lemma loadNotes_degrades_to_empty_witness :
  ready (world_with (Some (Regular (str "[1,"))))
  /\ exists notes w',
      loadNotes (R := reference_runtime) (world_with (Some (Regular (str "[1,"))))
      = (Return notes, w').
Proof.
  assert (H : ready (world_with (Some (Regular (str "[1,"))))) by (intros H; discriminate H).
  split; [exact H|].
  exact (proj1 (loadNotes_degrades_to_empty (R := reference_runtime) _ H)).
Defined.

(* ===================================================================== *)
(** ** JSON that is not an array of notes *)
(* ===================================================================== *)

(** C10, as stated, fails: an array of strings is valid JSON and not an
    array of objects, yet nothing fails and [loadNotes] returns it as it is,
    not the empty sequence. *)
Lemma loadNotes_keeps_array_of_strings :
  JSON_parse (R := reference_runtime) text_string_array = Some (VArr [VStr [97%N]] [])
  /\ fst (loadNotes (R := reference_runtime) (world_with (Some (Regular text_string_array))))
     = Return [VStr [97%N]]
  /\ console (snd (loadNotes (R := reference_runtime)
                     (world_with (Some (Regular text_string_array))))) = [].
Proof. repeat split; reflexivity. Qed.

Section UnexpectedJson.
Context {R : Runtime}.

(** C10, amended: when the text of the file is JSON for a value that is not
    an array, or for an array with a [null] element, the [TypeError] is
    caught, reported as an error, and [loadNotes] returns the empty
    sequence.  For an array without [null] nothing fails: every element
    comes back, the strings, numbers and booleans as they were. *)
Theorem loadNotes_survives_unexpected_json w text v :
  ready w -> notesFile w = Some (Regular text) -> text <> [] ->
  JSON_parse text = Some v ->
  (is_array v = false ->
   loadNotes w
   = (Return [], printed Error (load_error_line (map_type_error v)) (opened w)))
  /\ (forall elems named,
        v = VArr elems named -> In VNull elems ->
        exists w',
          loadNotes w = (Return [], w')
          /\ console w'
             = console (opened w)
               ++ [(Error, load_error_line (TypeError (ReadOfNull (str "created_at"))))]
          /\ notesFile w' = notesFile w)
  /\ (forall elems named,
        v = VArr elems named -> ~ In VNull elems ->
        exists notes w',
          loadNotes w = (Return notes, w')
          /\ console w' = console (opened w)
          /\ Forall2 (fun e n => is_record e = false -> n = e) elems notes).
Proof.
  intros Hr Hf Hne Hp. rewrite (loadNotes_parsed w text v Hr Hf Hne Hp).
  split; [|split].
  - intros Ha. destruct v; try discriminate; reflexivity.
  - intros elems named -> Hin. unfold try_catch, call_map.
    destruct (mapM_ensure_null elems (opened w) Hin) as [w' E]. rewrite E.
    apply mapM_counters in E. destruct E as (_ & Hd & _ & _ & _ & _ & Hc & _).
    rewrite load_failed_eq. cbn [is_SyntaxError].
    eexists. split; [reflexivity|]. unfold printed, notesFile.
    cbn [console notesDir with_console]. now rewrite Hc, Hd, notesDir_opened.
  - intros elems named -> Hnin. unfold try_catch, call_map.
    destruct (mapM_ensure_returns elems (opened w) Hnin) as (notes & w' & E & HF).
    rewrite E. apply mapM_counters in E.
    destruct E as (_ & _ & _ & _ & _ & _ & Hc & _).
    exists notes, w'. split; [reflexivity|]. split; [assumption|].
    eapply Forall2_impl; [|exact HF]. cbn. intros a b [_ H]. exact H.
Qed.

End UnexpectedJson.

Lemma loadNotes_survives_unexpected_json_witness :
  ready (world_with (Some (Regular (str "{}"))))
  /\ notesFile (world_with (Some (Regular (str "{}")))) = Some (Regular (str "{}"))
  /\ str "{}" <> []
  /\ JSON_parse (R := reference_runtime) (str "{}") = Some (VObj [])
  /\ loadNotes (R := reference_runtime) (world_with (Some (Regular (str "{}"))))
     = (Return [],
        printed Error (str "An error occurred while loading notes: notes.map is not a function")
                (world_with (Some (Regular (str "{}"))))).
Proof.
  assert (H1 : ready (world_with (Some (Regular (str "{}"))))) by (intros H; discriminate H).
  assert (H2 : str "{}" <> []) by discriminate.
  split; [exact H1|]. split; [reflexivity|]. split; [exact H2|].
  split; [reflexivity|].
  exact (proj1 (loadNotes_survives_unexpected_json (R := reference_runtime)
                  _ _ _ H1 eq_refl H2 eq_refl) eq_refl).
Defined.

(* ===================================================================== *)
(** ** Deleting *)
(* ===================================================================== *)

Section Deleting.
Context {R : Runtime}.

Lemma jsstring_eqb_eq a : forall b, jsstring_eqb a b = true <-> a = b.
Proof.
  induction a as [|x a IH]; intros [|y b]; cbn; try (split; congruence).
  rewrite andb_true_iff, N.eqb_eq, IH. split; [intros [-> ->]|intros [= -> ->]]; auto.
Qed.

Lemma has_id_true noteId note :
  has_id noteId note = true <-> get_prop note (str "id") = Ok (Some (VStr noteId)).
Proof.
  unfold has_id. destruct (get_prop note (str "id")) as [[[]|]|]; cbn;
    try (split; congruence).
  rewrite jsstring_eqb_eq. split; [intros ->; reflexivity|intros [= ->]; reflexivity].
Qed.

Lemma has_id_false noteId note :
  has_id noteId note = false <-> get_prop note (str "id") <> Ok (Some (VStr noteId)).
Proof.
  rewrite <- has_id_true. destruct (has_id noteId note); split; congruence.
Qed.

Lemma ready_dec w : ready w \/ ~ ready w.
Proof.
  unfold ready. destruct (notesDir w); [left; discriminate|].
  destruct (mkdirFailure w); [right|left]; auto. intros H. now specialize (H eq_refl).
Qed.

Lemma loadNotes_Return_ready w notes w1 :
  loadNotes w = (Return notes, w1) -> ready w.
Proof.
  intros H. destruct (ready_dec w) as [Hr|Hr]; [assumption|].
  destruct (loadNotes_not_ready w Hr) as [w' E]. congruence.
Qed.

(** What [loadNotes] leaves of the world: the directory is there, the file
    is as it was. *)
Lemma read_notes_counters w o w' :
  read_notes NotesFilePath w = (o, w') -> same_but_counters w w'.
Proof.
  unfold read_notes. rewrite bind_eq. unfold fs_readFileSync.
  destruct (notesDir w) as [[[t|n e]|]|];
    try (intros [= <- <-]; apply same_but_counters_refl).
  rewrite bind_eq. unfold JSON_parse_M.
  destruct (JSON_parse t) as [v|]; [|intros [= <- <-]; apply same_but_counters_refl].
  cbn [ret]. destruct v; cbn [call_map throw];
    try (intros [= <- <-]; apply same_but_counters_refl).
  apply mapM_counters.
Qed.

Lemma loadNotes_Return_world w notes w1 :
  loadNotes w = (Return notes, w1) ->
  notesDir w1 = Some (notesFile w) /\ writeFailure w1 = writeFailure w
  /\ Forall (fun n => n <> VNull) notes.
Proof.
  intros H. pose proof (loadNotes_Return_ready _ _ _ H) as Hr.
  rewrite loadNotes_ready in H by assumption.
  assert (Ho : writeFailure (opened w) = writeFailure w)
    by (unfold opened; destruct (notesDir w); reflexivity).
  destruct (file_is_empty (notesFile w)).
  - injection H as <- <-. rewrite notesDir_opened. auto.
  - unfold try_catch in H.
    destruct (read_notes NotesFilePath (opened w)) as [[ns|e|c] w2] eqn:E.
    + injection H as <- <-. pose proof (read_notes_counters _ _ _ E) as Hc.
      destruct Hc as (_ & Hd & _ & Hw & _). rewrite Hd, Hw, notesDir_opened.
      split; [reflexivity|]. split; [assumption|].
      revert E. unfold read_notes. rewrite bind_eq. unfold fs_readFileSync.
      destruct (notesDir (opened w)) as [[[t|n e]|]|]; try discriminate.
      rewrite bind_eq. unfold JSON_parse_M.
      destruct (JSON_parse t) as [v|]; [|discriminate].
      cbn [ret]. destruct v; cbn [call_map throw]; try discriminate.
      intros E.
      assert (Hn : ~ In VNull elems).
      { intros Hin. destruct (mapM_ensure_null elems (opened w) Hin) as [w' E']. congruence. }
      destruct (mapM_ensure_returns elems (opened w) Hn) as (ns' & w' & E' & HF).
      rewrite E' in E. injection E as <- <-.
      clear - HF. induction HF; constructor; tauto.
    + pose proof (read_notes_counters _ _ _ E) as Hc.
      destruct Hc as (_ & Hd & _ & Hw & _).
      rewrite load_failed_eq in H. injection H as <- <-.
      destruct (is_SyntaxError e); cbn; rewrite Hd, Hw, notesDir_opened; auto.
    + discriminate.
Qed.

Lemma filterM_has_id noteId notes : forall w,
  Forall (fun n => n <> VNull) notes ->
  filterM (fun note =>
             id <- lift (get_prop note (str "id")) ;;
             ret (negb (strict_equal_string id noteId))) notes w
  = (Return (filter (fun n => negb (has_id noteId n)) notes), w).
Proof.
  induction notes as [|n notes IH]; intros w HF; [reflexivity|].
  inversion HF as [|? ? Hn HF']; subst. cbn [filterM filter].
  rewrite bind_eq, bind_eq. unfold has_id.
  destruct (get_prop_not_null n (str "id") Hn) as [i ->]. cbn [lift ret].
  rewrite bind_eq, IH by assumption. reflexivity.
Qed.

Lemma saveNotes_eq notes w f :
  notesDir w = Some f ->
  saveNotes notes w
  = (Return tt,
     match writeFailure w with
     | None => written (JSON_stringify (VArr notes []) 4) w
     | Some e =>
         printed Error (str "An error occurred while saving notes: " ++ e) w
     end).
Proof.
  intros Hd. unfold saveNotes. rewrite bind_eq.
  assert (Hr : ready w) by (unfold ready; congruence).
  rewrite getNotesFilePath_ready by assumption.
  assert (Ho : opened w = w) by (unfold opened; now rewrite Hd). rewrite Ho.
  unfold try_catch, fs_writeFileSync. rewrite Hd.
  destruct (writeFailure w); reflexivity.
Qed.

Lemma filter_all_kept {A} (f : A -> bool) l :
  (forall x, In x l -> f x = true) -> filter f l = l.
Proof.
  induction l as [|x l IH]; intros H; [reflexivity|]. cbn.
  rewrite (H x) by now left. f_equal. apply IH. intros y Hy. apply H. now right.
Qed.

(** C2: [deleteNote] filters the loaded sequence, dropping every note whose
    [id] is the given string and keeping every other note in its place;
    when that makes the sequence shorter, it writes the new sequence to the
    notes file ([writeFileSync] not failing) and reports success. *)
Theorem deleteNote_removes_matches w noteId notes w1 :
  loadNotes w = (Return notes, w1) ->
  writeFailure w = None ->
  let kept := filter (fun n => negb (has_id noteId n)) notes in
  (forall n, In n kept
             <-> In n notes /\ get_prop n (str "id") <> Ok (Some (VStr noteId)))
  /\ (length kept < length notes ->
      deleteNote noteId w
      = (Return tt,
         printed Log (deleted_line noteId)
           (written (JSON_stringify (VArr kept []) 4) w1))).
Proof.
  intros Hl Hw kept. split.
  - intros n. unfold kept. rewrite filter_In, negb_true_iff, has_id_false. tauto.
  - intros Hlt. destruct (loadNotes_Return_world _ _ _ Hl) as (Hd & Hw1 & Hnn).
    unfold deleteNote. rewrite bind_eq, Hl. rewrite bind_eq.
    rewrite filterM_has_id by assumption. fold kept.
    apply Nat.ltb_lt in Hlt. rewrite Hlt.
    rewrite bind_eq. rewrite (saveNotes_eq kept _ _ Hd). rewrite Hw1, Hw. reflexivity.
Qed.

(** C3: when no loaded note has the given id, [deleteNote] writes nothing:
    the notes file is as it was, the only thing printed after loading is
    that no note was found, and the command ends normally, with exit
    status 0. *)
Theorem deleteNote_unknown_id w noteId notes w1 :
  loadNotes w = (Return notes, w1) ->
  (forall n, In n notes -> get_prop n (str "id") <> Ok (Some (VStr noteId))) ->
  deleteNote noteId w = (Return tt, printed Log (not_found_line noteId) w1)
  /\ notesFile (printed Log (not_found_line noteId) w1) = notesFile w
  /\ (noteId <> [] ->
      main [str "delete"; noteId] w = deleteNote noteId w
      /\ exit_status (fst (main [str "delete"; noteId] w)) = 0%Z).
Proof.
  intros Hl Hno. destruct (loadNotes_Return_world _ _ _ Hl) as (Hd & Hw1 & Hnn).
  assert (E : deleteNote noteId w
              = (Return tt, printed Log (not_found_line noteId) w1)).
  { unfold deleteNote. rewrite bind_eq, Hl. rewrite bind_eq.
    rewrite filterM_has_id by assumption.
    rewrite filter_all_kept.
    - rewrite Nat.ltb_irrefl. reflexivity.
    - intros n Hn. apply negb_true_iff, has_id_false. now apply Hno. }
  split; [exact E|]. split.
  - unfold notesFile, printed. cbn [notesDir with_console]. now rewrite Hd.
  - intros Hne. destruct noteId as [|c t]; [congruence|].
    split; [reflexivity|].
    change (main [str "delete"; c :: t] w) with (deleteNote (c :: t) w).
    now rewrite E.
Qed.

End Deleting.

Lemma two_notes_loaded :
  loadNotes (R := reference_runtime) two_notes_world
  = (Return [milk_note; call_note], two_notes_world).
Proof. reflexivity. Qed.

Lemma deleteNote_removes_matches_witness :
  loadNotes (R := reference_runtime) two_notes_world
  = (Return [milk_note; call_note], two_notes_world)
  /\ writeFailure two_notes_world = None
  /\ deleteNote (R := reference_runtime) (str "aaa111bb") two_notes_world
     = (Return tt,
        printed Log (str "Note with ID 'aaa111bb' deleted successfully.")
          (written (JSON_stringify (R := reference_runtime) (VArr [call_note] []) 4)
                   two_notes_world)).
Proof.
  assert (H : loadNotes (R := reference_runtime) two_notes_world
              = (Return [milk_note; call_note], two_notes_world))
    by reflexivity.
  split; [exact H|]. split; [reflexivity|].
  refine (proj2 (deleteNote_removes_matches (R := reference_runtime)
                   two_notes_world (str "aaa111bb") _ _ H eq_refl) _).
  apply Nat.ltb_lt. reflexivity.
Defined.

Lemma deleteNote_unknown_id_witness :
  loadNotes (R := reference_runtime) two_notes_world
  = (Return [milk_note; call_note], two_notes_world)
  /\ (forall n, In n [milk_note; call_note] ->
                get_prop n (str "id") <> Ok (Some (VStr (str "zzz"))))
  /\ deleteNote (R := reference_runtime) (str "zzz") two_notes_world
     = (Return tt,
        printed Log (str "No note found with ID 'zzz'.") two_notes_world).
Proof.
  assert (H : loadNotes (R := reference_runtime) two_notes_world
              = (Return [milk_note; call_note], two_notes_world))
    by reflexivity.
  assert (H2 : forall n, In n [milk_note; call_note] ->
                         get_prop n (str "id") <> Ok (Some (VStr (str "zzz")))).
  { intros n [<-|[<-|[]]]; apply has_id_false; reflexivity. }
  split; [exact H|]. split; [exact H2|].
  exact (proj1 (deleteNote_unknown_id (R := reference_runtime)
                  two_notes_world (str "zzz") _ _ H H2)).
Defined.

(* ===================================================================== *)
(** ** Listing *)
(* ===================================================================== *)

Section Listing.
Context {R : Runtime}.

Lemma created_time_datable n t : created_time n = Some t -> datable n.
Proof.
  unfold created_time, datable.
  destruct (get_prop n (str "created_at")) as [c|]; [|discriminate].
  destruct (Date_new c) as [d|] eqn:E; [|discriminate]. eauto.
Qed.

Lemma string_created_at_datable n s :
  get_prop n (str "created_at") = Ok (Some (VStr s)) -> datable n.
Proof. intros H. exists (Some (VStr s)), (Date_parse s). now split. Qed.

(** When no date throws, the comparator prints nothing. *)
Lemma compare_created_at_quiet a b w :
  datable a -> datable b ->
  compare_created_at a b w = (Return (compare_times a b), w).
Proof.
  intros (ca & da & Ha & Hda) (cb & db & Hb & Hdb).
  unfold compare_created_at, try_catch, compare_times, created_time.
  rewrite bind_eq, Ha. cbn [lift ret]. rewrite bind_eq, Hda. cbn [lift ret].
  rewrite bind_eq, Hb. cbn [lift ret]. rewrite bind_eq, Hdb. reflexivity.
Qed.

(** *** What any sort of the engine does *)

(** A property of the world that every call of the comparator keeps is
    kept by the calls of a sort. *)
Lemma calls_invariant {A St} (cmp : comparator_of A St) items (I : St -> Prop) :
  (forall a b s0, In a items -> In b items -> I s0 -> I (snd (cmp a b s0))) ->
  forall s s', calls cmp items s s' -> I s -> I s'.
Proof.
  intros Hc s s' H. induction H as [|a b s v s1 s2 Ha Hb E _ IH]; [auto|].
  intros Hs. apply IH. specialize (Hc a b s Ha Hb Hs). now rewrite E in Hc.
Qed.

Lemma sort_engine_invariant {A St} (cmp : comparator_of A St) items (I : St -> Prop) s :
  (forall a b s0, In a items -> In b items -> I s0 -> I (snd (cmp a b s0))) ->
  I s -> I (snd (sort_engine cmp items s)).
Proof.
  intros Hc Hs. pose proof (sort_engine_allowed cmp items s) as H.
  destruct (sort_engine cmp items s) as [[sorted|e|c] s']; cbn [sort_allowed snd] in *.
  - destruct H as [_ H]. exact (calls_invariant cmp items I Hc _ _ H Hs).
  - destruct H as (a & b & s0 & Ha & Hb & H & E).
    pose proof (calls_invariant cmp items I Hc _ _ H Hs) as H0.
    specialize (Hc a b s0 Ha Hb H0). now rewrite E in Hc.
  - destruct H as (a & b & s0 & Ha & Hb & H & E).
    pose proof (calls_invariant cmp items I Hc _ _ H Hs) as H0.
    specialize (Hc a b s0 Ha Hb H0). now rewrite E in Hc.
Qed.

(** A sort ends the process only if a call of the comparator does. *)
Lemma sort_engine_exit {A St} (cmp : comparator_of A St) items s c s' :
  sort_engine cmp items s = (Exit c, s') ->
  exists a b s0, cmp a b s0 = (Exit c, s').
Proof.
  intros E. pose proof (sort_engine_allowed cmp items s) as H.
  rewrite E in H. destruct H as (a & b & s0 & _ & _ & _ & H). eauto.
Qed.

(** With a comparator that always returns and changes nothing, a sort
    returns the elements in some order and changes nothing. *)
Lemma sort_engine_pure {A St} (cmp : comparator_of A St) items s :
  (forall a b s0, In a items -> In b items ->
                  exists v, cmp a b s0 = (Return v, s0)) ->
  exists sorted,
    sort_engine cmp items s = (Return sorted, s) /\ Permutation items sorted.
Proof.
  intros Hc.
  assert (Hsame : forall s1 s2, calls cmp items s1 s2 -> s2 = s1).
  { intros s1 s2 H. induction H as [|a b s0 v s1 s2 Ha Hb E _ IH]; [reflexivity|].
    destruct (Hc a b s0 Ha Hb) as [v' E']. rewrite E' in E.
    injection E as _ <-. exact IH. }
  pose proof (sort_engine_allowed cmp items s) as H.
  destruct (sort_engine cmp items s) as [[sorted|e|c] s']; cbn [sort_allowed] in H.
  - destruct H as [Hp H]. apply Hsame in H. subst. now exists sorted.
  - destruct H as (a & b & s0 & Ha & Hb & _ & E).
    destruct (Hc a b s0 Ha Hb) as [v E']. congruence.
  - destruct H as (a & b & s0 & Ha & Hb & _ & E).
    destruct (Hc a b s0 Ha Hb) as [v E']. congruence.
Qed.

(** The sort of [listNotes] when no date throws. *)
Lemma Array_sort_quiet l w :
  Forall datable l ->
  exists sorted,
    Array_sort compare_created_at l w = (Return sorted, w)
    /\ Permutation l sorted.
Proof.
  intros HF. apply sort_engine_pure. intros a b s0 Ha Hb.
  rewrite Forall_forall in HF.
  exists (compare_times a b). apply compare_created_at_quiet; auto.
Qed.

(** The sort of [listNotes] when every date is valid. *)
Lemma Array_sort_by_date l w :
  Forall (fun n => exists t, created_time n = Some t) l ->
  Array_sort compare_created_at l w = (Return (sort_by_key recency l), w).
Proof.
  intros HF. apply sort_engine_consistent. intros a b s0 Ha Hb.
  rewrite Forall_forall in HF.
  destruct (HF a Ha) as [ta Hta]. destruct (HF b Hb) as [tb Htb].
  rewrite compare_created_at_quiet
    by (eapply created_time_datable; eassumption).
  unfold compare_times, recency. rewrite Hta, Htb. cbn [time_difference].
  do 3 f_equal. lia.
Qed.

(** *** The order the standard fixes *)

Lemma insert_by_key_perm {A} (key : A -> Z) x sorted :
  Permutation (x :: sorted) (insert_by_key key x sorted).
Proof.
  induction sorted as [|y ys IH]; cbn [insert_by_key]; [reflexivity|].
  destruct (key y <? key x)%Z; [|reflexivity].
  rewrite perm_swap. now apply perm_skip.
Qed.

Lemma sort_by_key_perm {A} (key : A -> Z) l : Permutation l (sort_by_key key l).
Proof.
  induction l as [|x l IH]; cbn [sort_by_key]; [reflexivity|].
  rewrite <- insert_by_key_perm. now apply perm_skip.
Qed.

Lemma insert_by_key_sorted {A} (key : A -> Z) x : forall sorted,
  StronglySorted (fun a b => (key a <= key b)%Z) sorted ->
  StronglySorted (fun a b => (key a <= key b)%Z) (insert_by_key key x sorted).
Proof.
  induction sorted as [|y ys IH]; intros HS; cbn [insert_by_key].
  - constructor; constructor.
  - inversion HS as [|? ? HS' Hall]; subst.
    destruct (Z.ltb_spec (key y) (key x)) as [Hlt|Hge].
    + constructor; [now apply IH|].
      rewrite Forall_forall in *. intros n Hn.
      apply (Permutation_in _ (Permutation_sym (insert_by_key_perm key x ys))) in Hn.
      destruct Hn as [<-|Hn]; [lia|now apply Hall].
    + constructor; [assumption|]. constructor; [assumption|].
      rewrite Forall_forall in *. intros n Hn. specialize (Hall n Hn). lia.
Qed.

Lemma sort_by_key_sorted {A} (key : A -> Z) l :
  StronglySorted (fun a b => (key a <= key b)%Z) (sort_by_key key l).
Proof.
  induction l as [|x l IH]; cbn [sort_by_key]; [constructor|].
  now apply insert_by_key_sorted.
Qed.

(** Elements of equal key keep their relative order. *)
Lemma insert_by_key_stable {A} (key : A -> Z) k x : forall sorted,
  filter (fun a => (key a =? k)%Z) (insert_by_key key x sorted)
  = filter (fun a => (key a =? k)%Z) (x :: sorted).
Proof.
  induction sorted as [|y ys IH]; [reflexivity|]. cbn [insert_by_key].
  destruct (Z.ltb_spec (key y) (key x)) as [Hlt|Hge]; [|reflexivity].
  cbn [filter]. rewrite IH. cbn [filter].
  destruct (Z.eqb_spec (key y) k), (Z.eqb_spec (key x) k); try reflexivity. lia.
Qed.

Lemma sort_by_key_stable {A} (key : A -> Z) k l :
  filter (fun a => (key a =? k)%Z) (sort_by_key key l)
  = filter (fun a => (key a =? k)%Z) l.
Proof.
  induction l as [|x l IH]; [reflexivity|]. cbn [sort_by_key].
  rewrite insert_by_key_stable. cbn [filter]. now rewrite IH.
Qed.

Lemma sort_by_key_map {A B} (f : A -> B) (key : B -> Z) l :
  sort_by_key key (map f l) = map f (sort_by_key (fun a => key (f a)) l).
Proof.
  induction l as [|x l IH]; [reflexivity|]. cbn [map sort_by_key]. rewrite IH.
  generalize (sort_by_key (fun a => key (f a)) l). intros sorted.
  induction sorted as [|y ys IHs]; [reflexivity|]. cbn [map insert_by_key].
  destruct (key (f y) <? key (f x))%Z; [|reflexivity]. cbn [map]. now rewrite IHs.
Qed.

Lemma sort_by_key_ext {A} (key key' : A -> Z) l :
  (forall a, key a = key' a) -> sort_by_key key l = sort_by_key key' l.
Proof.
  intros E. induction l as [|x l IH]; [reflexivity|]. cbn [sort_by_key].
  rewrite IH. generalize (sort_by_key key' l). intros sorted.
  induction sorted as [|y ys IHs]; [reflexivity|]. cbn [insert_by_key].
  now rewrite !E, IHs.
Qed.

(** An element whose key is below all the others goes from the last place
    to the first. *)
Lemma sort_by_key_least_last {A} (key : A -> Z) l x :
  Forall (fun a => (key x < key a)%Z) l ->
  sort_by_key key (l ++ [x]) = x :: sort_by_key key l.
Proof.
  induction 1 as [|a l Ha _ IH]; [reflexivity|].
  cbn [app sort_by_key]. rewrite IH. cbn [insert_by_key].
  apply Z.ltb_lt in Ha. now rewrite Ha.
Qed.

(** *** Notes whose fields are strings *)

Lemma with_console_twice c c' w :
  with_console c' (with_console c w) = with_console c' w.
Proof. reflexivity. Qed.

Lemma assoc_lookup k fields :
  lookup k (map (fun kv => (fst kv, VStr (snd kv))) fields)
  = option_map VStr (assoc k fields).
Proof.
  induction fields as [|[k' s] rest IH]; [reflexivity|].
  cbn [map lookup assoc fst snd]. destruct (jsstring_eqb k k'); [reflexivity|exact IH].
Qed.

Lemma get_prop_record fields k :
  get_prop (record_of fields) k = Ok (option_map VStr (assoc k fields)).
Proof. unfold record_of, get_prop. now rewrite assoc_lookup. Qed.

Lemma created_time_record fields :
  created_time (record_of fields) = row_time fields.
Proof.
  unfold created_time, row_time. rewrite get_prop_record.
  destruct (assoc (str "created_at") fields); reflexivity.
Qed.

Lemma recency_record fields : recency (record_of fields) = row_recency fields.
Proof. unfold recency, row_recency. now rewrite created_time_record. Qed.

Lemma record_datable fields : datable (record_of fields).
Proof.
  unfold datable. rewrite get_prop_record.
  destruct (assoc (str "created_at") fields) as [s|]; cbn [option_map].
  - exists (Some (VStr s)), (Date_parse s). now split.
  - exists None, None. now split.
Qed.

Lemma or_default_text x default :
  or_default (option_map VStr x) default = VStr (text_or x default).
Proof. destruct x as [[|c s]|]; reflexivity. Qed.

(** The callback of [forEach] on a note whose fields are strings. *)
Lemma print_note_record fields w :
  print_note (record_of fields) w
  = (Return tt, with_console (console w ++ note_lines fields) w).
Proof.
  unfold print_note.
  rewrite bind_eq, get_prop_record. cbn [lift ret].
  rewrite bind_eq, get_prop_record. cbn [lift ret].
  rewrite bind_eq, get_prop_record. cbn [lift ret].
  rewrite bind_eq, get_prop_record. cbn [lift ret].
  rewrite !or_default_text.
  unfold note_lines, bind, try_catch, lift, ret, Date_new, ToString,
    console_log, console_print.
  cbn [console with_console homedir notesDir mkdirFailure writeFailure clock
       clockReads entropy entropyDraws].
  rewrite !with_console_twice. do 2 f_equal. now rewrite <- !app_assoc.
Qed.

Lemma forEachM_print_records rows : forall w,
  forEachM print_note (map record_of rows) w
  = (Return tt, with_console (console w ++ flat_map note_lines rows) w).
Proof.
  induction rows as [|r rows IH]; intros w.
  - cbn [map forEachM flat_map]. unfold ret. rewrite app_nil_r.
    destruct w; reflexivity.
  - cbn [map forEachM flat_map]. rewrite bind_eq, print_note_record, IH.
    rewrite with_console_twice. do 2 f_equal.
    cbn [console with_console]. now rewrite <- app_assoc.
Qed.

Lemma display_records rows w :
  display (map record_of rows) w
  = (Return tt, with_console (console w ++ listing rows) w).
Proof.
  unfold display. rewrite bind_eq. unfold console_log at 1, console_print at 1.
  rewrite bind_eq, forEachM_print_records.
  unfold console_log, console_print, listing.
  rewrite !with_console_twice. do 2 f_equal.
  cbn [console with_console]. now rewrite <- !app_assoc.
Qed.

(** [listNotes], given what the load and the sort return. *)
Lemma listNotes_sorted w notes w1 sorted :
  loadNotes w = (Return notes, w1) -> notes <> [] ->
  Array_sort compare_created_at notes w1 = (Return sorted, w1) ->
  listNotes w = display sorted w1.
Proof.
  intros Hl Hne Hs. unfold listNotes. rewrite bind_eq, Hl.
  destruct notes as [|n ns]; [congruence|]. cbn [length Nat.eqb].
  rewrite bind_eq, Hs. reflexivity.
Qed.

(** [listNotes] on a store of notes with string fields and valid dates. *)
Lemma listNotes_by_date w rows w1 :
  loadNotes w = (Return (map record_of rows), w1) -> rows <> [] ->
  (forall r, In r rows -> exists t, row_time r = Some t) ->
  listNotes w
  = (Return tt,
     with_console (console w1 ++ listing (sort_by_key row_recency rows)) w1).
Proof.
  intros Hl Hne Hall.
  assert (Hn : map record_of rows <> [])
    by (destruct rows; [congruence|discriminate]).
  assert (HF : Forall (fun n => exists t, created_time n = Some t)
                 (map record_of rows)).
  { rewrite Forall_map. apply Forall_forall. intros r Hr.
    rewrite created_time_record. now apply Hall. }
  rewrite (listNotes_sorted w _ w1 _ Hl Hn (Array_sort_by_date _ w1 HF)).
  rewrite sort_by_key_map.
  rewrite (sort_by_key_ext (fun a => recency (record_of a)) row_recency)
    by (intros a; apply recency_record).
  apply display_records.
Qed.

Lemma row_sorted_not_older rows :
  (forall r, In r rows -> exists t, row_time r = Some t) ->
  StronglySorted (fun a b => (row_recency a <= row_recency b)%Z) rows ->
  StronglySorted row_not_older rows.
Proof.
  intros Hall HS. induction HS as [|a l HS IH Hfa]; [constructor|].
  constructor.
  - apply IH. intros r Hr. apply Hall. now right.
  - rewrite Forall_forall in *. intros b Hb.
    destruct (Hall a (or_introl eq_refl)) as [ta Hta].
    destruct (Hall b (or_intror Hb)) as [tb Htb].
    specialize (Hfa b Hb). unfold row_recency in Hfa. rewrite Hta, Htb in Hfa.
    exists ta, tb. split; [exact Hta|]. split; [exact Htb|]. lia.
Qed.

(** C6: for a store of notes of the data model (objects whose fields are
    strings) in which every [created_at] parses, [listNotes] returns
    normally and what it prints is the header, then the five lines of each
    note, then the footer, the notes being taken in an order that is a
    rearrangement of the stored sequence sorted by [created_at] from the
    most recent to the oldest. *)
Theorem listNotes_most_recent_first w rows w1 :
  loadNotes w = (Return (map record_of rows), w1) -> rows <> [] ->
  (forall r, In r rows -> exists t, row_time r = Some t) ->
  exists shown,
    listNotes w = (Return tt, with_console (console w1 ++ listing shown) w1)
    /\ Permutation rows shown
    /\ StronglySorted row_not_older shown.
Proof.
  intros Hl Hne Hall. exists (sort_by_key row_recency rows).
  split; [now apply listNotes_by_date|]. split; [apply sort_by_key_perm|].
  apply row_sorted_not_older; [|apply sort_by_key_sorted].
  intros r Hr. apply Hall.
  eapply Permutation_in; [symmetry; apply sort_by_key_perm|exact Hr].
Qed.

(** X21: in such a store, the notes that have the same [created_at] are
    shown in the order in which they are stored: what [listNotes] prints
    is the listing of a rearrangement of the stored sequence in which, for
    every time, the notes of that time come in their stored order. *)
Theorem listNotes_keeps_order_of_equal_dates w rows w1 :
  loadNotes w = (Return (map record_of rows), w1) -> rows <> [] ->
  (forall r, In r rows -> exists t, row_time r = Some t) ->
  exists shown,
    listNotes w = (Return tt, with_console (console w1 ++ listing shown) w1)
    /\ Permutation rows shown
    /\ forall t, filter (row_at_time t) shown = filter (row_at_time t) rows.
Proof.
  intros Hl Hne Hall. exists (sort_by_key row_recency rows).
  split; [now apply listNotes_by_date|]. split; [apply sort_by_key_perm|].
  intros t.
  assert (E : forall l, (forall r, In r l -> exists t, row_time r = Some t) ->
                filter (row_at_time t) l
                = filter (fun a => (row_recency a =? - t)%Z) l).
  { intros l Hl'. apply filter_ext_in. intros r Hr.
    destruct (Hl' r Hr) as [tr Htr]. unfold row_at_time, row_recency.
    rewrite Htr. destruct (Z.eqb_spec tr t), (Z.eqb_spec (- tr) (- t));
      try reflexivity; lia. }
  rewrite (E rows Hall), E.
  - apply sort_by_key_stable.
  - intros r Hr. apply Hall.
    eapply Permutation_in; [symmetry; apply sort_by_key_perm|exact Hr].
Qed.

End Listing.

Lemma listNotes_most_recent_first_witness :
  loadNotes (R := reference_runtime) three_notes_world
  = (Return (map record_of [call_fields; new_year_fields; milk_fields]),
     three_notes_world)
  /\ [call_fields; new_year_fields; milk_fields] <> []
  /\ (forall r, In r [call_fields; new_year_fields; milk_fields] ->
                exists t, row_time (R := reference_runtime) r = Some t)
  /\ exists shown,
       listNotes (R := reference_runtime) three_notes_world
       = (Return tt,
          with_console
            (console three_notes_world ++ listing (R := reference_runtime) shown)
            three_notes_world)
       /\ Permutation [call_fields; new_year_fields; milk_fields] shown
       /\ StronglySorted (row_not_older (R := reference_runtime)) shown.
Proof.
  assert (H1 : loadNotes (R := reference_runtime) three_notes_world
               = (Return (map record_of [call_fields; new_year_fields; milk_fields]),
                  three_notes_world))
    by reflexivity.
  assert (H2 : [call_fields; new_year_fields; milk_fields] <> []) by discriminate.
  assert (H3 : forall r, In r [call_fields; new_year_fields; milk_fields] ->
                         exists t, row_time (R := reference_runtime) r = Some t).
  { intros r [<-|[<-|[<-|[]]]]; eexists; reflexivity. }
  split; [exact H1|]. split; [exact H2|]. split; [exact H3|].
  exact (listNotes_most_recent_first (R := reference_runtime) _ _ _ H1 H2 H3).
Defined.

(** The three notes of [three_notes_world], stored in the order T2, T3, T1,
    are shown in the order T3, T2, T1. *)
Lemma three_notes_shown :
  listNotes (R := reference_runtime) three_notes_world
  = (Return tt,
     with_console
       (console three_notes_world
        ++ listing (R := reference_runtime)
             [new_year_fields; call_fields; milk_fields])
       three_notes_world).
Proof. reflexivity. Qed.

Lemma listNotes_keeps_order_of_equal_dates_witness :
  loadNotes (R := reference_runtime) tied_world
  = (Return (map record_of [milk_fields; call_fields; bread_fields]), tied_world)
  /\ [milk_fields; call_fields; bread_fields] <> []
  /\ (forall r, In r [milk_fields; call_fields; bread_fields] ->
                exists t, row_time (R := reference_runtime) r = Some t)
  /\ filter (row_at_time (R := reference_runtime) 1700000000000)
       [milk_fields; call_fields; bread_fields]
     = [milk_fields; bread_fields]
  /\ exists shown,
       listNotes (R := reference_runtime) tied_world
       = (Return tt,
          with_console
            (console tied_world ++ listing (R := reference_runtime) shown)
            tied_world)
       /\ Permutation [milk_fields; call_fields; bread_fields] shown
       /\ forall t,
            filter (row_at_time (R := reference_runtime) t) shown
            = filter (row_at_time (R := reference_runtime) t)
                [milk_fields; call_fields; bread_fields].
Proof.
  assert (H1 : loadNotes (R := reference_runtime) tied_world
               = (Return (map record_of [milk_fields; call_fields; bread_fields]),
                  tied_world))
    by reflexivity.
  assert (H2 : [milk_fields; call_fields; bread_fields] <> []) by discriminate.
  assert (H3 : forall r, In r [milk_fields; call_fields; bread_fields] ->
                         exists t, row_time (R := reference_runtime) r = Some t).
  { intros r [<-|[<-|[<-|[]]]]; eexists; reflexivity. }
  split; [exact H1|]. split; [exact H2|]. split; [exact H3|].
  split; [reflexivity|].
  exact (listNotes_keeps_order_of_equal_dates (R := reference_runtime)
           _ _ _ H1 H2 H3).
Defined.

(** C7, on a store with a note whose [created_at] is the string
    [not-a-date]: the date is invalid, [listNotes] runs to its end, and
    every line it prints is an ordinary one; no warning is printed.
    ([new Date] of an unparseable string does not throw, so the [catch] of
    the comparator is not entered.) *)
Theorem listNotes_silent_on_unparseable_date :
  created_time garbled_note = None
  /\ fst (listNotes (R := reference_runtime) garbled_world) = Return tt
  /\ Forall (fun entry => fst entry = Log)
            (console (snd (listNotes (R := reference_runtime) garbled_world))).
Proof.
  split; [reflexivity|]. split; [reflexivity|].
  vm_compute. repeat constructor.
Qed.

(* ===================================================================== *)
(** ** [JSON.parse] reads back what [JSON.stringify] wrote *)
(* ===================================================================== *)

Section RoundTrip.
Context {R : Runtime}.

(** Induction on values, with the hypothesis for every element and every
    property value. *)
Lemma value_ind' (P : value -> Prop) :
  P VNull -> (forall b, P (VBool b)) -> (forall n, P (VNum n)) ->
  (forall s, P (VStr s)) ->
  (forall elems named,
      Forall P elems -> Forall (fun kv => P (snd kv)) named ->
      P (VArr elems named)) ->
  (forall props, Forall (fun kv => P (snd kv)) props -> P (VObj props)) ->
  forall v, P v.
Proof.
  intros Hnull Hbool Hnum Hstr Harr Hobj.
  fix IH 1. intros v. destruct v as [|b|n|s|elems named|props].
  - exact Hnull.
  - apply Hbool.
  - apply Hnum.
  - apply Hstr.
  - apply Harr.
    + induction elems as [|e es IHes]; constructor; [apply IH|exact IHes].
    + induction named as [|[k x] ps IHps]; constructor; [apply IH|exact IHps].
  - apply Hobj.
    induction props as [|[k x] ps IHps]; constructor; [apply IH|exact IHps].
Qed.

(** *** Strings *)

(** Induction along the way [quote_body] walks a string: by surrogate
    pairs, lone surrogates and other code units. *)
Lemma surrogate_ind (P : jsstring -> Prop) :
  P [] ->
  (forall c, is_lead_surrogate c = true -> P [c]) ->
  (forall c d s, is_lead_surrogate c = true -> is_trail_surrogate d = true ->
                 P s -> P (c :: d :: s)) ->
  (forall c d s, is_lead_surrogate c = true -> is_trail_surrogate d = false ->
                 P (d :: s) -> P (c :: d :: s)) ->
  (forall c s, is_lead_surrogate c = false -> P s -> P (c :: s)) ->
  forall s, P s.
Proof.
  intros Hnil Hlast Hpair Hlone Hother s.
  enough (H : P s /\ forall c, P (c :: s)) by apply H.
  induction s as [|d s [IH1 IH2]].
  - split; [exact Hnil|]. intros c.
    destruct (is_lead_surrogate c) eqn:E; [now apply Hlast|now apply Hother].
  - split; [apply IH2|]. intros c.
    destruct (is_lead_surrogate c) eqn:E; [|now apply Hother].
    destruct (is_trail_surrogate d) eqn:E'; [now apply Hpair|now apply Hlone].
Qed.

Lemma hex_value_hex_digit n :
  (n < 16)%N -> hex_value (hex_digit n) = Some n.
Proof.
  intros H. unfold hex_value, hex_digit, is_digit.
  split_comparisons; cbn [andb]; split_comparisons; cbn [andb]; try lia; f_equal; lia.
Qed.

Lemma parse_chars_unicode_escape c tail :
  (c < 65536)%N ->
  parse_chars (unicode_escape c ++ tail)
  = match parse_chars tail with
    | Some (t, r) => Some (c :: t, r)
    | None => None
    end.
Proof.
  intros Hc. unfold unicode_escape. cbn [app parse_chars].
  change (BACKSLASH =? DQUOTE)%N with false.
  change (BACKSLASH =? BACKSLASH)%N with true.
  change (117 =? 117)%N with true. cbv beta iota.
  rewrite !hex_value_hex_digit by (apply N.mod_lt; discriminate).
  destruct (parse_chars tail) as [[t r]|]; [|reflexivity].
  do 2 f_equal. f_equal.
  zify. Z.to_euclidean_division_equations. lia.
Qed.

Lemma parse_chars_ordinary c tail :
  c <> DQUOTE -> c <> BACKSLASH -> (32 <= c)%N ->
  parse_chars (c :: tail)
  = match parse_chars tail with
    | Some (t, r) => Some (c :: t, r)
    | None => None
    end.
Proof.
  intros H1 H2 H3. cbn [parse_chars].
  destruct (N.eqb_spec c DQUOTE); [contradiction|].
  destruct (N.eqb_spec c BACKSLASH); [contradiction|].
  destruct (N.ltb_spec c 32); [lia|reflexivity].
Qed.

Lemma lead_surrogate_range c :
  is_lead_surrogate c = true -> (55296 <= c <= 56319)%N.
Proof. unfold is_lead_surrogate. split_comparisons; cbn; try discriminate; lia. Qed.

Lemma trail_surrogate_range c :
  is_trail_surrogate c = true -> (56320 <= c <= 57343)%N.
Proof. unfold is_trail_surrogate. split_comparisons; cbn; try discriminate; lia. Qed.

Lemma parse_chars_quote_unit c tail :
  is_lead_surrogate c = false -> is_trail_surrogate c = false ->
  parse_chars (quote_unit c ++ tail)
  = match parse_chars tail with
    | Some (t, r) => Some (c :: t, r)
    | None => None
    end.
Proof.
  intros Hl Ht. unfold quote_unit.
  destruct (N.eqb_spec c 8) as [->|]; [reflexivity|].
  destruct (N.eqb_spec c 9) as [->|]; [reflexivity|].
  destruct (N.eqb_spec c 10) as [->|]; [reflexivity|].
  destruct (N.eqb_spec c 12) as [->|]; [reflexivity|].
  destruct (N.eqb_spec c 13) as [->|]; [reflexivity|].
  destruct (N.eqb_spec c DQUOTE) as [->|]; [reflexivity|].
  destruct (N.eqb_spec c BACKSLASH) as [->|]; [reflexivity|].
  destruct (N.ltb_spec c 32).
  - apply parse_chars_unicode_escape. lia.
  - now apply parse_chars_ordinary.
Qed.

(** A quoted string reads back as the string. *)
Lemma parse_chars_quote_body s : forall rest,
  parse_chars (quote_body s ++ DQUOTE :: rest) = Some (s, rest).
Proof.
  induction s as [|c Hc|c d s Hc Hd IH|c d s Hc Hd IH|c s Hc IH] using surrogate_ind;
    intros rest.
  - reflexivity.
  - cbn [quote_body]. rewrite Hc.
    apply lead_surrogate_range in Hc.
    rewrite parse_chars_unicode_escape by lia. reflexivity.
  - cbn [quote_body]. rewrite Hc, Hd. cbn [app].
    apply lead_surrogate_range in Hc. apply trail_surrogate_range in Hd.
    rewrite parse_chars_ordinary by (unfold DQUOTE, BACKSLASH; lia).
    rewrite parse_chars_ordinary by (unfold DQUOTE, BACKSLASH; lia).
    now rewrite IH.
  - change (quote_body (c :: d :: s))
      with (if is_lead_surrogate c
            then if is_trail_surrogate d then c :: d :: quote_body s
                 else unicode_escape c ++ quote_body (d :: s)
            else if is_trail_surrogate c then unicode_escape c ++ quote_body (d :: s)
                 else quote_unit c ++ quote_body (d :: s)).
    rewrite Hc, Hd. rewrite <- app_assoc.
    apply lead_surrogate_range in Hc.
    rewrite parse_chars_unicode_escape by lia. now rewrite IH.
  - cbn [quote_body]. rewrite Hc.
    destruct (is_trail_surrogate c) eqn:Ht; rewrite <- app_assoc.
    + apply trail_surrogate_range in Ht.
      rewrite parse_chars_unicode_escape by lia. now rewrite IH.
    + rewrite parse_chars_quote_unit by assumption. now rewrite IH.
Qed.

(** *** White space, literals, property lists *)

Lemma skip_ws_blank ws : forall tail,
  blank ws -> skip_ws (ws ++ tail) = skip_ws tail.
Proof.
  induction ws as [|c ws IH]; intros tail Hb; [reflexivity|].
  inversion Hb as [|? ? Hc Hb']; subst. cbn [app skip_ws]. rewrite Hc. now apply IH.
Qed.

Lemma skip_ws_stop c tail : is_ws c = false -> skip_ws (c :: tail) = c :: tail.
Proof. intros H. cbn [skip_ws]. now rewrite H. Qed.

Lemma blank_app a b : blank a -> blank b -> blank (a ++ b).
Proof. intros Ha Hb. apply Forall_app. now split. Qed.

Lemma blank_four_spaces : blank four_spaces.
Proof. repeat constructor. Qed.

Lemma parse_value_blank ws g tail :
  blank ws -> parse_value g (ws ++ tail) = parse_value g tail.
Proof.
  intros Hb. destruct g as [|f]; [reflexivity|].
  cbn [parse_value]. now rewrite skip_ws_blank.
Qed.

Lemma lookup_absent k props :
  ~ In k (map fst props) -> lookup k props = None.
Proof.
  induction props as [|[k' v] props IH]; intros H; [reflexivity|].
  cbn [lookup]. destruct (jsstring_eqb k k') eqn:E.
  - apply jsstring_eqb_eq in E. subst. exfalso. apply H. now left.
  - apply IH. intros Hin. apply H. now right.
Qed.

(** Distinct keys, none of them an index, are enumerated as written. *)
Lemma fold_obj_set props : forall acc,
  NoDup (map fst (acc ++ props)) ->
  Forall (fun kv => array_index_of (fst kv) = None) props ->
  fold_left (fun acc kv => obj_set (fst kv) (snd kv) acc) props acc
  = acc ++ props.
Proof.
  induction props as [|[k v] props IH]; intros acc Hnd Hni.
  - now rewrite app_nil_r.
  - inversion Hni as [|? ? Hk Hni']; subst. cbn [fold_left fst snd].
    assert (Hacc : ~ In k (map fst acc)).
    { rewrite map_app in Hnd. cbn [map fst] in Hnd.
      apply NoDup_remove_2 in Hnd. intros Hin. apply Hnd. apply in_or_app. now left. }
    unfold obj_set at 2. unfold has_key. rewrite lookup_absent by assumption.
    cbn [fst] in Hk. rewrite Hk.
    rewrite IH; [now rewrite <- app_assoc|now rewrite <- app_assoc|assumption].
Qed.

Lemma build_object_plain props :
  NoDup (map fst props) ->
  Forall (fun kv => array_index_of (fst kv) = None) props ->
  build_object props = VObj props.
Proof. intros. unfold build_object. now rewrite fold_obj_set. Qed.

Lemma JSON_stringify_4 v : JSON_stringify v 4 = serialize four_spaces [] v.
Proof. reflexivity. Qed.

(** The text of a non-empty array or object. *)
Lemma serialize_array indent e es named :
  serialize four_spaces indent (VArr (e :: es) named)
  = LBRACKET :: NEWLINE :: (indent ++ four_spaces)
    ++ join (COMMA :: NEWLINE :: indent ++ four_spaces)
         (map (serialize four_spaces (indent ++ four_spaces)) (e :: es))
    ++ NEWLINE :: indent ++ [RBRACKET].
Proof. reflexivity. Qed.

Lemma serialize_object indent p ps :
  serialize four_spaces indent (VObj (p :: ps))
  = LBRACE :: NEWLINE :: (indent ++ four_spaces)
    ++ join (COMMA :: NEWLINE :: indent ++ four_spaces)
         (map (member_text (indent ++ four_spaces)) (p :: ps))
    ++ NEWLINE :: indent ++ [RBRACE].
Proof. reflexivity. Qed.

(** Every plain value is written starting with a character that is
    neither white space nor a closing bracket. *)
Lemma serialize_head v indent :
  plain v ->
  exists c tail,
    serialize four_spaces indent v = c :: tail
    /\ is_ws c = false /\ c <> RBRACKET /\ c <> RBRACE.
Proof.
  intros Hp. destruct Hp as [|[]|s|[|e es] _|[|p ps] _ _ _];
    try rewrite serialize_array; try rewrite serialize_object;
    eexists; eexists; (split; [reflexivity|]); repeat split; discriminate.
Qed.

(** *** The parser, one step at a time *)

Lemma parse_value_string f tail :
  parse_value (S f) (DQUOTE :: tail)
  = match parse_chars tail with
    | Some (t, r) => Some (VStr t, r)
    | None => None
    end.
Proof. reflexivity. Qed.

Lemma parse_value_array f tail :
  parse_value (S f) (LBRACKET :: tail)
  = match skip_ws tail with
    | [] => None
    | c :: rest =>
        if (c =? RBRACKET)%N then Some (VArr [] [], rest)
        else match parse_elements f tail with
             | Some (vs, r) => Some (VArr vs [], r)
             | None => None
             end
    end.
Proof. reflexivity. Qed.

Lemma parse_value_object f tail :
  parse_value (S f) (LBRACE :: tail)
  = match skip_ws tail with
    | [] => None
    | c :: rest =>
        if (c =? RBRACE)%N then Some (VObj [], rest)
        else match parse_members f tail with
             | Some (ms, r) => Some (build_object ms, r)
             | None => None
             end
    end.
Proof. reflexivity. Qed.

Lemma parse_elements_step f s :
  parse_elements (S f) s
  = match parse_value f s with
    | Some (v, r) =>
        match skip_ws r with
        | [] => None
        | c :: r' =>
            if (c =? COMMA)%N then
              match parse_elements f r' with
              | Some (vs, r'') => Some (v :: vs, r'')
              | None => None
              end
            else if (c =? RBRACKET)%N then Some ([v], r')
            else None
        end
    | None => None
    end.
Proof. reflexivity. Qed.

Lemma parse_members_step f k tail :
  parse_members (S f) (QuoteJSONString k ++ COLON :: tail)
  = match parse_value f tail with
    | Some (v, r3) =>
        match skip_ws r3 with
        | [] => None
        | c3 :: r4 =>
            if (c3 =? COMMA)%N then
              match parse_members f r4 with
              | Some (ms, r5) => Some ((k, v) :: ms, r5)
              | None => None
              end
            else if (c3 =? RBRACE)%N then Some ([(k, v)], r4)
            else None
        end
    | None => None
    end.
Proof.
  unfold QuoteJSONString. cbn [app]. rewrite <- app_assoc. cbn [app].
  change (parse_members (S f) (DQUOTE :: quote_body k ++ DQUOTE :: COLON :: tail))
    with (match parse_chars (quote_body k ++ DQUOTE :: COLON :: tail) with
          | Some (k, r1) =>
              match skip_ws r1 with
              | [] => None
              | c1 :: r2 =>
                  if (c1 =? COLON)%N then
                    match parse_value f r2 with
                    | Some (v, r3) =>
                        match skip_ws r3 with
                        | [] => None
                        | c3 :: r4 =>
                            if (c3 =? COMMA)%N then
                              match parse_members f r4 with
                              | Some (ms, r5) => Some ((k, v) :: ms, r5)
                              | None => None
                              end
                            else if (c3 =? RBRACE)%N then Some ([(k, v)], r4)
                            else None
                        end
                    | None => None
                    end
                  else None
              end
          | None => None
          end).
  rewrite parse_chars_quote_body. reflexivity.
Qed.

Lemma parse_members_blank ws g tail :
  blank ws -> parse_members g (ws ++ tail) = parse_members g tail.
Proof.
  intros Hb. destruct g as [|f]; [reflexivity|].
  cbn [parse_members]. now rewrite skip_ws_blank.
Qed.

Lemma parse_elements_join indent stepback rest : forall elems g,
  blank indent -> blank stepback ->
  elems <> [] -> Forall plain elems -> Forall reads_back elems ->
  let text :=
    NEWLINE :: indent
    ++ join (COMMA :: NEWLINE :: indent) (map (serialize four_spaces indent) elems)
    ++ NEWLINE :: stepback ++ RBRACKET :: rest in
  2 * length text + 2 <= g ->
  parse_elements g text = Some (elems, rest).
Proof.
  induction elems as [|e es IH]; intros g Hi Hs Hne Hpl Hrb text Hg; [congruence|].
  inversion Hpl as [|? ? Hpe Hpl']; subst. inversion Hrb as [|? ? He Hrb']; subst.
  destruct g as [|f]; [lia|]. rewrite parse_elements_step.
  unfold text. change (NEWLINE :: indent ++ ?x) with ((NEWLINE :: indent) ++ x).
  assert (Hb : blank (NEWLINE :: indent)) by (constructor; [reflexivity|assumption]).
  rewrite parse_value_blank by assumption.
  destruct es as [|e' es'].
  - cbn [map join]. rewrite He.
    + change (NEWLINE :: stepback ++ ?x) with ((NEWLINE :: stepback) ++ x).
      rewrite skip_ws_blank by (constructor; [reflexivity|assumption]).
      reflexivity.
    + assumption.
    + unfold text in Hg. cbn [map join] in Hg. cbn [length] in Hg.
      rewrite !length_app in *. cbn [length] in *. rewrite !length_app in *. lia.
  - change (join ?sep (map ?f (e :: e' :: es')))
      with (f e ++ sep ++ join sep (map f (e' :: es'))).
    rewrite <- !app_assoc. rewrite He.
    + cbn [app]. rewrite skip_ws_stop by reflexivity.
      change (COMMA =? COMMA)%N with true. cbv beta iota.
      specialize (IH f Hi Hs ltac:(discriminate) Hpl' Hrb').
      cbv zeta in IH.
      rewrite IH; [reflexivity|].
      unfold text in Hg.
      change (join ?sep (map ?f (e :: e' :: es')))
        with (f e ++ sep ++ join sep (map f (e' :: es'))) in Hg.
      cbn [length app] in *. rewrite !length_app in *. cbn [length app] in *.
      rewrite !length_app in *. cbn [length] in *. rewrite ?length_app in *.
      cbn [length] in *. lia.
    + assumption.
    + unfold text in Hg.
      change (join ?sep (map ?f (e :: e' :: es')))
        with (f e ++ sep ++ join sep (map f (e' :: es'))) in Hg.
      cbn [length app] in *. rewrite !length_app in *. cbn [length app] in *.
      rewrite !length_app in *. cbn [length] in *. rewrite ?length_app in *.
      cbn [length] in *. lia.
Qed.

Lemma parse_members_join indent stepback rest : forall props g,
  blank indent -> blank stepback ->
  props <> [] ->
  Forall (fun kv => reads_back (snd kv)) props ->
  let text :=
    NEWLINE :: indent
    ++ join (COMMA :: NEWLINE :: indent) (map (member_text indent) props)
    ++ NEWLINE :: stepback ++ RBRACE :: rest in
  2 * length text + 2 <= g ->
  parse_members g text = Some (props, rest).
Proof.
  induction props as [|[k v] ps IH]; intros g Hi Hs Hne Hrb text Hg; [congruence|].
  inversion Hrb as [|? ? Hv Hrb']; subst. cbn [snd] in Hv.
  destruct g as [|f]; [lia|].
  unfold text. change (NEWLINE :: indent ++ ?x) with ((NEWLINE :: indent) ++ x).
  assert (Hb : blank (NEWLINE :: indent)) by (constructor; [reflexivity|assumption]).
  rewrite parse_members_blank by assumption.
  destruct ps as [|p' ps'].
  - cbn [map join]. unfold member_text. cbn [fst snd].
    rewrite <- !app_assoc. cbn [app]. rewrite parse_members_step.
    change (SPACE :: ?x) with ([SPACE] ++ x).
    rewrite parse_value_blank by (repeat constructor). rewrite Hv.
    + change (NEWLINE :: stepback ++ ?x) with ((NEWLINE :: stepback) ++ x).
      rewrite skip_ws_blank by (constructor; [reflexivity|assumption]).
      reflexivity.
    + assumption.
    + unfold text in Hg. cbn [map join] in Hg. unfold member_text in Hg.
      cbn [fst snd length app] in *. rewrite !length_app in *.
      cbn [length app] in *. rewrite !length_app in *. cbn [length] in *. lia.
  - change (join ?sep (map ?f ((k, v) :: p' :: ps')))
      with (f (k, v) ++ sep ++ join sep (map f (p' :: ps'))).
    unfold member_text at 1. cbn [fst snd].
    rewrite <- !app_assoc. cbn [app]. rewrite parse_members_step.
    change (SPACE :: ?x) with ([SPACE] ++ x).
    rewrite parse_value_blank by (repeat constructor). rewrite Hv.
    + rewrite skip_ws_stop by reflexivity.
      change (COMMA =? COMMA)%N with true. cbv beta iota.
      specialize (IH f Hi Hs ltac:(discriminate) Hrb').
      cbv zeta in IH. rewrite IH; [reflexivity|].
      unfold text in Hg.
      change (join ?sep (map ?f ((k, v) :: p' :: ps')))
        with (f (k, v) ++ sep ++ join sep (map f (p' :: ps'))) in Hg.
      cbn [length app] in *. rewrite !length_app in *. cbn [length app] in *.
      rewrite !length_app in *. cbn [length] in *. rewrite ?length_app in *.
      cbn [length] in *. lia.
    + assumption.
    + unfold text in Hg.
      change (join ?sep (map ?f ((k, v) :: p' :: ps')))
        with (f (k, v) ++ sep ++ join sep (map f (p' :: ps'))) in Hg.
      unfold member_text at 1 in Hg. cbn [fst snd] in Hg.
      cbn [length app] in *. rewrite !length_app in *. cbn [length app] in *.
      rewrite !length_app in *. cbn [length] in *. rewrite ?length_app in *.
      cbn [length] in *. lia.
Qed.

(** Every plain value reads back. *)
Lemma plain_reads_back v : plain v -> reads_back v.
Proof.
  induction v as [|b|n|s|elems named IHe _|props IHp] using value_ind';
    intros Hp indent rest g Hi Hg.
  - destruct g; [lia|reflexivity].
  - destruct g; [lia|]. destruct b; reflexivity.
  - inversion Hp.
  - destruct g as [|f]; [lia|]. cbn [serialize]. unfold QuoteJSONString.
    cbn [app]. rewrite <- app_assoc. cbn [app].
    rewrite parse_value_string, parse_chars_quote_body. reflexivity.
  - inversion Hp as [| | |? Hpl|]; subst.
    assert (Hrb : Forall reads_back elems).
    { rewrite Forall_forall in *. intros e He. apply IHe; auto. }
    destruct g as [|f]; [lia|]. destruct elems as [|e es]; [reflexivity|].
    assert (Hi' : blank (indent ++ four_spaces))
      by (apply blank_app; [assumption|apply blank_four_spaces]).
    inversion Hpl as [|? ? Hpe _]; subst.
    destruct (serialize_head e (indent ++ four_spaces) Hpe)
      as (c & tail & Ec & Hc & Hc1 & Hc2).
    pose proof (parse_elements_join (indent ++ four_spaces) indent rest
                  (e :: es) f Hi' Hi ltac:(discriminate) Hpl Hrb) as Hj.
    cbv zeta in Hj.
    rewrite serialize_array in *. set (ind' := indent ++ four_spaces) in *.
    cbn [app] in *. rewrite <- !app_assoc in *. cbn [app] in *.
    rewrite <- ?app_assoc in *. cbn [app] in *.
    rewrite parse_value_array.
    assert (Hskip : exists tail',
               skip_ws (NEWLINE :: ind'
                     ++ join (COMMA :: NEWLINE :: ind')
                          (map (serialize four_spaces ind') (e :: es))
                     ++ NEWLINE :: indent ++ RBRACKET :: rest)
               = c :: tail').
    { change (NEWLINE :: ind' ++ ?x) with ((NEWLINE :: ind') ++ x).
      rewrite skip_ws_blank by (constructor; [reflexivity|assumption]).
      destruct es; cbn [map join]; rewrite Ec; cbn [app];
        rewrite skip_ws_stop by assumption; eauto. }
    destruct Hskip as [tail' ->].
    destruct (N.eqb_spec c RBRACKET) as [|_]; [contradiction|].
    rewrite Hj; [reflexivity|].
    cbn [length] in *. lia.
  - inversion Hp as [| | | |? Hpl Hnd Hni]; subst.
    assert (Hrb : Forall (fun kv => reads_back (snd kv)) props).
    { rewrite Forall_forall in *. intros e He. apply IHp; auto. }
    destruct g as [|f]; [lia|]. destruct props as [|[k x] ps]; [reflexivity|].
    assert (Hi' : blank (indent ++ four_spaces))
      by (apply blank_app; [assumption|apply blank_four_spaces]).
    pose proof (parse_members_join (indent ++ four_spaces) indent rest
                  ((k, x) :: ps) f Hi' Hi ltac:(discriminate) Hrb) as Hj.
    cbv zeta in Hj.
    rewrite serialize_object in *. set (ind' := indent ++ four_spaces) in *.
    cbn [app] in *. rewrite <- !app_assoc in *. cbn [app] in *.
    rewrite <- ?app_assoc in *. cbn [app] in *.
    rewrite parse_value_object.
    assert (Hskip : exists tail,
               skip_ws (NEWLINE :: ind'
                     ++ join (COMMA :: NEWLINE :: ind')
                          (map (member_text ind') ((k, x) :: ps))
                     ++ NEWLINE :: indent ++ RBRACE :: rest)
               = DQUOTE :: tail).
    { change (NEWLINE :: ind' ++ ?y) with ((NEWLINE :: ind') ++ y).
      rewrite skip_ws_blank by (constructor; [reflexivity|assumption]).
      destruct ps; cbn [map join]; unfold member_text at 1, QuoteJSONString;
        cbn [fst snd app]; rewrite skip_ws_stop by reflexivity; eauto. }
    destruct Hskip as [tail ->].
    change (DQUOTE =? RBRACE)%N with false. cbv beta iota.
    rewrite Hj; [now rewrite build_object_plain|].
    cbn [length] in *. lia.
Qed.

(** [JSON.parse (JSON.stringify (v, null, 4))] is [v], for plain [v]. *)
Lemma JSON_parse_stringify v :
  plain v -> JSON_parse (JSON_stringify v 4) = Some v.
Proof.
  intros Hp. unfold JSON_parse. rewrite JSON_stringify_4.
  pose proof (plain_reads_back v Hp [] [] (2 * length (serialize four_spaces [] v) + 1)
                ltac:(constructor)) as H.
  rewrite app_nil_r in H. rewrite H by lia. reflexivity.
Qed.

End RoundTrip.

(* ===================================================================== *)
(** ** The fuel of the parser *)
(* ===================================================================== *)

Section ParserFuel.
Context {R : Runtime}.

(** Case analysis on every [match] of a hypothesis. *)
Ltac break_in H :=
  repeat match type of H with
         | context [match ?x with _ => _ end] =>
             destruct x eqn:?; try discriminate H
         end.

Lemma skip_ws_length s : length (skip_ws s) <= length s.
Proof.
  induction s as [|c s IH]; cbn [skip_ws length]; [lia|].
  destruct (is_ws c); cbn [length]; lia.
Qed.

Lemma parse_chars_length n : forall s t r,
  length s <= n -> parse_chars s = Some (t, r) -> length r < length s.
Proof.
  induction n as [|n IH]; intros s t r Hn H.
  - destruct s; [discriminate|cbn in Hn; lia].
  - destruct s as [|c s]; [discriminate|]. cbn [parse_chars] in H.
    cbn [length] in *.
    break_in H; try (injection H as <- <-); subst; cbn [length] in *;
      repeat match goal with
             | E : parse_chars _ = Some _ |- _ => apply IH in E; [|cbn [length] in *; lia]
             end; cbn [length] in *; try lia.
Qed.

Lemma span_digits_length s : forall ds r,
  span_digits s = (ds, r) -> length r <= length s.
Proof.
  induction s as [|c s IH]; intros ds r H; cbn [span_digits] in H.
  - injection H as <- <-. reflexivity.
  - destruct (is_digit c).
    + destruct (span_digits s) as [ds' r'] eqn:E. injection H as <- <-.
      specialize (IH _ _ eq_refl). cbn [length]. lia.
    + injection H as <- <-. reflexivity.
Qed.

Lemma strip_prefix_length lit : forall s r,
  strip_prefix lit s = Some r -> length s = length lit + length r.
Proof.
  induction lit as [|a lit IH]; intros s r H; cbn [strip_prefix] in H.
  - injection H as <-. reflexivity.
  - destruct s as [|b s]; [discriminate|]. destruct (a =? b)%N; [|discriminate].
    apply IH in H. cbn [length]. lia.
Qed.

Ltac length_facts :=
  repeat match goal with
         | E : span_digits _ = (_, _) |- _ => apply span_digits_length in E
         | E : strip_prefix _ _ = Some _ |- _ => apply strip_prefix_length in E
         end.

Ltac injections :=
  repeat match goal with
         | E : (_, _) = (_, _) |- _ => injection E as <- <-
         | E : Some _ = Some _ |- _ => injection E as <- <-
         end.

Lemma scan_int_length s i r : scan_int s = Some (i, r) -> length r < length s.
Proof.
  unfold scan_int. intros H. break_in H; injections; subst; length_facts;
    cbn [length] in *; lia.
Qed.

Lemma scan_frac_length s x r : scan_frac s = Some (x, r) -> length r <= length s.
Proof.
  unfold scan_frac. intros H. break_in H; injections; subst; length_facts;
    cbn [length] in *; lia.
Qed.

Lemma scan_exp_length s x r : scan_exp s = Some (x, r) -> length r <= length s.
Proof.
  unfold scan_exp. intros H. destruct s as [|c rest]; [injection H as <- <-; lia|].
  destruct ((c =? 101)%N || (c =? 69)%N); [|injection H as <- <-; lia].
  destruct (match rest with
            | [] => ([], rest)
            | d :: rest' =>
                if (d =? PLUS)%N || (d =? MINUS)%N then ([d], rest') else ([], rest)
            end) as [sign rest1] eqn:Es.
  assert (L : length rest1 <= length rest).
  { destruct rest as [|d rest']; [injection Es as <- <-; lia|].
    destruct ((d =? PLUS)%N || (d =? MINUS)%N); injection Es as <- <-;
      cbn [length]; lia. }
  destruct (span_digits rest1) as [ds r'] eqn:Ed. apply span_digits_length in Ed.
  destruct ds; [discriminate|]. injection H as <- <-. cbn [length]. lia.
Qed.

Lemma scan_number_length s tok r :
  scan_number s = Some (tok, r) -> length r < length s.
Proof.
  unfold scan_number. intros H.
  destruct (match s with
            | [] => ([], s)
            | c :: rest => if (c =? MINUS)%N then ([c], rest) else ([], s)
            end) as [sign s1] eqn:Es.
  assert (L1 : length s1 <= length s).
  { destruct s as [|c rest]; [injection Es as <- <-; lia|].
    destruct (c =? MINUS)%N; injection Es as <- <-; cbn [length]; lia. }
  destruct (scan_int s1) as [[i s2]|] eqn:Ei; [|discriminate].
  destruct (scan_frac s2) as [[x s3]|] eqn:Ef; [|discriminate].
  destruct (scan_exp s3) as [[e s4]|] eqn:Ee; [|discriminate].
  injection H as <- <-.
  apply scan_int_length in Ei. apply scan_frac_length in Ef.
  apply scan_exp_length in Ee. lia.
Qed.

Lemma skip_ws_cons s c rest :
  skip_ws s = c :: rest -> length rest < length s.
Proof. intros H. pose proof (skip_ws_length s) as L. rewrite H in L. cbn [length] in L. lia. Qed.

Lemma parse_consumes f :
  (forall s v r, parse_value f s = Some (v, r) -> length r < length s)
  /\ (forall s vs r, parse_elements f s = Some (vs, r) -> length r < length s)
  /\ (forall s ms r, parse_members f s = Some (ms, r) -> length r < length s).
Proof.
  induction f as [|f (IHv & IHe & IHm)]; [repeat split; discriminate|].
  repeat split; intros s x r H.
  - cbn [parse_value] in H. break_in H;
      repeat match goal with
             | E : Some _ = Some _ |- _ => injection E as <- <-
             | E : skip_ws _ = _ :: _ |- _ => apply skip_ws_cons in E
             | E : parse_chars _ = Some _ |- _ => apply (parse_chars_length _ _ _ _ (le_n _)) in E
             | E : scan_number _ = Some _ |- _ => apply scan_number_length in E
             | E : parse_elements f _ = Some _ |- _ => apply IHe in E
             | E : parse_members f _ = Some _ |- _ => apply IHm in E
             | E : strip_prefix _ _ = Some _ |- _ => apply strip_prefix_length in E
             end; subst;
      try change (length (str "null")) with 4 in *;
      try change (length (str "true")) with 4 in *;
      try change (length (str "false")) with 5 in *;
      cbn [length] in *; try lia.
  - rewrite parse_elements_step in H. break_in H;
      repeat match goal with
             | E : Some _ = Some _ |- _ => injection E as <- <-
             | E : skip_ws _ = _ :: _ |- _ => apply skip_ws_cons in E
             | E : parse_value f _ = Some _ |- _ => apply IHv in E
             | E : parse_elements f _ = Some _ |- _ => apply IHe in E
             end; subst; cbn [length] in *; try lia.
  - cbn [parse_members] in H. break_in H;
      repeat match goal with
             | E : Some _ = Some _ |- _ => injection E as <- <-
             | E : skip_ws _ = _ :: _ |- _ => apply skip_ws_cons in E
             | E : parse_chars _ = Some _ |- _ => apply (parse_chars_length _ _ _ _ (le_n _)) in E
             | E : parse_value f _ = Some _ |- _ => apply IHv in E
             | E : parse_members f _ = Some _ |- _ => apply IHm in E
             end; subst; cbn [length] in *; try lia.
Qed.

(** Fuel beyond twice the length of the text changes nothing. *)
Lemma parse_fuel_enough f :
  (forall s x, parse_value f s = Some x ->
     forall g, 2 * length s + 1 <= g -> parse_value g s = Some x)
  /\ (forall s x, parse_elements f s = Some x ->
     forall g, 2 * length s + 2 <= g -> parse_elements g s = Some x)
  /\ (forall s x, parse_members f s = Some x ->
     forall g, 2 * length s + 2 <= g -> parse_members g s = Some x).
Proof.
  induction f as [|f (IHv & IHe & IHm)]; [repeat split; discriminate|].
  destruct (parse_consumes f) as (Cv & Ce & Cm).
  repeat split; intros s x H g Hg; (destruct g as [|g]; [lia|]).
  - cbn [parse_value] in *.
    destruct (skip_ws s) as [|c rest] eqn:Es; [discriminate|].
    apply skip_ws_cons in Es.
    repeat match type of H with
           | context [if ?b then _ else _] => destruct b
           end; try exact H.
    + destruct (skip_ws rest) as [|c' rest'] eqn:Es'; [discriminate|].
      destruct (c' =? RBRACKET)%N; [exact H|].
      destruct (parse_elements f rest) as [[vs r]|] eqn:E; [|discriminate].
      rewrite (IHe _ _ E g) by lia. exact H.
    + destruct (skip_ws rest) as [|c' rest'] eqn:Es'; [discriminate|].
      destruct (c' =? RBRACE)%N; [exact H|].
      destruct (parse_members f rest) as [[ms r]|] eqn:E; [|discriminate].
      rewrite (IHm _ _ E g) by lia. exact H.
  - rewrite parse_elements_step in *.
    destruct (parse_value f s) as [[v r]|] eqn:E; [|discriminate].
    rewrite (IHv _ _ E g) by lia. apply Cv in E.
    destruct (skip_ws r) as [|c r'] eqn:Es; [discriminate|].
    apply skip_ws_cons in Es.
    destruct (c =? COMMA)%N; [|exact H].
    destruct (parse_elements f r') as [[vs r'']|] eqn:E'; [|discriminate].
    rewrite (IHe _ _ E' g) by lia. exact H.
  - cbn [parse_members] in *.
    destruct (skip_ws s) as [|q r0] eqn:Es; [discriminate|].
    apply skip_ws_cons in Es.
    destruct (q =? DQUOTE)%N; [|discriminate].
    destruct (parse_chars r0) as [[k r1]|] eqn:Ek; [|discriminate].
    apply (parse_chars_length _ _ _ _ (le_n _)) in Ek.
    destruct (skip_ws r1) as [|c1 r2] eqn:Es1; [discriminate|].
    apply skip_ws_cons in Es1.
    destruct (c1 =? COLON)%N; [|discriminate].
    destruct (parse_value f r2) as [[v r3]|] eqn:E; [|discriminate].
    rewrite (IHv _ _ E g) by lia. apply Cv in E.
    destruct (skip_ws r3) as [|c3 r4] eqn:Es3; [discriminate|].
    apply skip_ws_cons in Es3.
    destruct (c3 =? COMMA)%N; [|exact H].
    destruct (parse_members f r4) as [[ms r5]|] eqn:E'; [|discriminate].
    rewrite (IHm _ _ E' g) by lia. exact H.
Qed.

(** If the parser, with whatever fuel, reads a value followed by nothing
    but white space, [JSON_parse] returns that value: its [None] is a
    syntax error, never a lack of fuel. *)
Lemma JSON_parse_complete f text v r :
  parse_value f text = Some (v, r) -> skip_ws r = [] ->
  JSON_parse text = Some v.
Proof.
  intros H Hr. unfold JSON_parse.
  destruct (parse_fuel_enough f) as (Hv & _ & _).
  rewrite (Hv _ _ H (2 * length text + 1)) by lia. now rewrite Hr.
Qed.
End ParserFuel.

(* ===================================================================== *)
(** ** [Date.parse] reads back what [toISOString] printed *)
(* ===================================================================== *)

Section DateRoundTrip.
Context {R : Runtime}.
Local Open Scope Z_scope.

Ltac div_lia := zify; Z.to_euclidean_division_equations; lia.

(** *** The calendar *)

Lemma year_of_era doe :
  0 <= doe <= 146096 ->
  let yoe := (doe - doe / 1460 + doe / 36524 - doe / 146096) / 365 in
  let doy := doe - (365 * yoe + yoe / 4 - yoe / 100) in
  0 <= yoe <= 399 /\ 0 <= doy <= 365.
Proof. intros H yoe doy. subst yoe doy. div_lia. Qed.

(** Day 365 of a year that starts in March is the 29th of February of a
    leap year. *)
Lemma leap_day doe era :
  0 <= doe <= 146096 ->
  let yoe := (doe - doe / 1460 + doe / 36524 - doe / 146096) / 365 in
  let doy := doe - (365 * yoe + yoe / 4 - yoe / 100) in
  doy = 365 -> is_leap (yoe + era * 400 + 1) = true.
Proof.
  intros H yoe doy Hd. subst doy.
  assert (A : (yoe + era * 400 + 1) mod 4 = 0
              /\ ((yoe + era * 400 + 1) mod 100 <> 0
                  \/ (yoe + era * 400 + 1) mod 400 = 0))
    by (subst yoe; div_lia).
  unfold is_leap. destruct A as [-> A]. cbn [Z.eqb andb].
  destruct (Z.eqb_spec ((yoe + era * 400 + 1) mod 100) 0) as [E|E];
    [|reflexivity].
  destruct A as [A | ->]; [contradiction|reflexivity].
Qed.

Lemma month_and_day doy :
  0 <= doy <= 365 ->
  let mp := (5 * doy + 2) / 153 in
  let d := doy - (153 * mp + 2) / 5 + 1 in
  let m := if mp <? 10 then mp + 3 else mp - 9 in
  1 <= m <= 12 /\ 1 <= d <= 31
  /\ (m = 2 -> d <= 29 /\ (d = 29 -> doy = 365))
  /\ (m = 4 \/ m = 6 \/ m = 9 \/ m = 11 -> d <= 30)
  /\ (if 2 <? m then m - 3 else m + 9) = mp.
Proof.
  intros H mp d m. subst mp d m.
  destruct (Z.ltb_spec ((5 * doy + 2) / 153) 10);
    [destruct (Z.ltb_spec 2 ((5 * doy + 2) / 153 + 3))
    |destruct (Z.ltb_spec 2 ((5 * doy + 2) / 153 - 9))]; div_lia.
Qed.

(** The date of a day number is a date of the calendar, and it is the date
    of that day only. *)
Lemma civil_from_days_spec z :
  let '(y, m, d) := civil_from_days z in
  1 <= m <= 12 /\ 1 <= d <= days_in_month y m /\ days_from_civil y m d = z.
Proof.
  unfold civil_from_days, civil_of_era_day.
  set (z' := z + 719468). set (era := z' / 146097).
  set (doe := z' - era * 146097).
  assert (Hdoe : 0 <= doe <= 146096) by (subst doe era; div_lia).
  pose proof (year_of_era doe Hdoe) as Hy. pose proof (leap_day doe era Hdoe) as Hl.
  cbv zeta in Hy, Hl.
  set (yoe := (doe - doe / 1460 + doe / 36524 - doe / 146096) / 365) in *.
  set (doy := doe - (365 * yoe + yoe / 4 - yoe / 100)) in *.
  destruct Hy as [Hyoe Hdoy].
  pose proof (month_and_day doy Hdoy) as Hm. cbv zeta in Hm.
  set (mp := (5 * doy + 2) / 153) in *.
  set (d := doy - (153 * mp + 2) / 5 + 1) in *.
  set (m := if mp <? 10 then mp + 3 else mp - 9) in *.
  destruct Hm as (Hm & Hd & Hfeb & H30 & Hmp).
  split; [exact Hm|]. split.
  - split; [lia|]. unfold days_in_month.
    destruct (Z.eqb_spec m 2) as [E2|E2].
    + destruct (Z.leb_spec m 2); [|lia].
      destruct (Hfeb E2) as [H29 Hleap].
      destruct (Z.eq_dec d 29) as [E29|E29].
      * rewrite (Hl (Hleap E29)). lia.
      * destruct (is_leap (yoe + era * 400 + 1)); lia.
    + destruct (Z.eqb_spec m 4), (Z.eqb_spec m 6), (Z.eqb_spec m 9),
        (Z.eqb_spec m 11); cbn [orb]; lia.
  - unfold days_from_civil, era_day_of_civil. rewrite Hmp.
    replace (if m <=? 2
             then (if m <=? 2 then yoe + era * 400 + 1 else yoe + era * 400) - 1
             else if m <=? 2 then yoe + era * 400 + 1 else yoe + era * 400)
      with (yoe + era * 400) by (destruct (m <=? 2); lia).
    replace ((yoe + era * 400) / 400) with era by div_lia.
    replace (yoe + era * 400 - era * 400) with yoe by lia.
    subst d doy doe z'. lia.
Qed.

(** The years of valid time values have at most six digits. *)
Lemma civil_from_days_year z :
  - 100000000 <= z <= 100000000 ->
  let '(y, m, d) := civil_from_days z in - 272000 <= y <= 276000.
Proof.
  intros Hz. unfold civil_from_days, civil_of_era_day.
  set (z' := z + 719468). set (era := z' / 146097).
  set (doe := z' - era * 146097).
  assert (Hdoe : 0 <= doe <= 146096) by (subst doe era; div_lia).
  pose proof (year_of_era doe Hdoe) as Hy. cbv zeta in Hy.
  set (yoe := (doe - doe / 1460 + doe / 36524 - doe / 146096) / 365) in *.
  assert (He : - 680 <= era <= 690) by (subst era z'; div_lia).
  destruct (_ <=? 2); lia.
Qed.

(** *** Fields of fixed width *)

Lemma is_digit_of_mod n : is_digit (48 + n mod 10)%N = true.
Proof.
  unfold is_digit. apply andb_true_iff. split; apply N.leb_le; div_lia.
Qed.

Lemma read_digits_last w : forall s acc,
  read_digits (S w) s acc
  = match read_digits w s acc with
    | Some (a, c :: r) =>
        if is_digit c then Some (10 * a + (Z.of_N c - 48), r) else None
    | _ => None
    end.
Proof.
  induction w as [|w IH]; intros s acc.
  - cbn [read_digits]. destruct s as [|c r]; [reflexivity|].
    destruct (is_digit c); reflexivity.
  - change (read_digits (S (S w)) s acc)
      with (match s with
            | c :: rest =>
                if is_digit c
                then read_digits (S w) rest (10 * acc + (Z.of_N c - 48))
                else None
            | [] => None
            end).
    destruct s as [|c r]; [reflexivity|]. cbn [read_digits].
    destruct (is_digit c); [|reflexivity]. apply IH.
Qed.

(** Reading a field of [w] digits gives the number printed in it. *)
Lemma read_pad_digits w : forall n acc rest,
  read_digits w (pad_digits w n ++ rest) acc
  = Some (acc * Z.of_N (10 ^ N.of_nat w) + Z.of_N (n mod 10 ^ N.of_nat w), rest).
Proof.
  induction w as [|w IH]; intros n acc rest.
  - cbn [pad_digits app read_digits]. do 2 f_equal.
    change (10 ^ N.of_nat 0)%N with 1%N. rewrite N.mod_1_r. lia.
  - rewrite read_digits_last. cbn [pad_digits]. rewrite <- app_assoc. cbn [app].
    rewrite IH, is_digit_of_mod. do 2 f_equal.
    rewrite Nat2N.inj_succ, N.pow_succ_r'.
    rewrite (N.Div0.mod_mul_r n 10 (10 ^ N.of_nat w)).
    rewrite !N2Z.inj_add, !N2Z.inj_mul.
    change (Z.of_N 48) with 48. change (Z.of_N 10) with 10. ring.
Qed.

Lemma read_pad w n rest :
  0 <= n < Z.of_N (10 ^ N.of_nat w) ->
  read_digits w (pad w n ++ rest) 0 = Some (n, rest).
Proof.
  intros H. unfold pad. rewrite read_pad_digits. do 2 f_equal.
  rewrite N.mod_small by lia. lia.
Qed.

Lemma read_pad_2 n rest :
  0 <= n < 100 -> read_digits 2 (pad 2 n ++ rest) 0 = Some (n, rest).
Proof. exact (read_pad 2 n rest). Qed.

Lemma read_pad_3 n rest :
  0 <= n < 1000 -> read_digits 3 (pad 3 n ++ rest) 0 = Some (n, rest).
Proof. exact (read_pad 3 n rest). Qed.

Lemma read_pad_4 n rest :
  0 <= n < 10000 -> read_digits 4 (pad 4 n ++ rest) 0 = Some (n, rest).
Proof. exact (read_pad 4 n rest). Qed.

Lemma read_pad_6 n rest :
  0 <= n < 1000000 -> read_digits 6 (pad 6 n ++ rest) 0 = Some (n, rest).
Proof. exact (read_pad 6 n rest). Qed.

Lemma read_year_iso y rest :
  - 999999 <= y <= 999999 -> read_year (iso_year y ++ rest) = Some (y, rest).
Proof.
  intros Hy. unfold iso_year.
  destruct (Z.leb_spec 0 y) as [H0|H0]; cbn [andb].
  - destruct (Z.leb_spec y 9999) as [H1|H1].
    + pose proof (read_pad_4 y rest ltac:(lia)) as E.
      unfold pad in *. cbn [pad_digits app] in *. unfold read_year.
      replace ((48 + Z.to_N y / 10 / 10 / 10 mod 10) =? PLUS)%N with false
        by (symmetry; apply N.eqb_neq; unfold PLUS; div_lia).
      replace ((48 + Z.to_N y / 10 / 10 / 10 mod 10) =? MINUS)%N with false
        by (symmetry; apply N.eqb_neq; unfold MINUS; div_lia).
      exact E.
    + destruct (Z.ltb_spec y 0); [lia|]. cbn [app read_year].
      change (PLUS =? PLUS)%N with true. cbv iota. apply read_pad_6. lia.
  - destruct (Z.ltb_spec y 0); [|lia]. cbn [app read_year].
    change (MINUS =? PLUS)%N with false. change (MINUS =? MINUS)%N with true.
    cbv iota. rewrite read_pad_6 by lia.
    destruct (Z.eqb_spec (- y) 0); [lia|]. do 2 f_equal. lia.
Qed.

Lemma expect_cons c rest : expect c (c :: rest) = Some rest.
Proof. cbn [expect]. now rewrite N.eqb_refl. Qed.

(** *** The round trip *)

Lemma parse_iso_toISOString t :
  valid_time t -> parse_iso (Date_toISOString t) = Some t.
Proof.
  intros Ht. unfold valid_time, maxTime in Ht. unfold Date_toISOString.
  set (day := t / msPerDay). set (ms := t mod msPerDay).
  assert (Hday : - 100000000 <= day <= 100000000)
    by (subst day; unfold msPerDay; div_lia).
  assert (Hms : 0 <= ms < 86400000) by (subst ms; unfold msPerDay; div_lia).
  pose proof (civil_from_days_spec day) as Hc.
  pose proof (civil_from_days_year day Hday) as Hy.
  destruct (civil_from_days day) as [[y m] d]. destruct Hc as (Hm & Hd & Hback).
  assert (Hd31 : d <= 31).
  { unfold days_in_month in Hd.
    destruct (m =? 2); [destruct (is_leap y)|destruct (_ || _)%bool]; lia. }
  unfold parse_iso.
  rewrite read_year_iso by lia. cbn [app]. rewrite expect_cons.
  rewrite read_pad_2 by lia. cbn [app]. rewrite expect_cons.
  rewrite read_pad_2 by lia. cbn [app]. rewrite expect_cons.
  rewrite read_pad_2 by div_lia. cbn [app]. rewrite expect_cons.
  rewrite read_pad_2 by div_lia. cbn [app]. rewrite expect_cons.
  rewrite read_pad_2 by div_lia. cbn [app]. rewrite expect_cons.
  rewrite read_pad_3 by div_lia.
  assert (C : ((1 <=? m) && (m <=? 12) && (1 <=? d) && (d <=? days_in_month y m)
               && (ms / 3600000 <=? 23) && (ms / 60000 mod 60 <=? 59)
               && (ms / 1000 mod 60 <=? 59))%bool = true).
  { repeat (apply andb_true_iff; split); apply Z.leb_le; try lia; div_lia. }
  rewrite C, Hback.
  assert (E : day * msPerDay + ms / 3600000 * 3600000 + ms / 60000 mod 60 * 60000
              + ms / 1000 mod 60 * 1000 + ms mod 1000 = t)
    by (subst day ms; unfold msPerDay; div_lia).
  rewrite E.
  replace ((- maxTime <=? t) && (t <=? maxTime))%bool with true; [reflexivity|].
  symmetry. apply andb_true_iff. unfold maxTime. split; apply Z.leb_le; lia.
Qed.

(** The string [toISOString] gives for a valid time value parses back to
    that time value. *)
Lemma Date_parse_toISOString t :
  valid_time t -> Date_parse (Date_toISOString t) = Some t.
Proof. intros Ht. unfold Date_parse. now rewrite parse_iso_toISOString. Qed.

Lemma Date_toISOString_not_empty t : Date_toISOString t <> [].
Proof.
  unfold Date_toISOString. destruct (civil_from_days _) as [[y m] d].
  unfold iso_year.
  destruct ((0 <=? y) && (y <=? 9999))%bool; [|destruct (y <? 0)]; discriminate.
Qed.

End DateRoundTrip.

(* ===================================================================== *)
(** ** Saving and loading *)
(* ===================================================================== *)

Section Saving.
Context {R : Runtime}.

Lemma well_formed_app a b : well_formed a -> well_formed b -> well_formed (a ++ b).
Proof.
  induction 1; intros Hb; cbn [app];
    [assumption|apply wf_unit; auto|apply wf_pair; auto].
Qed.

Lemma toWellFormed_well_formed s : well_formed s -> toWellFormed s = s.
Proof.
  induction 1 as [|c s Hl Ht _ IH|c d s Hl Ht _ IH]; [reflexivity| |].
  - cbn [toWellFormed]. now rewrite Hl, Ht, IH.
  - cbn [toWellFormed]. now rewrite Hl, Ht, IH.
Qed.

Lemma well_formed_ascii s : Forall (fun c => (c < 128)%N) s -> well_formed s.
Proof.
  induction 1 as [|c s Hc _ IH]; constructor; auto;
    unfold is_lead_surrogate, is_trail_surrogate; split_comparisons; cbn; auto; lia.
Qed.

Lemma hex_digit_ascii n : (n < 16)%N -> (hex_digit n < 128)%N.
Proof. intros H. unfold hex_digit. split_comparisons; lia. Qed.

Lemma well_formed_unicode_escape c : well_formed (unicode_escape c).
Proof.
  apply well_formed_ascii. unfold unicode_escape.
  repeat constructor; try (apply hex_digit_ascii, N.mod_lt; discriminate).
Qed.

Lemma well_formed_quote_unit c :
  is_lead_surrogate c = false -> is_trail_surrogate c = false ->
  well_formed (quote_unit c).
Proof.
  intros Hl Ht. unfold quote_unit.
  repeat match goal with
         | |- context [if ?b then _ else _] => destruct b
         end;
    try apply well_formed_unicode_escape;
    try solve [apply well_formed_ascii; repeat constructor].
  apply wf_unit; auto. constructor.
Qed.

Lemma well_formed_quote_body s : well_formed (quote_body s).
Proof.
  induction s as [|c Hc|c d s Hc Hd IH|c d s Hc Hd IH|c s Hc IH] using surrogate_ind.
  - constructor.
  - cbn [quote_body]. rewrite Hc. apply well_formed_unicode_escape.
  - cbn [quote_body]. rewrite Hc, Hd. now apply wf_pair.
  - change (quote_body (c :: d :: s))
      with (if is_lead_surrogate c
            then if is_trail_surrogate d then c :: d :: quote_body s
                 else unicode_escape c ++ quote_body (d :: s)
            else if is_trail_surrogate c then unicode_escape c ++ quote_body (d :: s)
                 else quote_unit c ++ quote_body (d :: s)).
    rewrite Hc, Hd. apply well_formed_app; [apply well_formed_unicode_escape|assumption].
  - cbn [quote_body]. rewrite Hc.
    destruct (is_trail_surrogate c) eqn:Ht; apply well_formed_app; auto.
    + apply well_formed_unicode_escape.
    + now apply well_formed_quote_unit.
Qed.

Lemma well_formed_QuoteJSONString s : well_formed (QuoteJSONString s).
Proof.
  unfold QuoteJSONString. change (DQUOTE :: ?x) with ([DQUOTE] ++ x).
  repeat apply well_formed_app; try apply well_formed_quote_body;
    apply well_formed_ascii; repeat constructor.
Qed.

Lemma well_formed_blank s : blank s -> well_formed s.
Proof.
  intros Hb. apply well_formed_ascii. eapply Forall_impl; [|exact Hb].
  cbv beta. intros c Hc. unfold is_ws in Hc.
  split_comparisons; cbn in Hc; try lia; discriminate.
Qed.

Lemma well_formed_join sep parts :
  well_formed sep -> Forall well_formed parts -> well_formed (join sep parts).
Proof.
  intros Hs. induction 1 as [|p ps Hp _ IH]; [constructor|].
  destruct ps; [assumption|].
  change (well_formed (p ++ sep ++ join sep (j :: ps))).
  repeat apply well_formed_app; assumption.
Qed.

Lemma well_formed_cons_ascii c s : (c < 128)%N -> well_formed s -> well_formed (c :: s).
Proof.
  intros Hc Hs. change (c :: s) with ([c] ++ s).
  apply well_formed_app; [|assumption]. apply well_formed_ascii. now repeat constructor.
Qed.

(** The text of a value without numbers has no lone surrogate. *)
Lemma well_formed_serialize v : forall indent,
  number_free v -> blank indent -> well_formed (serialize four_spaces indent v).
Proof.
  induction v as [|b|n|s|elems named IHe _|props IHp] using value_ind';
    intros indent Hp Hi.
  - apply well_formed_ascii. repeat constructor.
  - destruct b; apply well_formed_ascii; repeat constructor.
  - inversion Hp.
  - apply well_formed_QuoteJSONString.
  - inversion Hp as [| | |? ? Hpl|]; subst.
    destruct elems as [|e es]; [apply well_formed_ascii; repeat constructor|].
    assert (Hi' : blank (indent ++ four_spaces))
      by (apply blank_app; [assumption|apply blank_four_spaces]).
    rewrite serialize_array. set (ind' := indent ++ four_spaces) in *.
    repeat (apply well_formed_cons_ascii; [reflexivity|]).
    apply well_formed_app; [now apply well_formed_blank|].
    apply well_formed_app.
    + apply well_formed_join.
      * repeat (apply well_formed_cons_ascii; [reflexivity|]). now apply well_formed_blank.
      * rewrite Forall_map. rewrite Forall_forall in *. intros x Hx. apply IHe; auto.
    + apply well_formed_cons_ascii; [reflexivity|].
      apply well_formed_app; [now apply well_formed_blank|].
      apply well_formed_ascii; repeat constructor.
  - inversion Hp as [| | | |? Hpl]; subst.
    destruct props as [|p ps]; [apply well_formed_ascii; repeat constructor|].
    assert (Hi' : blank (indent ++ four_spaces))
      by (apply blank_app; [assumption|apply blank_four_spaces]).
    rewrite serialize_object. set (ind' := indent ++ four_spaces) in *.
    repeat (apply well_formed_cons_ascii; [reflexivity|]).
    apply well_formed_app; [now apply well_formed_blank|].
    apply well_formed_app.
    + apply well_formed_join.
      * repeat (apply well_formed_cons_ascii; [reflexivity|]). now apply well_formed_blank.
      * rewrite Forall_map. rewrite Forall_forall in *. intros x Hx.
        unfold member_text. repeat apply well_formed_app.
        -- apply well_formed_QuoteJSONString.
        -- apply well_formed_ascii; repeat constructor.
        -- apply well_formed_ascii; repeat constructor.
        -- apply IHp; auto.
    + apply well_formed_cons_ascii; [reflexivity|].
      apply well_formed_app; [now apply well_formed_blank|].
      apply well_formed_ascii; repeat constructor.
Qed.

Lemma plain_number_free v : plain v -> number_free v.
Proof.
  induction v as [|b|n|s|elems named IHe _|props IHp] using value_ind';
    intros Hp; inversion Hp; subst; constructor;
    rewrite Forall_forall in *; auto.
Qed.

(** A text without numbers is in the file exactly as it was written. *)
Lemma written_number_free v w :
  number_free v ->
  written (JSON_stringify v 4) w
  = with_notesDir (Some (Some (Regular (JSON_stringify v 4)))) w.
Proof.
  intros Hp. unfold written. rewrite toWellFormed_well_formed; [reflexivity|].
  rewrite JSON_stringify_4. apply well_formed_serialize; [assumption|constructor].
Qed.

Lemma written_plain v w :
  plain v ->
  written (JSON_stringify v 4) w
  = with_notesDir (Some (Some (Regular (JSON_stringify v 4)))) w.
Proof. intros Hp. now apply written_number_free, plain_number_free. Qed.

Lemma note_of_well_formed id title description created_at :
  well_formed_note (note_of id title description created_at).
Proof.
  split.
  - unfold note_of. constructor.
    + repeat constructor.
    + cbn [map fst].
      repeat (constructor;
              [cbn [In]; intros H;
               repeat (destruct H as [H|H]; [vm_compute in H; discriminate H|]);
               exact H|]).
      constructor.
    + repeat constructor.
  - exists id, title, description, created_at. repeat split; reflexivity.
Qed.

Lemma note_of_identified id title description created_at :
  id <> [] -> created_at <> [] ->
  identified (note_of id title description created_at).
Proof.
  intros Hi Hc. split; cbn; intros [= H]; congruence.
Qed.

Lemma saveNotes_ready notes w :
  ready w ->
  saveNotes notes w
  = (Return tt,
     match writeFailure w with
     | None => written (JSON_stringify (VArr notes []) 4) (opened w)
     | Some e =>
         printed Error (str "An error occurred while saving notes: " ++ e)
                 (opened w)
     end).
Proof.
  intros Hr. unfold saveNotes. rewrite bind_eq.
  rewrite getNotesFilePath_ready by assumption.
  unfold try_catch, fs_writeFileSync. rewrite notesDir_opened.
  assert (Ho : writeFailure (opened w) = writeFailure w)
    by (unfold opened; destruct (notesDir w); reflexivity).
  rewrite Ho. destruct (writeFailure w); reflexivity.
Qed.

(** A note whose [id] and [created_at] are non-empty strings passes the
    normalization untouched, and nothing is read from the clock or the
    random source. *)
Lemma ensure_fields_identified note w :
  well_formed_note note -> identified note ->
  ensure_fields note w = (Return note, w).
Proof.
  intros [_ (id & t & d & c & Hid & _ & _ & Hc)] [Hi1 Hi2].
  assert (Hn : note <> VNull) by (intros ->; discriminate).
  rewrite ensure_fields_not_null by assumption.
  assert (H1 : with_created_at note w = note).
  { unfold with_created_at. rewrite Hc. destruct c; [congruence|reflexivity]. }
  unfold ensured, after_ensure. rewrite H1. unfold with_id. rewrite Hid, Hc.
  destruct c; [congruence|]. destruct id; [congruence|]. reflexivity.
Qed.

Lemma mapM_ensure_identified notes : forall w,
  Forall well_formed_note notes -> Forall identified notes ->
  mapM ensure_fields notes w = (Return notes, w).
Proof.
  induction notes as [|n ns IH]; intros w Hw Hi; [reflexivity|].
  inversion Hw; inversion Hi; subst. cbn [mapM].
  rewrite bind_eq, ensure_fields_identified by assumption.
  rewrite bind_eq, IH by assumption. reflexivity.
Qed.

(** C1: saving a sequence of well-formed notes (notes of the data model:
    the four fields are strings, [id] and [created_at] not empty) and then
    loading gives back the same sequence, whatever its length (the
    directory being available and the write not failing). *)
Theorem save_then_load notes w :
  ready w -> writeFailure w = None ->
  Forall well_formed_note notes -> Forall identified notes ->
  exists w1,
    saveNotes notes w = (Return tt, w1)
    /\ loadNotes w1 = (Return notes, w1).
Proof.
  intros Hr Hw Hwf Hid.
  assert (Hp : plain (VArr notes [])).
  { constructor. eapply Forall_impl; [|exact Hwf]. intros n Hn. apply Hn. }
  rewrite saveNotes_ready, Hw, written_plain by assumption.
  eexists. split; [reflexivity|].
  set (text := JSON_stringify (VArr notes []) 4).
  set (w1 := with_notesDir (Some (Some (Regular text))) (opened w)).
  assert (Hr1 : ready w1) by (intros H; discriminate H).
  assert (Ho : opened w1 = w1) by reflexivity.
  assert (Hne : text <> []) by (unfold text; destruct notes; discriminate).
  rewrite (loadNotes_parsed w1 text (VArr notes []) Hr1 eq_refl Hne
             (JSON_parse_stringify _ Hp)).
  unfold try_catch, call_map. rewrite Ho.
  now rewrite mapM_ensure_identified.
Qed.

(** *** The layout of the file *)

Lemma join_indented sep ind parts :
  parts <> [] ->
  ind ++ join (sep ++ ind) parts = join sep (map (fun p => ind ++ p) parts).
Proof.
  induction parts as [|p ps IH]; intros Hne; [congruence|].
  destruct ps as [|q qs]; [reflexivity|].
  change (join (sep ++ ind) (p :: q :: qs))
    with (p ++ (sep ++ ind) ++ join (sep ++ ind) (q :: qs)).
  change (join sep (map (fun p => ind ++ p) (p :: q :: qs)))
    with ((ind ++ p) ++ sep ++ join sep (map (fun p => ind ++ p) (q :: qs))).
  rewrite <- IH by discriminate. now rewrite <- !app_assoc.
Qed.

Lemma member_text_field indent kv :
  member_text indent (fst kv, VStr (snd kv))
  = QuoteJSONString (fst kv) ++ [COLON; SPACE] ++ QuoteJSONString (snd kv).
Proof. reflexivity. Qed.

Lemma serialize_record fields :
  fields <> [] ->
  four_spaces ++ serialize four_spaces four_spaces (record_of fields)
  = pretty_note fields.
Proof.
  intros Hne. unfold pretty_note.
  assert (E : serialize four_spaces four_spaces (record_of fields)
              = [LBRACE; NEWLINE]
                ++ ((four_spaces ++ four_spaces)
                    ++ join ([COMMA; NEWLINE] ++ (four_spaces ++ four_spaces))
                         (map (member_text (four_spaces ++ four_spaces))
                              (map (fun kv => (fst kv, VStr (snd kv))) fields)))
                ++ [NEWLINE] ++ four_spaces ++ [RBRACE]).
  { destruct fields as [|f fs]; [congruence|].
    unfold record_of. cbn [map]. rewrite serialize_object.
    cbn [app]. now rewrite <- !app_assoc. }
  rewrite E. rewrite join_indented
    by (destruct fields; [congruence|discriminate]).
  rewrite !map_map.
  rewrite (map_ext _ pretty_field); [reflexivity|].
  intros kv. rewrite member_text_field. reflexivity.
Qed.

Lemma stringify_records rows :
  Forall (fun fields => fields <> []) rows ->
  JSON_stringify (VArr (map record_of rows) []) 4 = pretty_store rows.
Proof.
  intros Hne. rewrite JSON_stringify_4. unfold pretty_store.
  destruct rows as [|r rs]; [reflexivity|].
  assert (E : serialize four_spaces [] (VArr (map record_of (r :: rs)) [])
              = [LBRACKET; NEWLINE]
                ++ (four_spaces
                    ++ join ([COMMA; NEWLINE] ++ four_spaces)
                         (map (serialize four_spaces four_spaces)
                              (map record_of (r :: rs))))
                ++ [NEWLINE; RBRACKET]).
  { cbn [map]. rewrite serialize_array. cbn [app]. now rewrite <- !app_assoc. }
  rewrite E. rewrite join_indented by discriminate.
  rewrite !map_map.
  rewrite (map_ext_in _ pretty_note); [reflexivity|].
  intros fields Hin. apply serialize_record.
  rewrite Forall_forall in Hne. now apply Hne.
Qed.

Lemma record_of_number_free fields : number_free (record_of fields).
Proof.
  unfold record_of. constructor. rewrite Forall_map.
  apply Forall_forall. intros kv _. constructor.
Qed.

(** What [createNote] leaves, given what [loadNotes] returned. *)
Lemma createNote_eq title description w notes w1 :
  loadNotes w = (Return notes, w1) -> writeFailure w = None ->
  let id := slice0 8 (uuid_of_bits (entropy w1 (entropyDraws w1))) in
  let now := Date_toISOString (clock w1 (clockReads w1)) in
  createNote title description w
  = (Return tt,
     printed Log (str "Note '" ++ title ++ str "' (ID: " ++ id
                  ++ str ") created successfully.")
       (written (JSON_stringify
                   (VArr (notes ++ [note_of id title description now]) []) 4)
                (tick_clock (tick_entropy w1)))).
Proof.
  intros Hl Hw id now.
  destruct (loadNotes_Return_world _ _ _ Hl) as (Hd & Hw1 & _).
  unfold createNote. rewrite bind_eq, Hl.
  rewrite bind_eq. unfold crypto_randomUUID at 1. cbv beta iota.
  rewrite bind_eq. unfold Date_now_toISOString at 1. cbv beta iota.
  rewrite bind_eq.
  rewrite (saveNotes_eq _ (tick_clock (tick_entropy w1)) (notesFile w))
    by (destruct w1; exact Hd).
  replace (writeFailure (tick_clock (tick_entropy w1))) with (@None jsstring)
    by (destruct w1; cbn in *; congruence).
  destruct w1; reflexivity.
Qed.

Lemma put_present k s fields :
  assoc k fields <> None ->
  replace_value k (VStr s) (map (fun kv => (fst kv, VStr (snd kv))) fields)
  = map (fun kv => (fst kv, VStr (snd kv))) (put k s fields).
Proof.
  induction fields as [|[k' s'] rest IH]; intros H; [now cbn in H|].
  cbn [map assoc put replace_value fst snd] in *.
  destruct (jsstring_eqb k k'); [reflexivity|].
  cbn [map fst snd]. now rewrite IH.
Qed.

Lemma put_absent k s fields :
  assoc k fields = None -> put k s fields = fields ++ [(k, s)].
Proof.
  induction fields as [|[k' s'] rest IH]; intros H; [reflexivity|].
  cbn [assoc put app] in *.
  destruct (jsstring_eqb k k'); [discriminate|]. now rewrite IH.
Qed.

Lemma set_prop_record k s fields :
  array_index_of k = None ->
  set_prop (record_of fields) k (VStr s) = record_of (put k s fields).
Proof.
  intros Hk. unfold record_of. cbn [set_prop]. f_equal.
  unfold obj_set, has_key. rewrite assoc_lookup.
  destruct (assoc k fields) eqn:E; cbn [option_map].
  - apply put_present. congruence.
  - rewrite Hk, put_absent by assumption. now rewrite map_app.
Qed.

Lemma truthy_record k fields :
  truthy (option_map VStr (assoc k fields))
  = match text_or (assoc k fields) [] with [] => false | _ :: _ => true end.
Proof. destruct (assoc k fields) as [[|c s]|]; reflexivity. Qed.

Lemma ensure_fields_record fields w :
  exists fields'',
    carried_over fields fields''
    /\ ensure_fields (record_of fields) w
       = (Return (record_of fields''), after_ensure (record_of fields) w).
Proof.
  rewrite ensure_fields_not_null by discriminate.
  unfold ensured.
  assert (H1 : exists fields', filled (str "created_at") fields fields'
                 /\ with_created_at (record_of fields) w = record_of fields').
  { unfold with_created_at, filled. rewrite get_prop_record, truthy_record.
    destruct (text_or (assoc (str "created_at") fields) []) eqn:E.
    - eexists. split; [|apply set_prop_record; reflexivity].
      eexists. split; [apply Date_toISOString_not_empty|reflexivity].
    - exists fields. now split. }
  destruct H1 as (fields' & Hf1 & ->).
  assert (H2 : exists fields'', filled (str "id") fields' fields''
                 /\ with_id (record_of fields') w = record_of fields'').
  { unfold with_id, filled. rewrite get_prop_record, truthy_record.
    destruct (text_or (assoc (str "id") fields') []) eqn:E.
    - eexists. split; [|apply set_prop_record; reflexivity].
      eexists. split; [|reflexivity]. discriminate.
    - exists fields'. now split. }
  destruct H2 as (fields'' & Hf2 & ->).
  exists fields''. split; [|reflexivity]. now exists fields'.
Qed.

Lemma mapM_ensure_records rows : forall w,
  exists kept w1,
    mapM ensure_fields (map record_of rows) w = (Return (map record_of kept), w1)
    /\ Forall2 carried_over rows kept.
Proof.
  induction rows as [|r rows IH]; intros w.
  - exists [], w. split; [reflexivity|constructor].
  - destruct (ensure_fields_record r w) as (r'' & Hc & E).
    destruct (IH (after_ensure (record_of r) w)) as (kept & w1 & E1 & HF).
    exists (r'' :: kept), w1. split; [|now constructor].
    cbn [map mapM]. rewrite bind_eq, E, bind_eq, E1. reflexivity.
Qed.

Lemma put_not_empty k s fields : put k s fields <> [].
Proof. destruct fields as [|[k' s'] rest]; cbn [put]; [discriminate|].
  destruct (jsstring_eqb k k'); discriminate. Qed.

Lemma filled_not_empty k fields fields' :
  fields <> [] -> filled k fields fields' -> fields' <> [].
Proof.
  unfold filled. intros Hne. destruct (text_or (assoc k fields) []).
  - intros (s & _ & ->). apply put_not_empty.
  - now intros ->.
Qed.

Lemma carried_over_not_empty fields fields'' :
  fields <> [] -> carried_over fields fields'' -> fields'' <> [].
Proof.
  intros Hne (fields' & H1 & H2).
  eapply filled_not_empty; [|exact H2]. eapply filled_not_empty; eauto.
Qed.

Lemma plain_record fields : plain_row fields -> plain (record_of fields).
Proof.
  intros (_ & Hnd & Hix). unfold record_of. constructor.
  - rewrite Forall_map. apply Forall_forall. intros kv _. constructor.
  - now rewrite map_map.
  - rewrite Forall_map. exact Hix.
Qed.

Lemma pretty_store_not_empty rows : pretty_store rows <> [].
Proof. destruct rows; discriminate. Qed.

(** C8, amended: [saveNotes] replaces the whole notes file by the notes it
    is given, pretty-printed with four spaces per level, each note with its
    keys in the order of the note's own properties.  So, when [createNote]
    runs on a store of notes whose fields are strings, the file it leaves
    holds the notes that were there, each with its keys in the order they
    had in the file (a [created_at] and then an [id] that were missing are
    put at the end, ones that were empty are filled in place), followed by
    the new note with its keys in the order [id], [title], [description],
    [created_at].  (The directory being available and the write not
    failing.) *)
Theorem saveNotes_pretty_prints rows w :
  ready w -> writeFailure w = None ->
  Forall (fun fields => fields <> []) rows ->
  saveNotes (map record_of rows) w
  = (Return tt,
     with_notesDir (Some (Some (Regular (pretty_store rows)))) (opened w))
  /\ forall title description,
       notesFile w = Some (Regular (pretty_store rows)) ->
       Forall plain_row rows ->
       exists kept w1,
         loadNotes w = (Return (map record_of kept), w1)
         /\ Forall2 carried_over rows kept
         /\ notesFile (snd (createNote title description w))
            = Some (Regular
                 (pretty_store (kept ++ [new_fields title description w1]))).
Proof.
  intros Hr Hw Hne. split.
  { rewrite saveNotes_ready, Hw by assumption.
    rewrite written_number_free.
    - now rewrite stringify_records.
    - constructor. rewrite Forall_map. apply Forall_forall.
      intros fields _. apply record_of_number_free. }
  intros title description Hf Hpl.
  assert (Hp : plain (VArr (map record_of rows) [])).
  { constructor. rewrite Forall_map. eapply Forall_impl; [|exact Hpl].
    intros fields. apply plain_record. }
  pose proof (JSON_parse_stringify _ Hp) as Hparse.
  rewrite stringify_records in Hparse by assumption.
  destruct (mapM_ensure_records rows (opened w)) as (kept & w1 & E & HF).
  assert (Hl : loadNotes w = (Return (map record_of kept), w1)).
  { rewrite (loadNotes_parsed w _ _ Hr Hf (pretty_store_not_empty rows) Hparse).
    unfold try_catch, call_map. now rewrite E. }
  exists kept, w1. split; [exact Hl|]. split; [exact HF|].
  rewrite (createNote_eq title description w _ w1 Hl Hw).
  rewrite written_number_free.
  - change (note_of (slice0 8 (uuid_of_bits (entropy w1 (entropyDraws w1))))
              title description (Date_toISOString (clock w1 (clockReads w1))))
      with (record_of (new_fields title description w1)).
    change [record_of (new_fields title description w1)]
      with (map record_of [new_fields title description w1]).
    rewrite <- map_app. rewrite stringify_records; [reflexivity|].
    apply Forall_app. split; [|repeat constructor; discriminate].
    clear - Hne HF. induction HF as [|a b l l' Hab _ IH]; [constructor|].
    inversion Hne; subst. constructor; [|now apply IH].
    eapply carried_over_not_empty; eauto.
  - constructor. apply Forall_app. split.
    + rewrite Forall_map. apply Forall_forall. intros fields _.
      apply record_of_number_free.
    + repeat constructor.
Qed.
End Saving.

Lemma save_then_load_witness :
  ready fresh_world
  /\ writeFailure fresh_world = None
  /\ Forall well_formed_note [milk_note; call_note]
  /\ Forall identified [milk_note; call_note]
  /\ exists w1,
       saveNotes (R := reference_runtime) [milk_note; call_note] fresh_world
       = (Return tt, w1)
       /\ loadNotes (R := reference_runtime) w1 = (Return [milk_note; call_note], w1).
Proof.
  assert (H1 : ready fresh_world) by (intros _; reflexivity).
  assert (H3 : Forall well_formed_note [milk_note; call_note])
    by (repeat (apply Forall_cons; [apply note_of_well_formed|]); apply Forall_nil).
  assert (H4 : Forall identified [milk_note; call_note])
    by (repeat (apply Forall_cons; [apply note_of_identified; discriminate|]);
        apply Forall_nil).
  split; [exact H1|]. split; [reflexivity|]. split; [exact H3|]. split; [exact H4|].
  exact (save_then_load (R := reference_runtime) _ _ H1 eq_refl H3 H4).
Defined.

(** C8, as stated, fails: a note loaded from an older file keeps the order
    of its own properties when the store is saved again.  After [create]
    on a store holding [{title: old}], the first note is written with the
    keys [title], [created_at], [id], not [id], [title], [description],
    [created_at]. *)
Lemma legacy_note_keeps_its_key_order :
  notesFile (snd (createNote (R := reference_runtime) (str "new") [] legacy_world))
  = Some (Regular (pretty_store
       [ [ (str "title", str "old");
           (str "created_at", str "2023-11-14T22:13:20.000Z");
           (str "id", str "00edc4e5") ];
         [ (str "id", str "01db89ca");
           (str "title", str "new");
           (str "description", []);
           (str "created_at", str "2023-11-14T22:13:21.000Z") ] ])).
Proof. reflexivity. Qed.

Lemma saveNotes_pretty_prints_witness :
  ready legacy_world
  /\ writeFailure legacy_world = None
  /\ Forall (fun fields => fields <> []) [ [ (str "title", str "old") ] ]
  /\ notesFile legacy_world
     = Some (Regular (pretty_store [ [ (str "title", str "old") ] ]))
  /\ Forall plain_row [ [ (str "title", str "old") ] ]
  /\ saveNotes (R := reference_runtime)
       (map (record_of (R := reference_runtime)) [ [ (str "title", str "old") ] ])
       legacy_world
     = (Return tt,
        with_notesDir
          (Some (Some (Regular (pretty_store [ [ (str "title", str "old") ] ]))))
          (opened (R := reference_runtime) legacy_world))
  /\ exists kept w1,
       loadNotes (R := reference_runtime) legacy_world
       = (Return (map record_of kept), w1)
       /\ Forall2 carried_over [ [ (str "title", str "old") ] ] kept
       /\ notesFile (snd (createNote (R := reference_runtime) (str "new") []
                            legacy_world))
          = Some (Regular
               (pretty_store (kept ++ [new_fields (str "new") [] w1]))).
Proof.
  assert (H1 : ready legacy_world) by (intros H; discriminate H).
  assert (H3 : Forall (fun fields : list (jsstring * jsstring) => fields <> [])
                 [ [ (str "title", str "old") ] ])
    by (apply Forall_cons; [discriminate|apply Forall_nil]).
  assert (H4 : notesFile legacy_world
               = Some (Regular (pretty_store [ [ (str "title", str "old") ] ])))
    by reflexivity.
  assert (H5 : Forall plain_row [ [ (str "title", str "old") ] ]).
  { apply Forall_cons; [|apply Forall_nil]. split; [discriminate|]. split.
    - apply NoDup_cons; [intros []|apply NoDup_nil].
    - apply Forall_cons; [reflexivity|apply Forall_nil]. }
  split; [exact H1|]. split; [reflexivity|]. split; [exact H3|].
  split; [exact H4|]. split; [exact H5|].
  exact (conj
           (proj1 (saveNotes_pretty_prints (R := reference_runtime) _
                     legacy_world H1 eq_refl H3))
           (proj2 (saveNotes_pretty_prints (R := reference_runtime) _
                     legacy_world H1 eq_refl H3)
              (str "new") [] H4 H5)).
Defined.

(* ===================================================================== *)
(** ** The normalization pass *)
(* ===================================================================== *)

Section Normalizing.
Context {R : Runtime}.

Lemma jsstring_eqb_refl a : jsstring_eqb a a = true.
Proof. now apply jsstring_eqb_eq. Qed.

Lemma jsstring_eqb_neq a b : a <> b -> jsstring_eqb a b = false.
Proof.
  intros H. destruct (jsstring_eqb a b) eqn:E; [|reflexivity].
  apply jsstring_eqb_eq in E. contradiction.
Qed.

Lemma lookup_replace_same k v props :
  has_key k props = true -> lookup k (replace_value k v props) = Some v.
Proof.
  unfold has_key. induction props as [|[k' v'] props IH]; cbn [lookup replace_value].
  - discriminate.
  - destruct (jsstring_eqb k k') eqn:E; cbn [lookup]; rewrite E; auto.
Qed.

Lemma lookup_replace_other k k' v props :
  k' <> k -> lookup k' (replace_value k v props) = lookup k' props.
Proof.
  intros Hne. induction props as [|[k0 v0] props IH]; cbn [lookup replace_value];
    [reflexivity|].
  destruct (jsstring_eqb k k0) eqn:E; cbn [lookup].
  - apply jsstring_eqb_eq in E. subst k0.
    now rewrite (jsstring_eqb_neq k' k Hne).
  - destruct (jsstring_eqb k' k0); auto.
Qed.

Lemma lookup_app_same k v props :
  has_key k props = false -> lookup k (props ++ [(k, v)]) = Some v.
Proof.
  unfold has_key. induction props as [|[k' v'] props IH]; cbn [lookup app].
  - now rewrite jsstring_eqb_refl.
  - destruct (jsstring_eqb k k'); [discriminate|auto].
Qed.

Lemma lookup_app_other k k' v props :
  k' <> k -> lookup k' (props ++ [(k, v)]) = lookup k' props.
Proof.
  intros Hne. induction props as [|[k0 v0] props IH]; cbn [lookup app].
  - now rewrite (jsstring_eqb_neq k' k Hne).
  - destruct (jsstring_eqb k' k0); auto.
Qed.

(** Setting a property whose name is not an index. *)
Lemma lookup_obj_set_same k v props :
  array_index_of k = None -> lookup k (obj_set k v props) = Some v.
Proof.
  intros Hk. unfold obj_set. rewrite Hk.
  destruct (has_key k props) eqn:E;
    [now apply lookup_replace_same|now apply lookup_app_same].
Qed.

Lemma lookup_obj_set_other k k' v props :
  array_index_of k = None -> k' <> k ->
  lookup k' (obj_set k v props) = lookup k' props.
Proof.
  intros Hk Hne. unfold obj_set. rewrite Hk.
  destruct (has_key k props);
    [now apply lookup_replace_other|now apply lookup_app_other].
Qed.

Lemma field_set_same v k x :
  is_record v = true -> array_index_of k = None ->
  field (set_prop v k x) k = Some x.
Proof.
  intros Hr Hk. destruct v; try discriminate; unfold field; cbn [set_prop get_prop];
    now apply lookup_obj_set_same.
Qed.

Lemma field_set_other v k k' x :
  array_index_of k = None -> k' <> k ->
  field (set_prop v k x) k' = field v k'.
Proof.
  intros Hk Hne. destruct v; try reflexivity; unfold field; cbn [set_prop get_prop];
    now apply lookup_obj_set_other.
Qed.

Lemma is_record_set_prop v k x : is_record (set_prop v k x) = is_record v.
Proof. destruct v; reflexivity. Qed.

Lemma field_get_prop v k : v <> VNull -> get_prop v k = Ok (field v k).
Proof. intros H. unfold field. destruct v; try reflexivity. congruence. Qed.

Lemma generated_id_length w k : length (generated_id w k) = 8.
Proof. reflexivity. Qed.

(** One element. *)
Lemma ensured_backfilled w0 w e :
  clock w = clock w0 -> entropy w = entropy w0 ->
  backfilled w0 (clockReads w) (clockReads (after_ensure e w))
             (entropyDraws w) (entropyDraws (after_ensure e w)) e (ensured e w).
Proof.
  intros Hc He. unfold backfilled. destruct (is_record e) eqn:Hrec;
    [|destruct e; try discriminate; reflexivity].
  assert (Hn : e <> VNull) by (intros ->; discriminate).
  assert (Kc : array_index_of (str "created_at") = None) by reflexivity.
  assert (Ki : array_index_of (str "id") = None) by reflexivity.
  assert (Kne : str "id" <> str "created_at") by (vm_compute; discriminate).
  unfold ensured, after_ensure, with_id, with_created_at.
  rewrite (field_get_prop e (str "created_at") Hn).
  destruct (truthy (field e (str "created_at"))) eqn:Tc.
  - rewrite (field_get_prop e (str "id") Hn).
    destruct (truthy (field e (str "id"))) eqn:Ti.
    + repeat split; auto.
    + split; [now rewrite is_record_set_prop|]. split.
      * apply field_set_other; auto; congruence.
      * exists (entropyDraws w). split; [destruct w; cbn; lia|].
        rewrite field_set_same by auto. unfold generated_id. now rewrite He.
  - set (e1 := set_prop e (str "created_at")
                 (VStr (Date_toISOString (clock w (clockReads w))))).
    assert (Hn1 : e1 <> VNull) by (apply set_prop_not_null; assumption).
    assert (Hr1 : is_record e1 = true) by (unfold e1; now rewrite is_record_set_prop).
    assert (Hi1 : field e1 (str "id") = field e (str "id"))
      by (apply field_set_other; auto).
    assert (Hc1 : field e1 (str "created_at")
                  = Some (VStr (Date_toISOString (clock w0 (clockReads w)))))
      by (unfold e1; rewrite field_set_same by auto; now rewrite Hc).
    rewrite (field_get_prop e1 (str "id") Hn1), Hi1.
    destruct (truthy (field e (str "id"))) eqn:Ti.
    + split; [assumption|]. split; [|assumption].
      exists (clockReads w). split; [destruct w; cbn; lia|assumption].
    + split; [now rewrite is_record_set_prop|]. split.
      * exists (clockReads w). split; [destruct w; cbn; lia|].
        rewrite field_set_other by (auto; congruence). assumption.
      * exists (entropyDraws w). split; [destruct w; cbn; lia|].
        rewrite field_set_same by auto. unfold generated_id. now rewrite He.
Qed.

Lemma backfilled_wider w first last lo hi first' last' lo' hi' e n :
  first' <= first -> last <= last' -> lo' <= lo -> hi <= hi' ->
  backfilled w first last lo hi e n -> backfilled w first' last' lo' hi' e n.
Proof.
  intros Hfirst Hlast Hlo Hhi. unfold backfilled. destruct (is_record e); [|auto].
  intros (H1 & H2 & H3). split; [assumption|]. split.
  - destruct (truthy (field e (str "created_at"))); [assumption|].
    destruct H2 as (k & Hk & E). exists k. split; [lia|assumption].
  - destruct (truthy (field e (str "id"))); [assumption|].
    destruct H3 as (k & Hk & E). exists k. split; [lia|assumption].
Qed.


Lemma backfilled_has_id_and_date w first last lo hi e n :
  backfilled w first last lo hi e n -> is_record n = true -> has_id_and_date n.
Proof.
  unfold backfilled. destruct (is_record e) eqn:Hrec.
  - intros (_ & Hc & Hi) _. split.
    + destruct (truthy (field e (str "id"))) eqn:T; [congruence|].
      destruct Hi as (k & _ & ->). reflexivity.
    + destruct (truthy (field e (str "created_at"))) eqn:T; [congruence|].
      destruct Hc as (k & _ & ->). cbn [truthy].
      destruct (Date_toISOString (clock w k)) eqn:E; [|reflexivity].
      now apply Date_toISOString_not_empty in E.
  - intros -> H. congruence.
Qed.

(** All elements, in order. *)
Lemma mapM_ensure_backfilled w0 elems : forall w,
  clock w = clock w0 -> entropy w = entropy w0 -> ~ In VNull elems ->
  exists notes w',
    mapM ensure_fields elems w = (Return notes, w')
    /\ Forall2 (backfilled w0 (clockReads w) (clockReads w')
                          (entropyDraws w) (entropyDraws w')) elems notes.
Proof.
  induction elems as [|x l IH]; intros w Hc He Hnin.
  - exists [], w. split; [reflexivity|constructor].
  - assert (Hx : x <> VNull) by (intros ->; apply Hnin; now left).
    cbn [mapM]. rewrite bind_eq, ensure_fields_not_null by assumption.
    cbv beta iota. rewrite bind_eq.
    pose proof (after_ensure_counters x w) as Hs.
    destruct Hs as (_ & _ & _ & _ & Hc' & He' & _ & Hmonoc & Hmono).
    destruct (IH (after_ensure x w)) as (notes & w' & E & HF).
    { congruence. } { congruence. } { intros H. apply Hnin. now right. }
    rewrite E. exists (ensured x w :: notes), w'. split; [reflexivity|].
    pose proof (mapM_counters _ _ _ _ E)
      as (_ & _ & _ & _ & _ & _ & _ & Hmonoc' & Hmono').
    constructor.
    + eapply backfilled_wider; [| | | |apply ensured_backfilled; eassumption]; lia.
    + eapply Forall2_impl; [|exact HF]. intros a b Hab.
      eapply backfilled_wider; [| | | |exact Hab]; lia.
Qed.

(** C5, amended: after the normalization pass every note that is an object
    has a truthy [id] and a truthy [created_at].  A [created_at] that was
    missing (or falsy) is the current time in ISO format (a reading of the
    clock taken during this load), which parses back to that time; an [id]
    that was missing (or falsy) is the first 8 characters of a fresh UUID
    (made from a reading of the random source taken during this load).  A
    [created_at] or [id] that was there is kept as it is, whether or not
    it is a date that parses. *)
Theorem loadNotes_backfills w text elems named :
  ready w -> notesFile w = Some (Regular text) -> text <> [] ->
  JSON_parse text = Some (VArr elems named) -> ~ In VNull elems ->
  exists notes w',
    loadNotes w = (Return notes, w')
    /\ Forall2 (backfilled w (clockReads w) (clockReads w')
                          (entropyDraws w) (entropyDraws w')) elems notes
    /\ Forall (fun n => is_record n = true -> has_id_and_date n) notes
    /\ (forall k, valid_time (clock w k) ->
                  Date_parse (Date_toISOString (clock w k)) = Some (clock w k))
    /\ (forall k, length (generated_id w k) = 8).
Proof.
  intros Hr Hf Hne Hp Hnin.
  rewrite (loadNotes_parsed w text _ Hr Hf Hne Hp). unfold try_catch, call_map.
  assert (Hc : clock (opened w) = clock w)
    by (unfold opened; destruct (notesDir w); reflexivity).
  assert (He : entropy (opened w) = entropy w)
    by (unfold opened; destruct (notesDir w); reflexivity).
  assert (Hd : entropyDraws (opened w) = entropyDraws w)
    by (unfold opened; destruct (notesDir w); reflexivity).
  assert (Hcr : clockReads (opened w) = clockReads w)
    by (unfold opened; destruct (notesDir w); reflexivity).
  destruct (mapM_ensure_backfilled w elems (opened w) Hc He Hnin)
    as (notes & w' & E & HF).
  rewrite E, Hd, Hcr in *. exists notes, w'. split; [reflexivity|].
  split; [exact HF|]. split; [|split].
  - clear E Hp Hnin. induction HF as [|e n es ns Hen _ IH]; [constructor|].
    constructor; [|exact IH].
    intros Hrec. eapply backfilled_has_id_and_date; eauto.
  - intros k Hk. now apply Date_parse_toISOString.
  - intros k. apply generated_id_length.
Qed.


Lemma notesFile_loadNotes w : notesFile (snd (loadNotes w)) = notesFile w.
Proof.
  destruct (ready_dec w) as [Hr|Hr].
  - rewrite loadNotes_ready by assumption.
    destruct (file_is_empty (notesFile w)); cbn [snd];
      [apply notesFile_opened|].
    unfold try_catch.
    destruct (read_notes NotesFilePath (opened w)) as [[ns|e|c] w1] eqn:E;
      pose proof (read_notes_counters _ _ _ E) as (_ & Hd & _).
    + cbn [snd]. unfold notesFile. now rewrite Hd, notesDir_opened.
    + rewrite load_failed_eq. cbn [snd].
      destruct (is_SyntaxError e); unfold notesFile, printed;
        cbn [notesDir with_console]; now rewrite Hd, notesDir_opened.
    + cbn [snd]. unfold notesFile. now rewrite Hd, notesDir_opened.
  - unfold ready in Hr.
    destruct (notesDir w) eqn:Hd; [exfalso; apply Hr; discriminate|].
    destruct (mkdirFailure w) as [e|] eqn:Hm; [|exfalso; apply Hr; reflexivity].
    unfold loadNotes, getNotesFilePath, getNotesDir, bind, os_homedir,
      fs_existsSync, try_catch, fs_mkdirSync, ret.
    rewrite Hd. cbn [negb]. rewrite Hd, Hm. cbn. unfold notesFile. cbn.
    now rewrite Hd.
Qed.


End Normalizing.

(** C5, as stated, fails: a [created_at] that is present is kept as it is,
    so a stored note whose [created_at] is not a date is still one after
    the normalization pass. *)
Lemma stored_date_may_not_parse :
  fst (loadNotes (R := reference_runtime) garbled_world)
  = Return [milk_note; garbled_note; call_note]
  /\ is_record garbled_note = true
  /\ created_time garbled_note = None.
Proof. repeat split; reflexivity. Qed.

Lemma loadNotes_backfills_witness :
  ready legacy_world
  /\ notesFile legacy_world
     = Some (Regular (JSON_stringify (R := reference_runtime)
                        (VArr [VObj [(str "title", VStr (str "old"))]] []) 4))
  /\ JSON_stringify (R := reference_runtime)
       (VArr [VObj [(str "title", VStr (str "old"))]] []) 4 <> []
  /\ JSON_parse (R := reference_runtime)
       (JSON_stringify (R := reference_runtime)
          (VArr [VObj [(str "title", VStr (str "old"))]] []) 4)
     = Some (VArr [VObj [(str "title", VStr (str "old"))]] [])
  /\ ~ In VNull [VObj (R := reference_runtime) [(str "title", VStr (str "old"))]]
  /\ exists notes w',
       loadNotes (R := reference_runtime) legacy_world = (Return notes, w')
       /\ Forall2 (backfilled legacy_world
                     (clockReads legacy_world) (clockReads w')
                     (entropyDraws legacy_world) (entropyDraws w'))
            [VObj [(str "title", VStr (str "old"))]] notes
       /\ Forall (fun n => is_record n = true -> has_id_and_date n) notes
       /\ (forall k, valid_time (clock legacy_world k) ->
                     Date_parse (R := reference_runtime)
                       (Date_toISOString (clock legacy_world k))
                     = Some (clock legacy_world k))
       /\ (forall k, length (generated_id legacy_world k) = 8).
Proof.
  assert (H1 : ready legacy_world) by (intros H; discriminate H).
  assert (H3 : JSON_stringify (R := reference_runtime)
                 (VArr [VObj [(str "title", VStr (str "old"))]] []) 4 <> [])
    by discriminate.
  assert (H5 : ~ In VNull [VObj (R := reference_runtime)
                             [(str "title", VStr (str "old"))]])
    by (intros [H|[]]; discriminate H).
  split; [exact H1|]. split; [reflexivity|]. split; [exact H3|].
  split; [reflexivity|]. split; [exact H5|].
  exact (loadNotes_backfills (R := reference_runtime) legacy_world _ _ []
           H1 eq_refl H3 eq_refl H5).
Defined.



(* ===================================================================== *)
(** ** The notes directory *)
(* ===================================================================== *)

Section Directory.
Context {R : Runtime}.

(** The three ways [getNotesDir] can go. *)
Lemma getNotesDir_cases w :
  getNotesDir w
  = match notesDir w, mkdirFailure w with
    | Some _, _ => (Return NotesDirPath, w)
    | None, None => (Return NotesDirPath, opened w)
    | None, Some e => (Exit 1%Z, printed Error (mkdir_error_line e) w)
    end.
Proof.
  unfold getNotesDir, opened, bind, os_homedir, fs_existsSync,
    try_catch, fs_mkdirSync, console_log, console_error, console_print, ret,
    process_exit, printed, mkdir_error_line.
  destruct (notesDir w) as [f|] eqn:Hd; cbn; [reflexivity|].
  rewrite Hd. destruct (mkdirFailure w) as [e|]; cbn; reflexivity.
Qed.

Lemma loadNotes_without_directory w e :
  notesDir w = None -> mkdirFailure w = Some e ->
  loadNotes w = (Exit 1%Z, printed Error (mkdir_error_line e) w).
Proof.
  intros Hd Hm. unfold loadNotes, getNotesFilePath.
  rewrite !bind_eq, getNotesDir_cases, Hd, Hm. reflexivity.
Qed.

(** X1: when [getNotesDir] returns, it returns the path of the notes
    directory, the directory exists and holds the notes file it held before
    (none, if it has just been created), and nothing at all has changed if
    the directory was already there.  A further call returns the same path
    and neither changes nor prints anything: the creation is announced at
    most once. *)
Theorem getNotesDir_settles w p w1 :
  getNotesDir w = (Return p, w1) ->
  p = NotesDirPath
  /\ notesDir w1 = Some (notesFile w)
  /\ (notesDir w <> None -> w1 = w)
  /\ getNotesDir w1 = (Return p, w1).
Proof.
  rewrite getNotesDir_cases. intros H.
  assert (E : p = NotesDirPath /\ w1 = opened w).
  { unfold opened. destruct (notesDir w) eqn:Hd.
    - injection H as E1 E2. subst. now split.
    - destruct (mkdirFailure w); [discriminate|]. injection H as E1 E2.
      subst. split; [reflexivity|]. unfold opened. now rewrite Hd. }
  destruct E as [-> ->]. split; [reflexivity|].
  split; [apply notesDir_opened|]. split.
  - intros Hd. unfold opened. destruct (notesDir w); [reflexivity|congruence].
  - rewrite getNotesDir_cases, notesDir_opened. reflexivity.
Qed.

End Directory.

Lemma getNotesDir_settles_witness :
  getNotesDir (R := reference_runtime) fresh_world
  = (Return NotesDirPath, opened (R := reference_runtime) fresh_world)
  /\ notesDir (opened (R := reference_runtime) fresh_world) = Some None
  /\ console (opened (R := reference_runtime) fresh_world)
     = [(Log, str "Created notes directory: /home/user/.my_notes")]
  /\ getNotesDir (R := reference_runtime) (opened (R := reference_runtime) fresh_world)
     = (Return NotesDirPath, opened (R := reference_runtime) fresh_world).
Proof.
  assert (H : getNotesDir (R := reference_runtime) fresh_world
              = (Return NotesDirPath, opened (R := reference_runtime) fresh_world))
    by reflexivity.
  split; [exact H|]. split; [reflexivity|]. split; [reflexivity|].
  exact (proj2 (proj2 (proj2 (getNotesDir_settles (R := reference_runtime) _ _ _ H)))).
Defined.

(* ===================================================================== *)
(** ** The command line *)
(* ===================================================================== *)

Section Commands.
Context {R : Runtime}.

Lemma five_lines l1 l2 l3 l4 l5 w :
  (console_log l1 ;;; console_log l2 ;;; console_log l3 ;;; console_log l4 ;;;
   console_log l5) w
  = (Return tt,
     with_console
       (console w ++ [(Log, l1); (Log, l2); (Log, l3); (Log, l4); (Log, l5)]) w).
Proof.
  unfold bind, console_log, console_print.
  cbn [console with_console homedir notesDir mkdirFailure writeFailure clock
       clockReads entropy entropyDraws].
  rewrite !with_console_twice. do 2 f_equal. now rewrite <- !app_assoc.
Qed.

Lemma print_help_eq w :
  print_help w = (Return tt, with_console (console w ++ help_lines) w).
Proof. apply five_lines. Qed.

(** X2: given no command, or a first argument that is not [create], [list]
    or [delete], [main] prints the five lines of the help on the standard
    output and ends normally, with exit status 0.  Nothing else happens:
    the notes directory is not even looked for. *)
Theorem main_unknown_command_prints_help args w :
  known_command args = false ->
  main args w = (Return tt, with_console (console w ++ help_lines) w)
  /\ exit_status (fst (main args w)) = 0%Z.
Proof.
  intros Hk.
  assert (E : main args w = print_help w).
  { destruct args as [|command rest]; [reflexivity|].
    unfold known_command in Hk. unfold main. cbn [nth_error].
    destruct (jsstring_eqb command (str "create")); [discriminate|].
    destruct (jsstring_eqb command (str "list")); [discriminate|].
    destruct (jsstring_eqb command (str "delete")); [discriminate|].
    reflexivity. }
  rewrite E, print_help_eq. split; reflexivity.
Qed.

(** X3: [create] without a title and [delete] without an id (the argument
    missing or the empty string) print their usage line on the standard
    error and end the process with status 1, before the notes directory is
    looked for: nothing is created, read or written. *)
Theorem main_requires_an_argument args w :
  missing_argument args = true ->
  (nth_error args 0 = Some (str "create") ->
   main args w = (Exit 1%Z, printed Error usage_create w))
  /\ (nth_error args 0 = Some (str "delete") ->
      main args w = (Exit 1%Z, printed Error usage_delete w)).
Proof.
  intros Hm. split; intros Hc.
  - destruct args as [|command rest]; [discriminate|].
    cbn [nth_error] in Hc. injection Hc as ->.
    unfold main. cbn [nth_error].
    change (jsstring_eqb (str "create") (str "create")) with true. cbv iota.
    destruct rest as [|[|c t] rest]; try discriminate; reflexivity.
  - destruct args as [|command rest]; [discriminate|].
    cbn [nth_error] in Hc. injection Hc as ->.
    unfold main. cbn [nth_error].
    change (jsstring_eqb (str "delete") (str "create")) with false.
    change (jsstring_eqb (str "delete") (str "list")) with false.
    change (jsstring_eqb (str "delete") (str "delete")) with true. cbv iota.
    destruct rest as [|[|c t] rest]; try discriminate; reflexivity.
Qed.

Lemma indexOf_absent x args : ~ In x args -> indexOf x args = None.
Proof.
  induction args as [|a rest IH]; intros Hn; [reflexivity|].
  cbn [indexOf]. rewrite jsstring_eqb_neq.
  - rewrite IH; [reflexivity|]. intros H. apply Hn. now right.
  - intros ->. apply Hn. now left.
Qed.

Lemma indexOf_first x before after :
  ~ In x before -> indexOf x (before ++ x :: after) = Some (length before).
Proof.
  induction before as [|a rest IH]; intros Hn.
  - cbn [app indexOf length]. now rewrite jsstring_eqb_refl.
  - cbn [app indexOf length]. rewrite jsstring_eqb_neq.
    + rewrite IH; [reflexivity|]. intros H. apply Hn. now right.
    + intros ->. apply Hn. now left.
Qed.

Lemma nth_error_after {A} (before : list A) x after :
  nth_error (before ++ x :: after) (length before + 1) = nth_error after 0.
Proof.
  induction before as [|a rest IH]; [reflexivity|]. exact IH.
Qed.

(** X4: the description of [create] is the argument that follows the first
    [--desc] among the arguments after the command, the title included (in
    [create --desc x] the title is [--desc] and the description [x]); it
    is the empty string when no argument is [--desc] (any other spelling
    of the flag is passed over) and when the first [--desc] is the last
    argument. *)
Theorem main_create_description title rest w :
  title <> [] ->
  (~ In (str "--desc") (title :: rest) ->
   main (str "create" :: title :: rest) w = createNote title [] w)
  /\ (forall before d after,
        title :: rest = before ++ str "--desc" :: d :: after ->
        ~ In (str "--desc") before ->
        main (str "create" :: title :: rest) w = createNote title d w)
  /\ (forall before,
        title :: rest = before ++ [str "--desc"] ->
        ~ In (str "--desc") before ->
        main (str "create" :: title :: rest) w = createNote title [] w).
Proof.
  intros Ht. destruct title as [|c t]; [congruence|].
  split; [|split].
  - intros Hn. unfold main. cbn [nth_error].
    change (jsstring_eqb (str "create") (str "create")) with true. cbv iota.
    rewrite indexOf_absent; [reflexivity|].
    intros [H|H]; [discriminate H|]. now apply Hn.
  - intros before d after Heq Hn. unfold main. cbn [nth_error].
    change (jsstring_eqb (str "create") (str "create")) with true. cbv iota.
    rewrite Heq.
    change (str "create" :: before ++ str "--desc" :: d :: after)
      with ((str "create" :: before) ++ str "--desc" :: d :: after).
    rewrite indexOf_first.
    + rewrite nth_error_after. cbn [nth_error]. destruct d; reflexivity.
    + intros [H|H]; [discriminate H|]. now apply Hn.
  - intros before Heq Hn. unfold main. cbn [nth_error].
    change (jsstring_eqb (str "create") (str "create")) with true. cbv iota.
    rewrite Heq.
    change (str "create" :: before ++ [str "--desc"])
      with ((str "create" :: before) ++ [str "--desc"]).
    rewrite indexOf_first.
    + rewrite nth_error_after. reflexivity.
    + intros [H|H]; [discriminate H|]. now apply Hn.
Qed.

(** X5: when the notes directory is missing and cannot be created, every
    command that needs the store ([list], [create] with a title, [delete]
    with an id) prints the one line of [getNotesDir] on the standard error
    and ends the process with status 1; nothing else is printed or
    changed. *)
Theorem commands_end_without_directory args w e :
  uses_store args = true -> notesDir w = None -> mkdirFailure w = Some e ->
  main args w = (Exit 1%Z, printed Error (mkdir_error_line e) w)
  /\ exit_status (fst (main args w)) = 1%Z.
Proof.
  intros Hu Hd Hm.
  assert (E : main args w = (Exit 1%Z, printed Error (mkdir_error_line e) w));
    [|rewrite E; split; reflexivity].
  destruct args as [|command rest]; [discriminate|].
  unfold uses_store, missing_argument in Hu. unfold main. cbn [nth_error].
  destruct (jsstring_eqb command (str "create")) eqn:Ec.
  - apply jsstring_eqb_eq in Ec. subst command.
    change (jsstring_eqb (str "create") (str "list")) with false in Hu.
    destruct rest as [|[|c t] rest]; try discriminate Hu.
    unfold createNote. rewrite bind_eq.
    now rewrite (loadNotes_without_directory w e Hd Hm).
  - destruct (jsstring_eqb command (str "list")) eqn:El.
    + unfold listNotes. rewrite bind_eq.
      now rewrite (loadNotes_without_directory w e Hd Hm).
    + destruct (jsstring_eqb command (str "delete")) eqn:Edel;
        [|discriminate Hu].
      destruct rest as [|[|c t] rest]; try discriminate Hu.
      unfold deleteNote. rewrite bind_eq.
      now rewrite (loadNotes_without_directory w e Hd Hm).
Qed.

End Commands.

Lemma main_unknown_command_prints_help_witness :
  known_command [str "show"; str "aaa111bb"] = false
  /\ main (R := reference_runtime) [str "show"; str "aaa111bb"] fresh_world
     = (Return tt,
        with_console (console fresh_world ++ help_lines)
                     fresh_world).
Proof.
  split; [reflexivity|].
  exact (proj1 (main_unknown_command_prints_help (R := reference_runtime)
                  [str "show"; str "aaa111bb"] fresh_world eq_refl)).
Defined.

Lemma main_requires_an_argument_witness :
  missing_argument [str "delete"] = true
  /\ nth_error [str "delete"] 0 = Some (str "delete")
  /\ main (R := reference_runtime) [str "delete"] two_notes_world
     = (Exit 1%Z, printed Error usage_delete two_notes_world).
Proof.
  split; [reflexivity|]. split; [reflexivity|].
  exact (proj2 (main_requires_an_argument (R := reference_runtime)
                  [str "delete"] two_notes_world eq_refl) eq_refl).
Defined.

Lemma main_create_description_witness :
  str "--desc" <> []
  /\ [str "--desc"; str "two litres"] = [] ++ [str "--desc"; str "two litres"]
  /\ ~ In (str "--desc") []
  /\ main (R := reference_runtime)
       [str "create"; str "--desc"; str "two litres"] fresh_world
     = createNote (R := reference_runtime) (str "--desc") (str "two litres")
         fresh_world.
Proof.
  assert (H1 : str "--desc" <> []) by discriminate.
  assert (H2 : ~ In (str "--desc") []) by (intros []).
  split; [exact H1|]. split; [reflexivity|]. split; [exact H2|].
  exact (proj1 (proj2 (main_create_description (R := reference_runtime)
                         (str "--desc") [str "two litres"] fresh_world H1))
           [] (str "two litres") [] eq_refl H2).
Defined.

Lemma commands_end_without_directory_witness :
  uses_store [str "list"] = true
  /\ notesDir locked_home = None
  /\ mkdirFailure locked_home
     = Some (str "EACCES: permission denied, mkdir '/home/user/.my_notes'")
  /\ main (R := reference_runtime) [str "list"] locked_home
     = (Exit 1%Z,
        printed Error
          (str "Error creating notes directory: EACCES: permission denied, mkdir '/home/user/.my_notes'")
          locked_home).
Proof.
  split; [reflexivity|]. split; [reflexivity|]. split; [reflexivity|].
  exact (proj1 (commands_end_without_directory (R := reference_runtime)
                  [str "list"] locked_home _ eq_refl eq_refl eq_refl)).
Defined.

(* ===================================================================== *)
(** ** Creating a note *)
(* ===================================================================== *)

Section Creating.
Context {R : Runtime}.

(** A store written by [saveNotes] loads as it is, in a world that stays
    as it is. *)
Lemma loadNotes_stored notes w :
  notesDir w = Some (Some (Regular (JSON_stringify (VArr notes []) 4))) ->
  Forall well_formed_note notes -> Forall identified notes ->
  loadNotes w = (Return notes, w).
Proof.
  intros Hd Hwf Hid.
  assert (Hp : plain (VArr notes [])).
  { constructor. eapply Forall_impl; [|exact Hwf]. intros n Hn. apply Hn. }
  assert (Hr : ready w) by (intros H; congruence).
  assert (Hf : notesFile w = Some (Regular (JSON_stringify (VArr notes []) 4)))
    by (unfold notesFile; now rewrite Hd).
  assert (Ho : opened w = w) by (unfold opened; now rewrite Hd).
  assert (Hne : JSON_stringify (VArr notes []) 4 <> [])
    by (destruct notes; discriminate).
  rewrite (loadNotes_parsed w _ (VArr notes []) Hr Hf Hne
             (JSON_parse_stringify _ Hp)).
  unfold try_catch, call_map. rewrite Ho.
  now rewrite mapM_ensure_identified.
Qed.

Lemma new_note_well_formed title description w :
  well_formed_note (record_of (new_fields title description w))
  /\ identified (record_of (new_fields title description w)).
Proof.
  split.
  - apply (note_of_well_formed (generated_id w (entropyDraws w)) title description
             (Date_toISOString (clock w (clockReads w)))).
  - apply (note_of_identified (generated_id w (entropyDraws w)) title description
             (Date_toISOString (clock w (clockReads w)))).
    + intros H. apply (f_equal (@length N)) in H.
      rewrite generated_id_length in H. discriminate H.
    + apply Date_toISOString_not_empty.
Qed.

(** What [createNote] leaves, given what [loadNotes] returned, whether the
    write succeeds or not. *)
Lemma createNote_world title description w notes w1 :
  loadNotes w = (Return notes, w1) ->
  createNote title description w
  = (Return tt,
     printed Log (created_line title (generated_id w1 (entropyDraws w1)))
       match writeFailure w with
       | None =>
           written (JSON_stringify
                      (VArr (notes ++ [record_of (new_fields title description w1)]) [])
                      4)
                   (tick_clock (tick_entropy w1))
       | Some e => printed Error (save_error_line e) (tick_clock (tick_entropy w1))
       end).
Proof.
  intros Hl.
  destruct (loadNotes_Return_world _ _ _ Hl) as (Hd & Hw1 & _).
  unfold createNote. rewrite bind_eq, Hl.
  rewrite bind_eq. unfold crypto_randomUUID at 1. cbv beta iota.
  rewrite bind_eq. unfold Date_now_toISOString at 1. cbv beta iota.
  rewrite bind_eq.
  rewrite (saveNotes_eq _ (tick_clock (tick_entropy w1)) (notesFile w))
    by (destruct w1; exact Hd).
  replace (writeFailure (tick_clock (tick_entropy w1))) with (writeFailure w)
    by (destruct w1; cbn in *; congruence).
  destruct (writeFailure w); destruct w1; reflexivity.
Qed.

(** X6: on a store of well-formed notes with non-empty [id] and
    [created_at], and the write not failing, [createNote] appends exactly
    one note and keeps the others in their order: a load that follows
    returns the old notes followed by the new one, whose [id] comes from
    the next reading of the random source and whose [created_at] from the
    next reading of the clock.  The only line printed is the confirmation,
    which shows that [id]. *)
Theorem createNote_then_load title description w notes w1 :
  loadNotes w = (Return notes, w1) -> writeFailure w = None ->
  Forall well_formed_note notes -> Forall identified notes ->
  exists w2,
    createNote title description w = (Return tt, w2)
    /\ loadNotes w2
       = (Return (notes ++ [record_of (new_fields title description w1)]), w2)
    /\ console w2
       = console w1
         ++ [(Log, created_line title (generated_id w1 (entropyDraws w1)))].
Proof.
  intros Hl Hw Hwf Hid.
  rewrite (createNote_world title description w notes w1 Hl), Hw.
  destruct (new_note_well_formed title description w1) as [Hn1 Hn2].
  assert (Hwf' : Forall well_formed_note
                   (notes ++ [record_of (new_fields title description w1)]))
    by (apply Forall_app; split; [assumption|now constructor]).
  assert (Hid' : Forall identified
                   (notes ++ [record_of (new_fields title description w1)]))
    by (apply Forall_app; split; [assumption|now constructor]).
  eexists. split; [reflexivity|]. split; [|reflexivity].
  apply loadNotes_stored; [|assumption|assumption].
  rewrite written_plain; [reflexivity|].
  constructor. eapply Forall_impl; [|exact Hwf']. intros n Hn. apply Hn.
Qed.

(** X7: on a notes file that is not JSON, [createNote] warns that the file
    is corrupted and then replaces it: afterwards the file holds the new
    note and nothing else, whatever it held before. *)
Theorem createNote_overwrites_corrupt_store title description w text :
  ready w -> writeFailure w = None ->
  notesFile w = Some (Regular text) -> text <> [] -> JSON_parse text = None ->
  exists w2,
    createNote title description w = (Return tt, w2)
    /\ notesFile w2
       = Some (Regular (pretty_store [new_fields title description w]))
    /\ console w2
       = console w
         ++ [(Warn, corrupted_warning);
             (Log, created_line title (generated_id w (entropyDraws w)))].
Proof.
  intros Hr Hw Hf Hne Hp.
  assert (Hd : notesDir w = Some (Some (Regular text))).
  { unfold notesFile in Hf. destruct (notesDir w); congruence. }
  assert (Ho : opened w = w) by (unfold opened; now rewrite Hd).
  assert (Hl : loadNotes w = (Return [], printed Warn corrupted_warning w)).
  { rewrite loadNotes_ready by assumption.
    rewrite Hf, nonempty_file_not_empty by assumption.
    unfold try_catch, read_notes. rewrite bind_eq, Ho.
    unfold fs_readFileSync. rewrite Hd. rewrite bind_eq.
    unfold JSON_parse_M. rewrite Hp. reflexivity. }
  rewrite (createNote_world title description w [] _ Hl), Hw.
  eexists. split; [reflexivity|].
  rewrite written_number_free
    by (constructor; repeat constructor; apply record_of_number_free).
  change ([] ++ [record_of (new_fields title description
                              (printed Warn corrupted_warning w))])
    with (map record_of [new_fields title description w]).
  rewrite stringify_records by (repeat constructor; discriminate).
  split; [reflexivity|].
  cbn [console printed with_console with_notesDir tick_clock tick_entropy].
  now rewrite <- app_assoc.
Qed.

(** X8: when the write fails, [createNote] prints the error of [saveNotes]
    on the standard error and then, all the same, the confirmation that
    the note was created; it ends normally. *)
Theorem createNote_confirms_after_failed_write title description w notes w1 e :
  loadNotes w = (Return notes, w1) -> writeFailure w = Some e ->
  exists w2,
    createNote title description w = (Return tt, w2)
    /\ console w2
       = console w1
         ++ [(Error, save_error_line e);
             (Log, created_line title (generated_id w1 (entropyDraws w1)))].
Proof.
  intros Hl Hw.
  rewrite (createNote_world title description w notes w1 Hl), Hw.
  eexists. split; [reflexivity|].
  cbn [console printed with_console tick_clock tick_entropy].
  now rewrite <- app_assoc.
Qed.

Lemma lower_hex_hex_digit n : (n < 16)%N -> lower_hex (hex_digit n) = true.
Proof.
  intros H. unfold lower_hex, hex_digit, is_digit.
  destruct (N.ltb_spec n 10).
  - apply orb_true_iff. left. apply andb_true_iff. split; apply N.leb_le; lia.
  - apply orb_true_iff. right. apply andb_true_iff. split; apply N.leb_le; lia.
Qed.

Lemma generated_id_lower_hex w k :
  Forall (fun c => lower_hex c = true) (generated_id w k).
Proof.
  unfold generated_id, slice0, uuid_of_bits, hex2.
  cbn [app firstn].
  repeat constructor; apply lower_hex_hex_digit, N.mod_lt; discriminate.
Qed.

(** X9: the identifiers the program makes are eight characters long, each
    a digit or a letter from [a] to [f] (the hyphens of the UUID lie beyond
    the part that is kept).  This holds of the identifier [createNote]
    prints in its confirmation and writes in the new note, and of the one
    the normalization pass gives an object or an array that has no truthy
    [id]. *)
Theorem created_ids_are_short_hex title description w notes w1 :
  loadNotes w = (Return notes, w1) ->
  (exists id created_at w2,
     createNote title description w = (Return tt, w2)
     /\ (exists before, console w2 = before ++ [(Log, created_line title id)])
     /\ (writeFailure w = None ->
         notesDir w2
         = Some (Some (Regular
              (toWellFormed
                 (JSON_stringify
                    (VArr (notes ++ [note_of id title description created_at]) [])
                    4)))))
     /\ length id = 8 /\ Forall (fun c => lower_hex c = true) id)
  /\ forall e w0,
       is_record e = true -> truthy (field e (str "id")) = false ->
       exists id n w',
         ensure_fields e w0 = (Return n, w')
         /\ field n (str "id") = Some (VStr id)
         /\ length id = 8 /\ Forall (fun c => lower_hex c = true) id.
Proof.
  intros Hl. split.
  - exists (generated_id w1 (entropyDraws w1)),
           (Date_toISOString (clock w1 (clockReads w1))).
    rewrite (createNote_world title description w notes w1 Hl).
    eexists. split; [reflexivity|]. split; [|split; [|split]].
    + eexists. unfold printed. cbn [console with_console]. reflexivity.
    + intros ->. reflexivity.
    + apply generated_id_length.
    + apply generated_id_lower_hex.
  - intros e w0 Hrec Hid.
    assert (Hn : e <> VNull) by (intros ->; discriminate).
    pose proof (ensured_backfilled w0 w0 e eq_refl eq_refl) as Hb.
    unfold backfilled in Hb. rewrite Hrec, Hid in Hb.
    destruct Hb as (_ & _ & k & _ & Ek).
    exists (generated_id w0 k), (ensured e w0), (after_ensure e w0).
    split; [now apply ensure_fields_not_null|]. split; [exact Ek|].
    split; [apply generated_id_length|apply generated_id_lower_hex].
Qed.

Lemma created_time_new_fields title description w :
  valid_time (clock w (clockReads w)) ->
  created_time (record_of (new_fields title description w))
  = Some (clock w (clockReads w)).
Proof.
  intros Hv. rewrite created_time_record. unfold row_time, new_fields.
  change (assoc (str "created_at") _)
    with (Some (Date_toISOString (clock w (clockReads w)))).
  now apply Date_parse_toISOString.
Qed.


(** A note with both fields goes through the normalization untouched, and
    neither the clock nor the random source is read. *)
Lemma ensure_fields_settled n w :
  settled n -> ensure_fields n w = (Return n, w).
Proof.
  intros [Hn [Hi Hc]]. rewrite ensure_fields_not_null by assumption.
  unfold field in Hi, Hc.
  assert (H1 : with_created_at n w = n).
  { unfold with_created_at. destruct (get_prop n (str "created_at")); [|reflexivity].
    now rewrite Hc. }
  unfold ensured, after_ensure. rewrite H1. unfold with_id.
  destruct (get_prop n (str "created_at")); destruct (get_prop n (str "id"));
    try rewrite Hc; try rewrite Hi; reflexivity.
Qed.

Lemma mapM_ensure_settled notes : forall w,
  Forall settled notes -> mapM ensure_fields notes w = (Return notes, w).
Proof.
  induction notes as [|n ns IH]; intros w Hs; [reflexivity|].
  inversion Hs; subst. cbn [mapM].
  rewrite bind_eq, ensure_fields_settled by assumption.
  rewrite bind_eq, IH by assumption. reflexivity.
Qed.

Lemma loadNotes_stored_settled notes w :
  notesDir w = Some (Some (Regular (JSON_stringify (VArr notes []) 4))) ->
  Forall plain notes -> Forall settled notes ->
  loadNotes w = (Return notes, w).
Proof.
  intros Hd Hpl Hs.
  assert (Hp : plain (VArr notes [])) by now constructor.
  assert (Hr : ready w) by (intros H; congruence).
  assert (Hf : notesFile w = Some (Regular (JSON_stringify (VArr notes []) 4)))
    by (unfold notesFile; now rewrite Hd).
  assert (Ho : opened w = w) by (unfold opened; now rewrite Hd).
  assert (Hne : JSON_stringify (VArr notes []) 4 <> [])
    by (destruct notes; discriminate).
  rewrite (loadNotes_parsed w _ (VArr notes []) Hr Hf Hne
             (JSON_parse_stringify _ Hp)).
  unfold try_catch, call_map. rewrite Ho.
  now rewrite mapM_ensure_settled.
Qed.

Lemma lookup_none_absent k props :
  lookup k props = None -> ~ In k (map fst props).
Proof.
  induction props as [|[k' v] props IH]; intros H; [intros []|].
  cbn [lookup] in H. destruct (jsstring_eqb k k') eqn:E; [discriminate|].
  cbn [map fst In]. intros [->|Hin].
  - now rewrite jsstring_eqb_refl in E.
  - now apply IH.
Qed.

Lemma keys_replace_value k v props :
  map fst (replace_value k v props) = map fst props.
Proof.
  induction props as [|[k' v'] props IH]; [reflexivity|].
  cbn [replace_value]. destruct (jsstring_eqb k k'); cbn [map fst]; [reflexivity|].
  now rewrite IH.
Qed.

Lemma plain_replace_value k v props :
  plain v -> Forall (fun kv => plain (snd kv)) props ->
  Forall (fun kv => plain (snd kv)) (replace_value k v props).
Proof.
  intros Hv. induction 1 as [|[k' v'] props Hh Ht IH]; [constructor|].
  cbn [replace_value]. destruct (jsstring_eqb k k'); constructor; assumption.
Qed.

Lemma index_free_replace_value k v props :
  Forall (fun kv => array_index_of (fst kv) = None) props ->
  Forall (fun kv => array_index_of (fst kv) = None) (replace_value k v props).
Proof.
  induction 1 as [|[k' v'] props Hh Ht IH]; [constructor|].
  cbn [replace_value]. destruct (jsstring_eqb k k'); constructor; assumption.
Qed.

Lemma plain_set_prop props k x :
  plain (VObj props) -> array_index_of k = None -> plain x ->
  plain (set_prop (VObj props) k x).
Proof.
  intros Hp Hk Hx. inversion Hp as [| | | |props' Hv Hnd Hix]; subst.
  cbn [set_prop]. unfold obj_set, has_key.
  destruct (lookup k props) eqn:El.
  - constructor.
    + now apply plain_replace_value.
    + now rewrite keys_replace_value.
    + now apply index_free_replace_value.
  - rewrite Hk. constructor.
    + apply Forall_app. split; [assumption|]. now constructor.
    + rewrite map_app. cbn [map fst].
      apply NoDup_app; [assumption|repeat constructor; intros []|].
      intros a Ha [<-|[]]. now apply (lookup_none_absent _ _ El).
    + apply Forall_app. split; [assumption|]. now constructor.
Qed.

Lemma ensured_plain props w : plain (VObj props) -> plain (ensured (VObj props) w).
Proof.
  intros Hp. unfold ensured.
  assert (H1 : exists props', with_created_at (VObj props) w = VObj props'
                              /\ plain (VObj props')).
  { unfold with_created_at. cbn [get_prop].
    destruct (truthy (lookup (str "created_at") props)).
    - now exists props.
    - eexists. split; [reflexivity|].
      apply (plain_set_prop props); [assumption|reflexivity|constructor]. }
  destruct H1 as (props' & -> & Hp').
  unfold with_id. cbn [get_prop].
  destruct (truthy (lookup (str "id") props')); [assumption|].
  apply (plain_set_prop props'); [assumption|reflexivity|constructor].
Qed.

Lemma ensured_settled e w : is_record e = true -> settled (ensured e w).
Proof.
  intros Hrec.
  assert (Hn : e <> VNull) by (intros ->; discriminate).
  pose proof (ensured_backfilled w w e eq_refl eq_refl) as Hb.
  assert (Hr : is_record (ensured e w) = true).
  { unfold backfilled in Hb. rewrite Hrec in Hb. apply Hb. }
  split.
  - intros E. rewrite E in Hr. discriminate.
  - exact (backfilled_has_id_and_date _ _ _ _ _ _ _ Hb Hr).
Qed.

Lemma mapM_ensure_objects elems : forall w,
  Forall (fun e => plain e /\ exists props, e = VObj props) elems ->
  exists notes w',
    mapM ensure_fields elems w = (Return notes, w')
    /\ Forall plain notes /\ Forall settled notes.
Proof.
  induction elems as [|e elems IH]; intros w Hall.
  - exists [], w. repeat split; constructor.
  - inversion Hall as [|? ? [Hp (props & ->)] Hrest]; subst.
    destruct (IH (after_ensure (VObj props) w) Hrest) as (notes & w' & E & Hpl & Hs).
    exists (ensured (VObj props) w :: notes), w'. split; [|split].
    + cbn [mapM]. rewrite bind_eq, ensure_fields_not_null by discriminate.
      rewrite bind_eq, E. reflexivity.
    + constructor; [now apply ensured_plain|assumption].
    + constructor; [now apply ensured_settled|assumption].
Qed.

(** X11: [createNote] writes down what the load before it assigned.  On a
    store of objects (no number in them, no key that is an array index)
    some of which lack [id] or [created_at], the load gives every note
    both fields, and after [createNote] the next load returns these very
    notes, followed by the new one: nothing is assigned anew. *)
Theorem createNote_persists_backfill title description w text elems :
  ready w -> writeFailure w = None ->
  notesFile w = Some (Regular text) -> text <> [] ->
  JSON_parse text = Some (VArr elems []) ->
  Forall (fun e => plain e /\ exists props, e = VObj props) elems ->
  exists notes w1 w2,
    loadNotes w = (Return notes, w1)
    /\ Forall has_id_and_date notes
    /\ createNote title description w = (Return tt, w2)
    /\ loadNotes w2
       = (Return (notes ++ [record_of (new_fields title description w1)]), w2).
Proof.
  intros Hr Hw Hf Hne Hp Hall.
  destruct (mapM_ensure_objects elems (opened w) Hall) as (notes & w1 & E & Hpl & Hs).
  assert (Hl : loadNotes w = (Return notes, w1)).
  { rewrite (loadNotes_parsed w text _ Hr Hf Hne Hp).
    unfold try_catch, call_map. now rewrite E. }
  exists notes, w1.
  pose proof (createNote_world title description w notes w1 Hl) as Hc.
  rewrite Hw in Hc.
  match type of Hc with _ = (_, ?x) => set (w2 := x) in * end.
  exists w2. split; [exact Hl|]. split.
  { eapply Forall_impl; [|exact Hs]. intros n Hn. apply Hn. }
  split; [exact Hc|].
  destruct (new_note_well_formed title description w1) as [[Hn1 Hn1'] Hn2].
  assert (Hpl' : Forall plain (notes ++ [record_of (new_fields title description w1)]))
    by (apply Forall_app; split; [assumption|now constructor]).
  apply loadNotes_stored_settled; [|assumption|].
  - unfold w2. rewrite written_plain; [reflexivity|]. now constructor.
  - apply Forall_app. split; [assumption|]. constructor; [|constructor].
    split; [discriminate|]. split; [reflexivity|].
    unfold field, new_fields, record_of. cbn [get_prop map fst snd].
    change (lookup (str "created_at") _)
      with (Some (VStr (Date_toISOString (clock w1 (clockReads w1))))).
    cbn [truthy].
    destruct (Date_toISOString (clock w1 (clockReads w1))) eqn:Ed; [|reflexivity].
    now apply Date_toISOString_not_empty in Ed.
Qed.

End Creating.

Lemma createNote_then_load_witness :
  loadNotes (R := reference_runtime) two_notes_world
  = (Return [milk_note; call_note], two_notes_world)
  /\ writeFailure two_notes_world = None
  /\ Forall well_formed_note [milk_note; call_note]
  /\ Forall identified [milk_note; call_note]
  /\ exists w2,
       createNote (R := reference_runtime) (str "Water plants") [] two_notes_world
       = (Return tt, w2)
       /\ loadNotes (R := reference_runtime) w2
          = (Return ([milk_note; call_note]
                     ++ [record_of (new_fields (str "Water plants") [] two_notes_world)]),
             w2)
       /\ console w2
          = console two_notes_world
            ++ [(Log, created_line (str "Water plants")
                        (generated_id two_notes_world (entropyDraws two_notes_world)))].
Proof.
  assert (H1 : loadNotes (R := reference_runtime) two_notes_world
               = (Return [milk_note; call_note], two_notes_world))
    by reflexivity.
  assert (H3 : Forall well_formed_note [milk_note; call_note])
    by (repeat (apply Forall_cons; [apply note_of_well_formed|]); apply Forall_nil).
  assert (H4 : Forall identified [milk_note; call_note])
    by (repeat (apply Forall_cons; [apply note_of_identified; discriminate|]);
        apply Forall_nil).
  split; [exact H1|]. split; [reflexivity|]. split; [exact H3|]. split; [exact H4|].
  exact (createNote_then_load (R := reference_runtime) (str "Water plants") []
           _ _ _ H1 eq_refl H3 H4).
Defined.

Lemma createNote_overwrites_corrupt_store_witness :
  ready truncated_world
  /\ writeFailure truncated_world = None
  /\ notesFile truncated_world = Some (Regular (str "[1,"))
  /\ str "[1," <> []
  /\ JSON_parse (R := reference_runtime) (str "[1,") = None
  /\ exists w2,
       createNote (R := reference_runtime) (str "Water plants") [] truncated_world
       = (Return tt, w2)
       /\ notesFile w2
          = Some (Regular (pretty_store
                             [new_fields
                                (str "Water plants") [] truncated_world]))
       /\ console w2
          = console truncated_world
            ++ [(Warn, corrupted_warning);
                (Log, created_line (str "Water plants")
                        (generated_id truncated_world (entropyDraws truncated_world)))].
Proof.
  assert (H1 : ready truncated_world) by (intros H; discriminate H).
  assert (H4 : str "[1," <> []) by discriminate.
  split; [exact H1|]. split; [reflexivity|]. split; [reflexivity|].
  split; [exact H4|]. split; [reflexivity|].
  exact (createNote_overwrites_corrupt_store (R := reference_runtime)
           (str "Water plants") [] truncated_world (str "[1,")
           H1 eq_refl eq_refl H4 eq_refl).
Defined.

Lemma createNote_confirms_after_failed_write_witness :
  loadNotes (R := reference_runtime) read_only_world
  = (Return [milk_note; call_note], read_only_world)
  /\ writeFailure read_only_world
     = Some (str "EACCES: permission denied, open '/home/user/.my_notes/notes.json'")
  /\ exists w2,
       createNote (R := reference_runtime) (str "Water plants") [] read_only_world
       = (Return tt, w2)
       /\ console w2
          = console read_only_world
            ++ [(Error,
                 save_error_line
                   (str "EACCES: permission denied, open '/home/user/.my_notes/notes.json'"));
                (Log, created_line (str "Water plants")
                        (generated_id read_only_world (entropyDraws read_only_world)))].
Proof.
  assert (H1 : loadNotes (R := reference_runtime) read_only_world
               = (Return [milk_note; call_note], read_only_world))
    by reflexivity.
  split; [exact H1|]. split; [reflexivity|].
  exact (createNote_confirms_after_failed_write (R := reference_runtime)
           (str "Water plants") [] _ _ _ _ H1 eq_refl).
Defined.

Lemma created_ids_are_short_hex_witness :
  loadNotes (R := reference_runtime) two_notes_world
  = (Return [milk_note; call_note], two_notes_world)
  /\ (exists id created_at w2,
        createNote (R := reference_runtime) (str "Water plants") [] two_notes_world
        = (Return tt, w2)
        /\ (exists before,
              console w2 = before ++ [(Log, created_line (str "Water plants") id)])
        /\ (writeFailure two_notes_world = None ->
            notesDir w2
            = Some (Some (Regular
                 (toWellFormed
                    (JSON_stringify
                       (VArr ([milk_note; call_note]
                              ++ [note_of id (str "Water plants") [] created_at]) [])
                       4)))))
        /\ length id = 8 /\ Forall (fun c => lower_hex c = true) id)
  /\ forall e w0,
       is_record e = true -> truthy (field e (str "id")) = false ->
       exists id n w',
         ensure_fields (R := reference_runtime) e w0 = (Return n, w')
         /\ field n (str "id") = Some (VStr id)
         /\ length id = 8 /\ Forall (fun c => lower_hex c = true) id.
Proof.
  assert (H1 : loadNotes (R := reference_runtime) two_notes_world
               = (Return [milk_note; call_note], two_notes_world))
    by reflexivity.
  split; [exact H1|].
  exact (created_ids_are_short_hex (R := reference_runtime) (str "Water plants") []
           _ _ _ H1).
Defined.


Lemma createNote_persists_backfill_witness :
  ready legacy_world
  /\ writeFailure legacy_world = None
  /\ notesFile legacy_world
     = Some (Regular (JSON_stringify (R := reference_runtime)
                        (VArr [VObj [(str "title", VStr (str "old"))]] []) 4))
  /\ JSON_stringify (R := reference_runtime)
       (VArr [VObj [(str "title", VStr (str "old"))]] []) 4 <> []
  /\ JSON_parse (R := reference_runtime)
       (JSON_stringify (R := reference_runtime)
          (VArr [VObj [(str "title", VStr (str "old"))]] []) 4)
     = Some (VArr [VObj [(str "title", VStr (str "old"))]] [])
  /\ exists notes w1 w2,
       loadNotes (R := reference_runtime) legacy_world = (Return notes, w1)
       /\ Forall has_id_and_date notes
       /\ createNote (R := reference_runtime) (str "Water plants") [] legacy_world
          = (Return tt, w2)
       /\ loadNotes (R := reference_runtime) w2
          = (Return (notes ++ [record_of (new_fields (str "Water plants") [] w1)]), w2).
Proof.
  assert (H1 : ready legacy_world) by (intros H; discriminate H).
  assert (H4 : JSON_stringify (R := reference_runtime)
                 (VArr [VObj [(str "title", VStr (str "old"))]] []) 4 <> [])
    by discriminate.
  assert (H6 : Forall (fun e => plain (R := reference_runtime) e
                                /\ exists props, e = VObj props)
                 [VObj [(str "title", VStr (str "old"))]]).
  { constructor; [|constructor]. split; [|eexists; reflexivity].
    constructor; repeat constructor. intros []. }
  split; [exact H1|]. split; [reflexivity|]. split; [reflexivity|].
  split; [exact H4|]. split; [reflexivity|].
  exact (createNote_persists_backfill (R := reference_runtime)
           (str "Water plants") [] legacy_world _ _ H1 eq_refl eq_refl H4 eq_refl H6).
Defined.

(* ===================================================================== *)
(** ** What [listNotes] shows *)
(* ===================================================================== *)

Section Showing.
Context {R : Runtime}.

(** X12: for a store whose notes are objects with string fields,
    [listNotes] returns normally and prints, on the standard output only,
    the header, five lines for each note (every note once) and the footer.
    A field that is missing or the empty string is shown by its default
    ([N/A], [No Title], [No Description]); a [created_at] that does not
    parse is shown as [Invalid Date], not as the stored text.  Nothing but
    the console changes. *)
Theorem listNotes_prints_records w rows w1 :
  loadNotes w = (Return (map record_of rows), w1) -> rows <> [] ->
  exists shown,
    Permutation rows shown
    /\ listNotes w = (Return tt, with_console (console w1 ++ listing shown) w1).
Proof.
  intros Hl Hne.
  assert (Hd : Forall datable (map record_of rows)).
  { rewrite Forall_map. apply Forall_forall. intros r _. apply record_datable. }
  assert (Hn : map record_of rows <> []) by (destruct rows; [congruence|discriminate]).
  destruct (Array_sort_quiet _ w1 Hd) as (sorted & Hs & Hperm).
  rewrite (listNotes_sorted w _ w1 sorted Hl Hn Hs).
  destruct (Permutation_map_inv record_of rows (Permutation_sym Hperm))
    as (shown & Es & Hp).
  exists shown. split; [exact Hp|]. rewrite Es. apply display_records.
Qed.

(** X13: when there is no notes file, or the file has size 0, [listNotes]
    prints [No notes found.] and returns; besides that line only the
    creation of the directory, if it was missing, is announced, and no
    notes file is created. *)
Theorem listNotes_empty_store w :
  ready w -> file_is_empty (notesFile w) = true ->
  listNotes w = (Return tt, printed Log (str "No notes found.") (opened w))
  /\ notesFile (printed Log (str "No notes found.") (opened w)) = notesFile w.
Proof.
  intros Hr He. split.
  - unfold listNotes. rewrite bind_eq, loadNotes_ready by assumption.
    rewrite He. reflexivity.
  - unfold notesFile at 1. cbn [printed with_console notesDir].
    now rewrite notesDir_opened.
Qed.

(** *** What stays as it was *)

Lemma keeps_ret {A} (a : A) : keeps_notes_file (ret a).
Proof. intros w. reflexivity. Qed.

Lemma keeps_lift {A} (r : result A) : keeps_notes_file (lift r).
Proof. intros w. destruct r; reflexivity. Qed.

Lemma keeps_bind {A B} (m : M A) (k : A -> M B) :
  keeps_notes_file m -> (forall a, keeps_notes_file (k a)) ->
  keeps_notes_file (bind m k).
Proof.
  intros Hm Hk w. rewrite bind_eq. specialize (Hm w).
  destruct (m w) as [[a|e|c] w']; cbn [snd] in *; [|assumption|assumption].
  now rewrite Hk.
Qed.

Lemma keeps_try_catch {A} (m : M A) (h : js_error -> M A) :
  keeps_notes_file m -> (forall e, keeps_notes_file (h e)) ->
  keeps_notes_file (try_catch m h).
Proof.
  intros Hm Hh w. unfold try_catch. specialize (Hm w).
  destruct (m w) as [[a|e|c] w']; cbn [snd] in *; [assumption| |assumption].
  now rewrite Hh.
Qed.

Lemma keeps_console_print c line : keeps_notes_file (console_print c line).
Proof. intros w. reflexivity. Qed.

Lemma keeps_forEachM {A} (f : A -> M unit) l :
  (forall a, keeps_notes_file (f a)) -> keeps_notes_file (forEachM f l).
Proof.
  intros Hf. induction l as [|x l IH]; cbn [forEachM]; [apply keeps_ret|].
  apply keeps_bind; [apply Hf|intros _; exact IH].
Qed.

Lemma keeps_Array_sort cmp l :
  (forall a b, keeps_notes_file (cmp a b)) ->
  keeps_notes_file (Array_sort cmp l).
Proof.
  intros Hc w. unfold Array_sort.
  apply (sort_engine_invariant cmp l (fun s => notesFile s = notesFile w));
    [|reflexivity].
  intros a b s0 _ _ Hs. now rewrite Hc.
Qed.

(** Code made of reads, prints, [try] and sequencing. *)
Ltac keeps_file :=
  repeat first
    [ apply keeps_ret | apply keeps_lift | apply keeps_console_print
    | apply keeps_bind; [|intros ?] | apply keeps_try_catch; [|intros ?] ].

Lemma keeps_compare_created_at a b : keeps_notes_file (compare_created_at a b).
Proof. unfold compare_created_at, console_warn. keeps_file. Qed.

Lemma keeps_print_note note : keeps_notes_file (print_note note).
Proof. unfold print_note, console_log. keeps_file. Qed.

Lemma keeps_loadNotes : keeps_notes_file loadNotes.
Proof. intros w. apply notesFile_loadNotes. Qed.

Lemma keeps_listNotes : keeps_notes_file listNotes.
Proof.
  unfold listNotes. apply keeps_bind; [apply keeps_loadNotes|]. intros notes.
  destruct (length notes =? 0); [apply keeps_console_print|].
  apply keeps_bind; [apply keeps_Array_sort, keeps_compare_created_at|].
  intros sorted. unfold console_log.
  apply keeps_bind; [apply keeps_console_print|]. intros _.
  apply keeps_bind; [apply keeps_forEachM, keeps_print_note|]. intros _.
  apply keeps_console_print.
Qed.

Lemma keeps_print_help : keeps_notes_file print_help.
Proof. unfold print_help, console_log. keeps_file. Qed.

(** X14: only [create] and [delete] ever change the notes file.  Whatever
    the file holds and however the run ends (normally, with an uncaught
    error, or with [process.exit]), after [list], after the help and after
    any unknown command the notes file is what it was. *)
Theorem only_create_and_delete_write args w :
  nth_error args 0 <> Some (str "create") ->
  nth_error args 0 <> Some (str "delete") ->
  notesFile (snd (main args w)) = notesFile w.
Proof.
  intros Hc Hd. destruct args as [|command rest]; [apply keeps_print_help|].
  cbn [nth_error] in Hc, Hd. unfold main. cbn [nth_error].
  destruct (jsstring_eqb command (str "create")) eqn:E1.
  { apply jsstring_eqb_eq in E1. congruence. }
  destruct (jsstring_eqb command (str "list")); [apply keeps_listNotes|].
  destruct (jsstring_eqb command (str "delete")) eqn:E2.
  { apply jsstring_eqb_eq in E2. congruence. }
  apply keeps_print_help.
Qed.

(** *** What is printed where *)

Lemma logs_ret {A} (a : A) : only_logs (ret a).
Proof. intros w. exists []. split; [now rewrite app_nil_r|constructor]. Qed.

Lemma logs_lift {A} (r : result A) : only_logs (lift r).
Proof.
  intros w. exists []. split; [|constructor].
  destruct r; cbn; now rewrite app_nil_r.
Qed.

Lemma logs_console_log line : only_logs (console_log line).
Proof.
  intros w. exists [(Log, line)]. split; [reflexivity|].
  constructor; [reflexivity|constructor].
Qed.

Lemma logs_bind {A B} (m : M A) (k : A -> M B) :
  only_logs m -> (forall a, only_logs (k a)) -> only_logs (bind m k).
Proof.
  intros Hm Hk w. rewrite bind_eq. destruct (Hm w) as (l1 & E1 & F1).
  destruct (m w) as [[a|e|c] w']; cbn [snd] in *; [|eauto|eauto].
  destruct (Hk a w') as (l2 & E2 & F2). exists (l1 ++ l2). split.
  - now rewrite E2, E1, app_assoc.
  - apply Forall_app. now split.
Qed.

Lemma logs_try_catch {A} (m : M A) (h : js_error -> M A) :
  only_logs m -> (forall e, only_logs (h e)) -> only_logs (try_catch m h).
Proof.
  intros Hm Hh w. unfold try_catch. destruct (Hm w) as (l1 & E1 & F1).
  destruct (m w) as [[a|e|c] w']; cbn [snd] in *; [eauto| |eauto].
  destruct (Hh e w') as (l2 & E2 & F2). exists (l1 ++ l2). split.
  - now rewrite E2, E1, app_assoc.
  - apply Forall_app. now split.
Qed.

Lemma logs_forEachM {A} (f : A -> M unit) l :
  (forall a, only_logs (f a)) -> only_logs (forEachM f l).
Proof.
  intros Hf. induction l as [|x l IH]; cbn [forEachM]; [apply logs_ret|].
  apply logs_bind; [apply Hf|intros _; exact IH].
Qed.

Ltac logs_only :=
  repeat first
    [ apply logs_ret | apply logs_lift | apply logs_console_log
    | apply logs_bind; [|intros ?] | apply logs_try_catch; [|intros ?] ].

Lemma logs_print_note note : only_logs (print_note note).
Proof. unfold print_note. logs_only. Qed.

(** X22: a [created_at] that is a string, parseable or not, never makes
    [listNotes] warn.  When every note the load returns has a string
    there, whatever [listNotes] prints after the load it prints on the
    standard output: the warning of the comparator is not among it,
    whatever calls of the comparator the sort of the engine makes. *)
Theorem listNotes_never_warns_on_strings w notes w1 :
  loadNotes w = (Return notes, w1) ->
  (forall n, In n notes ->
             exists s, get_prop n (str "created_at") = Ok (Some (VStr s))) ->
  exists lines,
    console (snd (listNotes w)) = console w1 ++ lines
    /\ Forall (fun entry => fst entry = Log) lines.
Proof.
  intros Hl Hall.
  assert (HF : Forall datable notes).
  { rewrite Forall_forall. intros n Hn. destruct (Hall n Hn) as [s Hs].
    eapply string_created_at_datable; eauto. }
  destruct (Array_sort_quiet notes w1 HF) as (sorted & Hs & _).
  unfold listNotes. rewrite bind_eq, Hl.
  destruct (length notes =? 0); [apply logs_console_log|].
  rewrite bind_eq, Hs.
  apply (logs_bind (console_log (NEWLINE :: str "--- Your Notes ---")));
    [apply logs_console_log|]. intros _.
  apply logs_bind; [|intros _; apply logs_console_log].
  apply logs_forEachM, logs_print_note.
Qed.

End Showing.

Lemma listNotes_prints_records_witness :
  loadNotes (R := reference_runtime) three_notes_world
  = (Return (map record_of [call_fields; new_year_fields; milk_fields]),
     three_notes_world)
  /\ [call_fields; new_year_fields; milk_fields] <> []
  /\ exists shown,
       Permutation [call_fields; new_year_fields; milk_fields] shown
       /\ listNotes (R := reference_runtime) three_notes_world
          = (Return tt,
             with_console
               (console three_notes_world ++ listing (R := reference_runtime) shown)
               three_notes_world).
Proof.
  assert (H1 : loadNotes (R := reference_runtime) three_notes_world
               = (Return (map record_of [call_fields; new_year_fields; milk_fields]),
                  three_notes_world))
    by reflexivity.
  assert (H2 : [call_fields; new_year_fields; milk_fields] <> []) by discriminate.
  split; [exact H1|]. split; [exact H2|].
  exact (listNotes_prints_records (R := reference_runtime) _ _ _ H1 H2).
Defined.

Lemma listNotes_empty_store_witness :
  ready fresh_world
  /\ file_is_empty (notesFile fresh_world) = true
  /\ listNotes (R := reference_runtime) fresh_world
     = (Return tt,
        printed Log (str "No notes found.")
          (opened (R := reference_runtime) fresh_world)).
Proof.
  assert (H : ready fresh_world) by (intros _; reflexivity).
  split; [exact H|]. split; [reflexivity|].
  exact (proj1 (listNotes_empty_store (R := reference_runtime) fresh_world H eq_refl)).
Defined.

Lemma only_create_and_delete_write_witness :
  nth_error [str "list"] 0 <> Some (str "create")
  /\ nth_error [str "list"] 0 <> Some (str "delete")
  /\ notesFile (snd (main (R := reference_runtime) [str "list"] garbled_world))
     = notesFile garbled_world.
Proof.
  assert (H1 : nth_error [str "list"] 0 <> Some (str "create"))
    by (intros H; vm_compute in H; discriminate H).
  assert (H2 : nth_error [str "list"] 0 <> Some (str "delete"))
    by (intros H; vm_compute in H; discriminate H).
  split; [exact H1|]. split; [exact H2|].
  exact (only_create_and_delete_write (R := reference_runtime)
           [str "list"] garbled_world H1 H2).
Defined.

Lemma listNotes_never_warns_on_strings_witness :
  loadNotes (R := reference_runtime) garbled_world
  = (Return [milk_note; garbled_note; call_note], garbled_world)
  /\ (forall n, In n [milk_note; garbled_note; call_note] ->
                exists s, get_prop n (str "created_at") = Ok (Some (VStr s)))
  /\ exists lines,
       console (snd (listNotes (R := reference_runtime) garbled_world))
       = console garbled_world ++ lines
       /\ Forall (fun entry => fst entry = Log) lines.
Proof.
  assert (H1 : loadNotes (R := reference_runtime) garbled_world
               = (Return [milk_note; garbled_note; call_note], garbled_world))
    by reflexivity.
  assert (H3 : forall n, In n [milk_note; garbled_note; call_note] ->
                         exists s, get_prop n (str "created_at") = Ok (Some (VStr s))).
  { intros n [<-|[<-|[<-|[]]]]; eexists; reflexivity. }
  split; [exact H1|]. split; [exact H3|].
  exact (listNotes_never_warns_on_strings (R := reference_runtime) _ _ _ H1 H3).
Defined.

(* ===================================================================== *)
(** ** One command after another *)
(* ===================================================================== *)

Section Composing.
Context {R : Runtime}.

(** X15: a note just created is the first one [listNotes] shows, when the
    clock reads later than the dates of the notes already stored: after
    [createNote] on a store of well-formed notes, [listNotes] prints the
    five lines of the new note right after the header, then the notes that
    were there. *)
Theorem created_note_is_listed_first title description w rows w1 :
  loadNotes w = (Return (map record_of rows), w1) -> writeFailure w = None ->
  Forall well_formed_note (map record_of rows) ->
  Forall identified (map record_of rows) ->
  valid_time (clock w1 (clockReads w1)) ->
  (forall r, In r rows ->
             exists t, row_time r = Some t /\ (t < clock w1 (clockReads w1))%Z) ->
  exists w2 shown,
    createNote title description w = (Return tt, w2)
    /\ Permutation rows shown
    /\ listNotes w2
       = (Return tt,
          with_console
            (console w2 ++ listing (new_fields title description w1 :: shown))
            w2).
Proof.
  intros Hl Hw Hwf Hid Hv Hold.
  set (new := new_fields title description w1).
  pose proof (createNote_world title description w _ w1 Hl) as Hc.
  rewrite Hw in Hc. fold new in Hc.
  match type of Hc with _ = (_, ?x) => set (w2 := x) in * end.
  destruct (new_note_well_formed title description w1) as [Hn1 Hn2].
  fold new in Hn1, Hn2 |- *.
  assert (Hwf' : Forall well_formed_note (map record_of rows ++ [record_of new]))
    by (apply Forall_app; split; [assumption|now constructor]).
  assert (Hid' : Forall identified (map record_of rows ++ [record_of new]))
    by (apply Forall_app; split; [assumption|now constructor]).
  exists w2.
  assert (Hl2 : loadNotes w2 = (Return (map record_of rows ++ [record_of new]), w2)).
  { apply loadNotes_stored; [|assumption|assumption]. unfold w2.
    rewrite written_plain; [reflexivity|].
    constructor. eapply Forall_impl; [|exact Hwf']. intros n Hn. apply Hn. }
  assert (Hnew : row_time new = Some (clock w1 (clockReads w1))).
  { rewrite <- created_time_record. now apply created_time_new_fields. }
  assert (Hs : sort_by_key row_recency (rows ++ [new])
               = new :: sort_by_key row_recency rows).
  { apply sort_by_key_least_last. apply Forall_forall. intros r Hr.
    destruct (Hold r Hr) as (t & Ht & Hlt). unfold row_recency.
    rewrite Hnew, Ht. lia. }
  exists (sort_by_key row_recency rows).
  split; [exact Hc|]. split; [apply sort_by_key_perm|].
  rewrite <- Hs. apply listNotes_by_date.
  - now rewrite map_app.
  - destruct rows; discriminate.
  - intros r Hr. apply in_app_or in Hr. destruct Hr as [Hr|[<-|[]]].
    + destruct (Hold r Hr) as (t & Ht & _). eauto.
    + eauto.
Qed.

(** What [deleteNote] leaves, given what [loadNotes] returned, whether a
    note matches or not and whether the write succeeds or not. *)
Lemma deleteNote_world noteId w notes w1 :
  loadNotes w = (Return notes, w1) ->
  deleteNote noteId w
  = (Return tt,
     if length (filter (fun n => negb (has_id noteId n)) notes) <? length notes
     then printed Log (deleted_line noteId)
            match writeFailure w with
            | None =>
                written (JSON_stringify
                           (VArr (filter (fun n => negb (has_id noteId n)) notes) [])
                           4) w1
            | Some e => printed Error (save_error_line e) w1
            end
     else printed Log (not_found_line noteId) w1).
Proof.
  intros Hl. destruct (loadNotes_Return_world _ _ _ Hl) as (Hd & Hw1 & Hnn).
  unfold deleteNote. rewrite bind_eq, Hl. rewrite bind_eq.
  rewrite filterM_has_id by assumption.
  destruct (_ <? _); [|reflexivity].
  rewrite bind_eq. rewrite (saveNotes_eq _ _ _ Hd). rewrite Hw1.
  destruct (writeFailure w); reflexivity.
Qed.

Lemma filter_shorter {A} (f : A -> bool) l :
  Exists (fun x => f x = false) l -> length (filter f l) < length l.
Proof.
  induction 1 as [x l Hx|x l _ IH].
  - cbn [filter]. rewrite Hx. cbn [length].
    pose proof (filter_length_le f l). lia.
  - cbn [filter]. destruct (f x); cbn [length]; [lia|].
    pose proof (filter_length_le f l). lia.
Qed.

Lemma Forall_filter {A} (P : A -> Prop) (f : A -> bool) l :
  Forall P l -> Forall P (filter f l).
Proof.
  intros H. apply Forall_forall. intros x Hx. apply filter_In in Hx.
  rewrite Forall_forall in H. now apply H.
Qed.

(** X16: when a note matches and the write fails, [deleteNote] prints the
    error of [saveNotes] on the standard error and then, all the same, the
    confirmation that the note was deleted; it ends normally. *)
Theorem deleteNote_confirms_after_failed_write w noteId notes w1 e :
  loadNotes w = (Return notes, w1) -> writeFailure w = Some e ->
  Exists (fun n => has_id noteId n = true) notes ->
  exists w2,
    deleteNote noteId w = (Return tt, w2)
    /\ console w2
       = console w1
         ++ [(Error, save_error_line e); (Log, deleted_line noteId)].
Proof.
  intros Hl Hw Hex. rewrite (deleteNote_world noteId w notes w1 Hl), Hw.
  assert (Hlt : length (filter (fun n => negb (has_id noteId n)) notes)
                < length notes).
  { apply filter_shorter. eapply Exists_impl; [|exact Hex].
    intros n Hn. cbv beta. now rewrite Hn. }
  apply Nat.ltb_lt in Hlt. rewrite Hlt.
  eexists. split; [reflexivity|].
  cbn [console printed with_console]. now rewrite <- app_assoc.
Qed.

(** X17: deleting twice.  On a store of well-formed notes, after a
    [deleteNote] that removed something, a load returns the notes that
    were kept, and a second [deleteNote] of the same id finds no note: it
    prints that none was found and writes nothing. *)
Theorem deleteNote_twice w noteId notes w1 :
  loadNotes w = (Return notes, w1) -> writeFailure w = None ->
  Forall well_formed_note notes -> Forall identified notes ->
  Exists (fun n => has_id noteId n = true) notes ->
  exists w2,
    deleteNote noteId w = (Return tt, w2)
    /\ loadNotes w2
       = (Return (filter (fun n => negb (has_id noteId n)) notes), w2)
    /\ deleteNote noteId w2 = (Return tt, printed Log (not_found_line noteId) w2).
Proof.
  intros Hl Hw Hwf Hid Hex.
  set (kept := filter (fun n => negb (has_id noteId n)) notes).
  pose proof (deleteNote_world noteId w notes w1 Hl) as Hc.
  rewrite Hw in Hc. fold kept in Hc.
  assert (Hlt : length kept < length notes).
  { apply filter_shorter. eapply Exists_impl; [|exact Hex].
    intros n Hn. cbv beta. now rewrite Hn. }
  apply Nat.ltb_lt in Hlt. rewrite Hlt in Hc.
  match type of Hc with _ = (_, ?x) => set (w2 := x) in * end.
  assert (Hwf' : Forall well_formed_note kept) by now apply Forall_filter.
  assert (Hid' : Forall identified kept) by now apply Forall_filter.
  exists w2.
  assert (Hl2 : loadNotes w2 = (Return kept, w2)).
  { apply loadNotes_stored; [|assumption|assumption]. unfold w2.
    rewrite written_plain; [reflexivity|].
    constructor. eapply Forall_impl; [|exact Hwf']. intros n Hn. apply Hn. }
  split; [exact Hc|]. split; [exact Hl2|].
  rewrite (deleteNote_world noteId w2 kept w2 Hl2).
  rewrite filter_all_kept.
  - now rewrite Nat.ltb_irrefl.
  - intros n Hn. apply filter_In in Hn. apply Hn.
Qed.

(** X18: creating a note and then deleting it by the id that was printed
    gives the store back: when no stored note has that id, the notes file
    is afterwards the text of the notes that were there, and a load returns
    them. *)
Theorem create_then_delete_restores_store title description w notes w1 :
  loadNotes w = (Return notes, w1) -> writeFailure w = None ->
  Forall well_formed_note notes -> Forall identified notes ->
  (forall n, In n notes -> has_id (generated_id w1 (entropyDraws w1)) n = false) ->
  exists w2 w3,
    createNote title description w = (Return tt, w2)
    /\ deleteNote (generated_id w1 (entropyDraws w1)) w2 = (Return tt, w3)
    /\ notesFile w3 = Some (Regular (JSON_stringify (VArr notes []) 4))
    /\ loadNotes w3 = (Return notes, w3).
Proof.
  intros Hl Hw Hwf Hid Hfresh.
  set (id := generated_id w1 (entropyDraws w1)) in *.
  set (new := record_of (new_fields title description w1)).
  pose proof (createNote_world title description w _ w1 Hl) as Hc.
  rewrite Hw in Hc. fold new id in Hc.
  match type of Hc with _ = (_, ?x) => set (w2 := x) in * end.
  destruct (new_note_well_formed title description w1) as [Hn1 Hn2].
  fold new in Hn1, Hn2.
  assert (Hwf' : Forall well_formed_note (notes ++ [new]))
    by (apply Forall_app; split; [assumption|now constructor]).
  assert (Hid' : Forall identified (notes ++ [new]))
    by (apply Forall_app; split; [assumption|now constructor]).
  assert (Hp : plain (VArr notes [])).
  { constructor. eapply Forall_impl; [|exact Hwf]. intros n Hn. apply Hn. }
  exists w2.
  assert (Hl2 : loadNotes w2 = (Return (notes ++ [new]), w2)).
  { apply loadNotes_stored; [|assumption|assumption]. unfold w2.
    rewrite written_plain; [reflexivity|].
    constructor. eapply Forall_impl; [|exact Hwf']. intros n Hn. apply Hn. }
  assert (Hw2 : writeFailure w2 = None).
  { destruct (loadNotes_Return_world _ _ _ Hl) as (_ & Hw1 & _).
    unfold w2. cbn. congruence. }
  assert (Hk : filter (fun n => negb (has_id id n)) (notes ++ [new]) = notes).
  { rewrite filter_app. cbn [filter].
    assert (Hnew : has_id id new = true) by (apply has_id_true; reflexivity).
    rewrite Hnew. cbn [negb]. rewrite app_nil_r. apply filter_all_kept.
    intros n Hn. now rewrite Hfresh. }
  rewrite (deleteNote_world id w2 _ w2 Hl2), Hk, Hw2.
  rewrite length_app. cbn [length].
  replace (length notes <? length notes + 1) with true
    by (symmetry; apply Nat.ltb_lt; lia).
  eexists. split; [exact Hc|]. split; [reflexivity|].
  rewrite written_plain by assumption. split; [reflexivity|].
  now apply loadNotes_stored.
Qed.

End Composing.

Lemma created_note_is_listed_first_witness :
  loadNotes (R := reference_runtime) next_day_world
  = (Return (map record_of [milk_fields; call_fields]), next_day_world)
  /\ writeFailure next_day_world = None
  /\ valid_time (clock next_day_world (clockReads next_day_world))
  /\ (forall r, In r [milk_fields; call_fields] ->
                exists t,
                  row_time (R := reference_runtime) r = Some t
                  /\ (t < clock next_day_world (clockReads next_day_world))%Z)
  /\ exists w2 shown,
       createNote (R := reference_runtime) (str "Water plants") [] next_day_world
       = (Return tt, w2)
       /\ Permutation [milk_fields; call_fields] shown
       /\ listNotes (R := reference_runtime) w2
          = (Return tt,
             with_console
               (console w2
                ++ listing (R := reference_runtime)
                     (new_fields (str "Water plants") [] next_day_world :: shown))
               w2).
Proof.
  assert (H1 : loadNotes (R := reference_runtime) next_day_world
               = (Return (map record_of [milk_fields; call_fields]), next_day_world))
    by reflexivity.
  assert (H3 : Forall well_formed_note
                 (map (record_of (R := reference_runtime)) [milk_fields; call_fields]))
    by (repeat (apply Forall_cons; [apply note_of_well_formed|]); apply Forall_nil).
  assert (H4 : Forall identified
                 (map (record_of (R := reference_runtime)) [milk_fields; call_fields]))
    by (repeat (apply Forall_cons; [apply note_of_identified; discriminate|]);
        apply Forall_nil).
  assert (H5 : valid_time (clock next_day_world (clockReads next_day_world)))
    by (unfold valid_time, maxTime; cbn; lia).
  assert (H6 : forall r, In r [milk_fields; call_fields] ->
                 exists t,
                   row_time (R := reference_runtime) r = Some t
                   /\ (t < clock next_day_world (clockReads next_day_world))%Z).
  { intros r [<-|[<-|[]]].
    - exists 1700000000000%Z. split; reflexivity.
    - exists 1700035200000%Z. split; reflexivity. }
  split; [exact H1|]. split; [reflexivity|]. split; [exact H5|]. split; [exact H6|].
  exact (created_note_is_listed_first (R := reference_runtime) (str "Water plants") []
           _ _ _ H1 eq_refl H3 H4 H5 H6).
Defined.

Lemma deleteNote_confirms_after_failed_write_witness :
  loadNotes (R := reference_runtime) read_only_world
  = (Return [milk_note; call_note], read_only_world)
  /\ writeFailure read_only_world
     = Some (str "EACCES: permission denied, open '/home/user/.my_notes/notes.json'")
  /\ Exists (fun n => has_id (str "aaa111bb") n = true) [milk_note; call_note]
  /\ exists w2,
       deleteNote (R := reference_runtime) (str "aaa111bb") read_only_world
       = (Return tt, w2)
       /\ console w2
          = console read_only_world
            ++ [(Error,
                 save_error_line
                   (str "EACCES: permission denied, open '/home/user/.my_notes/notes.json'"));
                (Log, deleted_line (str "aaa111bb"))].
Proof.
  assert (H1 : loadNotes (R := reference_runtime) read_only_world
               = (Return [milk_note; call_note], read_only_world))
    by reflexivity.
  assert (H3 : Exists (fun n => has_id (str "aaa111bb") n = true)
                 [milk_note; call_note])
    by (apply Exists_cons_hd; reflexivity).
  split; [exact H1|]. split; [reflexivity|]. split; [exact H3|].
  exact (deleteNote_confirms_after_failed_write (R := reference_runtime)
           _ _ _ _ _ H1 eq_refl H3).
Defined.

Lemma deleteNote_twice_witness :
  loadNotes (R := reference_runtime) two_notes_world
  = (Return [milk_note; call_note], two_notes_world)
  /\ writeFailure two_notes_world = None
  /\ Forall well_formed_note [milk_note; call_note]
  /\ Forall identified [milk_note; call_note]
  /\ Exists (fun n => has_id (str "aaa111bb") n = true) [milk_note; call_note]
  /\ exists w2,
       deleteNote (R := reference_runtime) (str "aaa111bb") two_notes_world
       = (Return tt, w2)
       /\ loadNotes (R := reference_runtime) w2
          = (Return (filter (fun n => negb (has_id (str "aaa111bb") n))
                       [milk_note; call_note]), w2)
       /\ deleteNote (R := reference_runtime) (str "aaa111bb") w2
          = (Return tt, printed Log (not_found_line (str "aaa111bb")) w2).
Proof.
  assert (H1 : loadNotes (R := reference_runtime) two_notes_world
               = (Return [milk_note; call_note], two_notes_world))
    by reflexivity.
  assert (H3 : Forall well_formed_note [milk_note; call_note])
    by (repeat (apply Forall_cons; [apply note_of_well_formed|]); apply Forall_nil).
  assert (H4 : Forall identified [milk_note; call_note])
    by (repeat (apply Forall_cons; [apply note_of_identified; discriminate|]);
        apply Forall_nil).
  assert (H5 : Exists (fun n => has_id (str "aaa111bb") n = true)
                 [milk_note; call_note])
    by (apply Exists_cons_hd; reflexivity).
  split; [exact H1|]. split; [reflexivity|]. split; [exact H3|]. split; [exact H4|].
  split; [exact H5|].
  exact (deleteNote_twice (R := reference_runtime) _ _ _ _ H1 eq_refl H3 H4 H5).
Defined.

Lemma create_then_delete_restores_store_witness :
  loadNotes (R := reference_runtime) two_notes_world
  = (Return [milk_note; call_note], two_notes_world)
  /\ writeFailure two_notes_world = None
  /\ Forall well_formed_note [milk_note; call_note]
  /\ Forall identified [milk_note; call_note]
  /\ (forall n, In n [milk_note; call_note] ->
                has_id (generated_id two_notes_world (entropyDraws two_notes_world)) n
                = false)
  /\ exists w2 w3,
       createNote (R := reference_runtime) (str "Water plants") [] two_notes_world
       = (Return tt, w2)
       /\ deleteNote (R := reference_runtime)
            (generated_id two_notes_world (entropyDraws two_notes_world)) w2
          = (Return tt, w3)
       /\ notesFile w3
          = Some (Regular (JSON_stringify (R := reference_runtime)
                             (VArr [milk_note; call_note] []) 4))
       /\ loadNotes (R := reference_runtime) w3 = (Return [milk_note; call_note], w3).
Proof.
  assert (H1 : loadNotes (R := reference_runtime) two_notes_world
               = (Return [milk_note; call_note], two_notes_world))
    by reflexivity.
  assert (H3 : Forall well_formed_note [milk_note; call_note])
    by (repeat (apply Forall_cons; [apply note_of_well_formed|]); apply Forall_nil).
  assert (H4 : Forall identified [milk_note; call_note])
    by (repeat (apply Forall_cons; [apply note_of_identified; discriminate|]);
        apply Forall_nil).
  assert (H5 : forall n, In n [milk_note; call_note] ->
                 has_id (generated_id two_notes_world (entropyDraws two_notes_world)) n
                 = false).
  { intros n [<-|[<-|[]]]; reflexivity. }
  split; [exact H1|]. split; [reflexivity|]. split; [exact H3|]. split; [exact H4|].
  split; [exact H5|].
  exact (create_then_delete_restores_store (R := reference_runtime)
           (str "Water plants") [] _ _ _ H1 eq_refl H3 H4 H5).
Defined.

(* ===================================================================== *)
(** ** How a run ends *)
(* ===================================================================== *)

Section Ending.
Context {R : Runtime}.

(** X19: once the notes directory is there or can be created, [createNote]
    and [deleteNote] run to their end whatever the notes file holds and
    whether or not it can be read or written: every error on the way is
    caught and reported, none ends the command. *)
Theorem create_and_delete_always_return w :
  ready w ->
  (forall title description,
      exists w', createNote title description w = (Return tt, w'))
  /\ (forall noteId, exists w', deleteNote noteId w = (Return tt, w')).
Proof.
  intros Hr. destruct (loadNotes_returns w Hr) as (notes & w1 & Hl). split.
  - intros title description.
    rewrite (createNote_world title description w notes w1 Hl).
    eexists. reflexivity.
  - intros noteId. rewrite (deleteNote_world noteId w notes w1 Hl).
    eexists. reflexivity.
Qed.

Lemma exits_ret {A} (a : A) : exits_with_1 (ret a).
Proof. intros w c w' H. discriminate H. Qed.

Lemma exits_lift {A} (r : result A) : exits_with_1 (lift r).
Proof. intros w c w' H. destruct r; discriminate H. Qed.

Lemma exits_console_print ch line : exits_with_1 (console_print ch line).
Proof. intros w c w' H. discriminate H. Qed.

Lemma exits_process_exit {A} : exits_with_1 (@process_exit A 1%Z).
Proof. intros w c w' H. now injection H as <- _. Qed.

Lemma exits_bind {A B} (m : M A) (k : A -> M B) :
  exits_with_1 m -> (forall a, exits_with_1 (k a)) -> exits_with_1 (bind m k).
Proof.
  intros Hm Hk w c w'. rewrite bind_eq.
  destruct (m w) as [[a|e|c0] w0] eqn:E; intros H.
  - now apply (Hk a w0 c w').
  - discriminate H.
  - injection H as <- <-. now apply (Hm w c0 w0).
Qed.

Lemma exits_try_catch {A} (m : M A) (h : js_error -> M A) :
  exits_with_1 m -> (forall e, exits_with_1 (h e)) ->
  exits_with_1 (try_catch m h).
Proof.
  intros Hm Hh w c w'. unfold try_catch.
  destruct (m w) as [[a|e|c0] w0] eqn:E; intros H.
  - discriminate H.
  - now apply (Hh e w0 c w').
  - injection H as <- <-. now apply (Hm w c0 w0).
Qed.

Lemma exits_forEachM {A} (f : A -> M unit) l :
  (forall a, exits_with_1 (f a)) -> exits_with_1 (forEachM f l).
Proof.
  intros Hf. induction l as [|x l IH]; cbn [forEachM]; [apply exits_ret|].
  apply exits_bind; [apply Hf|intros _; exact IH].
Qed.

Lemma exits_filterM {A} (f : A -> M bool) l :
  (forall a, exits_with_1 (f a)) -> exits_with_1 (filterM f l).
Proof.
  intros Hf. induction l as [|x l IH]; cbn [filterM]; [apply exits_ret|].
  apply exits_bind; [apply Hf|]. intros keep.
  apply exits_bind; [exact IH|intros ys; apply exits_ret].
Qed.

Lemma exits_Array_sort cmp l :
  (forall a b, exits_with_1 (cmp a b)) -> exits_with_1 (Array_sort cmp l).
Proof.
  intros Hc w c w' E. unfold Array_sort in E.
  destruct (sort_engine_exit _ _ _ _ _ E) as (a & b & s0 & E').
  exact (Hc a b s0 c w' E').
Qed.

(** Code made of pure steps, prints, [try], sequencing and
    [process.exit (1)]. *)
Ltac exits :=
  repeat first
    [ apply exits_ret | apply exits_lift | apply exits_console_print
    | apply exits_process_exit
    | apply exits_bind; [|intros ?] | apply exits_try_catch; [|intros ?] ].

Lemma exits_getNotesFilePath : exits_with_1 getNotesFilePath.
Proof.
  intros w c w'. unfold getNotesFilePath. rewrite bind_eq, getNotesDir_cases.
  destruct (notesDir w); [discriminate|].
  destruct (mkdirFailure w); [|discriminate].
  intros H. now injection H as <- _.
Qed.

Lemma exits_loadNotes : exits_with_1 loadNotes.
Proof.
  intros w c w' H. destruct (ready_dec w) as [Hr|Hr].
  - destruct (loadNotes_returns w Hr) as (notes & w1 & E). congruence.
  - unfold ready in Hr.
    destruct (notesDir w) eqn:Hd; [exfalso; apply Hr; discriminate|].
    destruct (mkdirFailure w) as [e|] eqn:Hm; [|exfalso; apply Hr; reflexivity].
    rewrite (loadNotes_without_directory w e Hd Hm) in H. now injection H as <- _.
Qed.

Lemma exits_saveNotes notes : exits_with_1 (saveNotes notes).
Proof.
  unfold saveNotes. apply exits_bind; [apply exits_getNotesFilePath|].
  intros p. apply exits_try_catch.
  - intros w c w'. unfold fs_writeFileSync.
    destruct p, (notesDir w), (writeFailure w); discriminate.
  - intros e. apply exits_console_print.
Qed.

Lemma exits_createNote title description : exits_with_1 (createNote title description).
Proof.
  unfold createNote. apply exits_bind; [apply exits_loadNotes|]. intros notes.
  apply exits_bind; [intros w c w' H; discriminate H|]. intros uuid.
  apply exits_bind; [intros w c w' H; discriminate H|]. intros now.
  apply exits_bind; [apply exits_saveNotes|]. intros _.
  unfold console_log. exits.
Qed.

Lemma exits_listNotes : exits_with_1 listNotes.
Proof.
  unfold listNotes. apply exits_bind; [apply exits_loadNotes|]. intros notes.
  unfold console_log.
  destruct (length notes =? 0); [apply exits_console_print|].
  apply exits_bind.
  { apply exits_Array_sort. intros a b.
    unfold compare_created_at, console_warn. exits. }
  intros sorted.
  apply exits_bind; [apply exits_console_print|]. intros _.
  apply exits_bind; [|intros _; apply exits_console_print].
  apply exits_forEachM. intros note. unfold print_note, console_log. exits.
Qed.

Lemma exits_deleteNote noteId : exits_with_1 (deleteNote noteId).
Proof.
  unfold deleteNote. apply exits_bind; [apply exits_loadNotes|]. intros notes.
  apply exits_bind; [apply exits_filterM; intros note; exits|]. intros kept.
  unfold console_log.
  destruct (length kept <? length notes); [|apply exits_console_print].
  apply exits_bind; [apply exits_saveNotes|]. intros _. apply exits_console_print.
Qed.

Lemma exits_main args : exits_with_1 (main args).
Proof.
  unfold main. destruct (nth_error args 0) as [command|].
  - destruct (jsstring_eqb command (str "create")).
    + destruct (nth_error args 1) as [[|c t]|];
        [unfold console_error; exits|apply exits_createNote
        |unfold console_error; exits].
    + destruct (jsstring_eqb command (str "list")); [apply exits_listNotes|].
      destruct (jsstring_eqb command (str "delete")).
      * destruct (nth_error args 1) as [[|c t]|];
          [unfold console_error; exits|apply exits_deleteNote
          |unfold console_error; exits].
      * unfold print_help, console_log. exits.
  - unfold print_help, console_log. exits.
Qed.

(** X20: whatever the arguments and whatever the state of the home
    directory, the exit status of the tool is 0 or 1: the only call of
    [process.exit] that can be reached passes 1, and an uncaught error
    gives 1 as well. *)
Theorem main_exit_status args w :
  exit_status (fst (main args w)) = 0%Z \/ exit_status (fst (main args w)) = 1%Z.
Proof.
  destruct (main args w) as [[u|e|c] w'] eqn:E; cbn [fst exit_status].
  - now left.
  - now right.
  - right. exact (exits_main args w c w' E).
Qed.

End Ending.

Lemma create_and_delete_always_return_witness :
  ready truncated_world
  /\ (exists w',
        createNote (R := reference_runtime) (str "Water plants") [] truncated_world
        = (Return tt, w'))
  /\ (exists w',
        deleteNote (R := reference_runtime) (str "aaa111bb") truncated_world
        = (Return tt, w')).
Proof.
  assert (H : ready truncated_world) by (intros H; discriminate H).
  split; [exact H|]. split.
  - exact (proj1 (create_and_delete_always_return (R := reference_runtime)
                    truncated_world H) (str "Water plants") []).
  - exact (proj2 (create_and_delete_always_return (R := reference_runtime)
                    truncated_world H) (str "aaa111bb")).
Defined.
